(** * asf_search.WKT.validate_wkt: the AOI repair pipeline

    A shallow embedding of [src/asf_search/WKT/validate_wkt.py].

    Conventions of the embedding.
    - Python floats are exact rationals ([Q]); [float("inf")] is a
      separate value of [dist].  Rounding error of binary64 arithmetic is
      not modelled.
    - A Shapely geometry object is a value of [geometry]: one constructor
      per class that [shapely.wkt.loads] can return.  [wkt.loads(g.wkt)]
      is the identity on such values.
    - The functions of this repository are translated one by one and keep
      their names.  What they call in Shapely, scikit-learn and NumPy is
      either written out from the library's Python code ([transform],
      [orient], [signed_area], [is_ccw], [bounds], [is_empty], [has_z]) or
      taken from an interface [Libs] (GEOS validity, union, convex hull and
      simplification, NumPy's elementary functions).
    - [warn(...)] appends to a list of warnings that is returned with the
      value; [raise] is the [Raise] case of [result]. *)

From Stdlib Require Import List Bool Arith ZArith QArith Qround Qabs Lia Lqa.
From Stdlib Require Import Permutation Sorted.
Import ListNotations.

(** ** Numbers *)

Module PyFloat.

Local Open Scope Q_scope.

(** [float("inf")] next to the finite floats. *)
Inductive dist : Type :=
| Fin (q : Q)
| Inf.

(** [a > b] where [a] may be infinite. *)
Definition dist_gtb (a : dist) (b : Q) : bool :=
  match a with
  | Fin q => negb (Qle_bool q b)
  | Inf => true
  end.

(** The smaller of two distances. *)
Definition dist_min (a b : dist) : dist :=
  match a, b with
  | Fin x, Fin y => if Qle_bool x y then Fin x else Fin y
  | Fin x, Inf => Fin x
  | Inf, _ => b
  end.

Definition Qltb (a b : Q) : bool := negb (Qle_bool b a).

(** Python's [min(a, b)]: the first argument unless the second is smaller. *)
Definition py_min (a b : Q) : Q := if Qltb b a then b else a.

(** Python's [max(a, b)]: the first argument unless the second is larger. *)
Definition py_max (a b : Q) : Q := if Qltb a b then b else a.

(** Python's [x % m] for a positive [m]: the result has the sign of [m]. *)
Definition py_mod (x m : Q) : Q := x - m * inject_Z (Qfloor (x / m)).

(** Round half to even, to an integer. *)
Definition round_half_even (q : Q) : Z :=
  let f := Qfloor q in
  let r := q - inject_Z f in
  if Qltb r (1 # 2) then f
  else if Qltb (1 # 2) r then (f + 1)%Z
  else if Z.even f then f else (f + 1)%Z.

Definition pow10_14 : positive := 100000000000000.

(** Python's [round(x, 14)]. The result is kept in lowest terms. *)
Definition round14 (x : Q) : Q :=
  Qred (round_half_even (x * inject_Z (Zpos pow10_14)) # pow10_14).

End PyFloat.
Import PyFloat.

(** ** Geometries *)

(** A coordinate tuple [(x, y)] or [(x, y, z)]: longitude, latitude and
    an optional third ordinate. *)
Record coord : Type := mkCoord { cx : Q; cy : Q; cz : option Q }.

Definition xy (x y : Q) : coord := mkCoord x y None.
Definition xyz (x y z : Q) : coord := mkCoord x y (Some z).

(** The classes [wkt.loads] returns.  A [Point] holds no coordinate when
    it is empty.  A ring lists its closing coordinate as [ring.coords]
    does.  The four multi-part classes all derive from
    [BaseMultipartGeometry]; [LinearRing] derives from [LineString]. *)
#[local] Unset Elimination Schemes.
Inductive geometry : Type :=
| Point (c : option coord)
| LineString (cs : list coord)
| LinearRing (cs : list coord)
| Polygon (exterior : list coord) (interiors : list (list coord))
| MultiPoint (geoms : list geometry)
| MultiLineString (geoms : list geometry)
| MultiPolygon (geoms : list geometry)
| GeometryCollection (geoms : list geometry).
#[local] Set Elimination Schemes.

(** [geometry.geom_type]. *)
Inductive geom_type_name : Type :=
| TPoint | TLineString | TLinearRing | TPolygon
| TMultiPoint | TMultiLineString | TMultiPolygon | TGeometryCollection.

Definition geom_type (g : geometry) : geom_type_name :=
  match g with
  | Point _ => TPoint
  | LineString _ => TLineString
  | LinearRing _ => TLinearRing
  | Polygon _ _ => TPolygon
  | MultiPoint _ => TMultiPoint
  | MultiLineString _ => TMultiLineString
  | MultiPolygon _ => TMultiPolygon
  | GeometryCollection _ => TGeometryCollection
  end.

(** [isinstance(g, BaseMultipartGeometry)]. *)
Definition is_multipart (g : geometry) : bool :=
  match g with
  | MultiPoint _ | MultiLineString _ | MultiPolygon _ | GeometryCollection _ => true
  | _ => false
  end.

(** [isinstance(g, Polygon)]. *)
Definition is_Polygon (g : geometry) : bool :=
  match g with Polygon _ _ => true | _ => false end.

(** [isinstance(g, (Point, LineString))]: true of a [LinearRing] too,
    which is a subclass of [LineString]. *)
Definition is_Point_or_LineString (g : geometry) : bool :=
  match g with
  | Point _ | LineString _ | LinearRing _ => true
  | _ => false
  end.

(** [g.geoms] of a multi-part geometry; [None] stands for the
    [AttributeError] the other classes raise. *)
Definition geoms_of (g : geometry) : option (list geometry) :=
  match g with
  | MultiPoint gs | MultiLineString gs | MultiPolygon gs | GeometryCollection gs => Some gs
  | _ => None
  end.

(** [type(g)(parts)] for a multi-part [g]. *)
Definition same_class (g : geometry) (parts : list geometry) : geometry :=
  match g with
  | MultiPoint _ => MultiPoint parts
  | MultiLineString _ => MultiLineString parts
  | MultiPolygon _ => MultiPolygon parts
  | GeometryCollection _ => GeometryCollection parts
  | _ => g
  end.

(** Induction on geometries, with the members of a multi-part one. *)
Section GeometryInd.
Variable P : geometry -> Prop.
Hypothesis HPoint : forall c, P (Point c).
Hypothesis HLineString : forall cs, P (LineString cs).
Hypothesis HLinearRing : forall cs, P (LinearRing cs).
Hypothesis HPolygon : forall e hs, P (Polygon e hs).
Hypothesis HMultiPoint : forall gs, Forall P gs -> P (MultiPoint gs).
Hypothesis HMultiLineString : forall gs, Forall P gs -> P (MultiLineString gs).
Hypothesis HMultiPolygon : forall gs, Forall P gs -> P (MultiPolygon gs).
Hypothesis HGeometryCollection : forall gs, Forall P gs -> P (GeometryCollection gs).

Fixpoint geometry_ind (g : geometry) : P g :=
  let members :=
    fix members (gs : list geometry) : Forall P gs :=
      match gs with
      | [] => Forall_nil P
      | x :: r => Forall_cons x (geometry_ind x) (members r)
      end in
  match g with
  | Point c => HPoint c
  | LineString cs => HLineString cs
  | LinearRing cs => HLinearRing cs
  | Polygon e hs => HPolygon e hs
  | MultiPoint gs => HMultiPoint gs (members gs)
  | MultiLineString gs => HMultiLineString gs (members gs)
  | MultiPolygon gs => HMultiPolygon gs (members gs)
  | GeometryCollection gs => HGeometryCollection gs (members gs)
  end.
End GeometryInd.

(** Every coordinate of a geometry, in the order of its text form. *)
Fixpoint all_coords (g : geometry) : list coord :=
  match g with
  | Point None => []
  | Point (Some c) => [c]
  | LineString cs => cs
  | LinearRing cs => cs
  | Polygon e hs => e ++ concat hs
  | MultiPoint gs | MultiLineString gs | MultiPolygon gs | GeometryCollection gs =>
      flat_map all_coords gs
  end.

(** [g.is_empty]: no coordinate at all. *)
Definition is_empty (g : geometry) : bool :=
  match all_coords g with
  | [] => true
  | _ :: _ => false
  end.

(** [g.has_z]: some coordinate carries a third ordinate. *)
Definition coord_has_z (c : coord) : bool :=
  match cz c with Some _ => true | None => false end.

Definition has_z (g : geometry) : bool := existsb coord_has_z (all_coords g).

(** ** Shapely, as far as its Python code decides the result *)

Module Shapely.

Local Open Scope Q_scope.

(** [shapely.ops.transform(func, geom)].  An empty geometry is returned
    as it is.  The functions this repository passes take one coordinate
    at a time (the attempt on whole columns raises [TypeError] before
    any effect), so [func] is applied once to every coordinate tuple,
    the closing coordinate of a ring included. *)
Fixpoint transform (func : coord -> coord) (geom : geometry) : geometry :=
  if is_empty geom then geom
  else
    match geom with
    | Point c => Point (option_map func c)
    | LineString cs => LineString (map func cs)
    | LinearRing cs => LinearRing (map func cs)
    | Polygon e hs => Polygon (map func e) (map (map func) hs)
    | MultiPoint gs => MultiPoint (map (transform func) gs)
    | MultiLineString gs => MultiLineString (map (transform func) gs)
    | MultiPolygon gs => MultiPolygon (map (transform func) gs)
    | GeometryCollection gs => GeometryCollection (map (transform func) gs)
    end.

(** The coordinates [geom.bounds] ranges over: a polygon's envelope is
    that of its exterior ring. *)
Fixpoint envelope_coords (g : geometry) : list coord :=
  match g with
  | Polygon e _ => e
  | MultiPoint gs | MultiLineString gs | MultiPolygon gs | GeometryCollection gs =>
      flat_map envelope_coords gs
  | _ => all_coords g
  end.

Definition minimum (l : list Q) : option Q :=
  match l with
  | [] => None
  | x :: r => Some (fold_left (fun m y => if Qle_bool m y then m else y) r x)
  end.

Definition maximum (l : list Q) : option Q :=
  match l with
  | [] => None
  | x :: r => Some (fold_left (fun m y => if Qle_bool y m then m else y) r x)
  end.

(** [geom.bounds[2] - geom.bounds[0]], the extent in longitude; [None]
    for a geometry without coordinates, whose bounds are not numbers. *)
Definition lon_span (g : geometry) : option Q :=
  match minimum (map cx (envelope_coords g)), maximum (map cx (envelope_coords g)) with
  | Some lo, Some hi => Some (hi - lo)
  | _, _ => None
  end.

(** The sum [shapely.algorithms.cga.signed_area] takes, over every
    coordinate [b] of the list that has a predecessor [a] and a
    successor [c]: [b.x * (c.y - a.y)]. *)
Fixpoint window_sum (l : list coord) : Q :=
  match l with
  | a :: (b :: (c :: _) as r2) as r1 => cx b * (cy c - cy a) + window_sum r1
  | _ => 0
  end.

(** [signed_area(ring)]: the ring's coordinates with the second one
    appended again, [sum(xs[i]*(ys[i+1]-ys[i-1]) for i in range(1, n))/2].
    A ring of Shapely has at least four coordinates; on a shorter list
    the sum is empty here. *)
Definition signed_area (ring : list coord) : Q :=
  match ring with
  | _ :: second :: _ => window_sum (ring ++ [second]) / 2
  | _ => 0
  end.

(** [ring.is_ccw], by the same criterion as [orient] below:
    [signed_area(ring) >= 0.0]. *)
Definition is_ccw (ring : list coord) : bool := Qle_bool 0 (signed_area ring).

(** [shapely.geometry.polygon.orient(polygon, sign)]: the exterior ring
    is reversed when its signed area has the sign opposite to [sign], an
    interior ring when it has the same sign. *)
Definition orient_polygon (e : list coord) (hs : list (list coord)) (sign : Q)
  : geometry :=
  Polygon
    (if Qle_bool 0 (signed_area e / sign) then e else rev e)
    (map (fun h => if Qle_bool (signed_area h / sign) 0 then h else rev h) hs).

(** [shapely.ops.orient(geom, sign)]: member by member through a
    multi-part geometry, [orient_polygon] on a polygon, and the geometry
    itself otherwise. *)
Fixpoint orient (geom : geometry) (sign : Q) : geometry :=
  match geom with
  | MultiPoint gs => MultiPoint (map (fun g => orient g sign) gs)
  | MultiLineString gs => MultiLineString (map (fun g => orient g sign) gs)
  | MultiPolygon gs => MultiPolygon (map (fun g => orient g sign) gs)
  | GeometryCollection gs => GeometryCollection (map (fun g => orient g sign) gs)
  | Polygon e hs => orient_polygon e hs sign
  | _ => geom
  end.

End Shapely.
Import Shapely.

(** ** Exceptions, warnings and the libraries' interface *)

(** The three uses of [ASFWKTError] in the module, told apart by their
    message, under the names the specification gives them. *)
Inductive wkt_error : Type :=
| InvalidGeometry
| UnsupportedGeometryType
| SimplificationBoundExceeded.

(** What a call can raise.  [AttributeError]: [.geoms] of a geometry that
    has none.  [UnpackError]: [a, b = v] where [v] is not a pair.
    [RecursionError]: the interpreter's stack is used up. *)
Inductive exn : Type :=
| ASFWKTError (kind : wkt_error)
| AttributeError
| UnpackError
| RecursionError.

Inductive result (A : Type) : Type :=
| Ok (a : A)
| Raise (e : exn).
Arguments Ok {A} a.
Arguments Raise {A} e.

Definition bind {A B : Type} (r : result A) (k : A -> result B) : result B :=
  match r with
  | Ok a => k a
  | Raise e => Raise e
  end.

Notation "x <- e ;; k" := (bind e (fun x => k))
  (at level 61, e at next level, right associativity).
Notation "' p <- e ;; k" := (bind e (fun x => match x with p => k end))
  (at level 61, p pattern, e at next level, right associativity).

(** [RepairEntry(report_type, report)]: the type tag and what the text
    of the report says. *)
Inductive report_type_name : Type :=
| OVERLAP_MERGE | CONVEX_HULL_INDIVIDUAL | CLAMP | WRAP
| GEOMETRY_SIMPLIFICATION | REVERSE.

Inductive report_text : Type :=
| NonOverlappingMergedByHulls (unique_shapes : nat)
| OverlappingMergedIntoOne (original_amount : nat)
| UnconnectedShapesHulled
| ClampedValues (coords_clamped : nat)
| WrappedValues (coords_wrapped : nat)
| ShapeSimplified (before after : nat) (threshold : Q)
| ReversedWindingOrder.

Record RepairEntry : Type := mkRepairEntry {
  report_type : report_type_name;
  report : report_text
}.

(** What [warn] is called with: the higher-dimension notice of the
    flattener, or a repair report. *)
Inductive warning : Type :=
| HIGHER_DIMENSION_DROPPED
| Repair (entry : RepairEntry).

(** The operations whose result is decided inside GEOS, scikit-learn's
    metric calls into NumPy, and NumPy itself. *)
Class Libs : Type := {
  (** [geom.is_valid] *)
  is_valid : geometry -> bool;
  (** [shapely.ops.unary_union(geom)] *)
  unary_union : geometry -> geometry;
  (** [geom.convex_hull] *)
  convex_hull : geometry -> geometry;
  (** [geom.simplify(tolerance)] *)
  simplify : geometry -> Q -> geometry;
  np_radians : Q -> Q;
  np_sin : Q -> Q;
  np_cos : Q -> Q;
  np_arcsin : Q -> Q;
  np_sqrt : Q -> Q
}.

(** ** The functions of [validate_wkt.py] *)

Section Pipeline.

Context {L : Libs}.

Local Open Scope Q_scope.

(** [_search_wkt_prep(shape)], lines 41-67. *)
Definition _search_wkt_prep (shape : geometry) : result geometry :=
  if is_Point_or_LineString shape then Ok shape
  else if is_multipart shape then
    match geoms_of shape with
    | Some geoms =>
        let output :=
          map (fun geom => if is_Polygon geom then orient geom 1 else geom) geoms in
        Ok (same_class shape output)
    | None => Raise AttributeError
    end
  else if is_Polygon shape then Ok (orient shape 1)
  else Raise (ASFWKTError UnsupportedGeometryType).

(** The inner [_recurse_nested_geometry] of the flattener, lines 101-110. *)
Fixpoint _recurse_nested_geometry (geom : geometry) : list geometry :=
  match geom with
  | MultiPoint gs | MultiLineString gs | MultiPolygon gs | GeometryCollection gs =>
      flat_map _recurse_nested_geometry gs
  | _ => if negb (is_empty geom) then [geom] else []
  end.

(** [_flatten_multipart_geometry(geometry)], lines 97-114: the warning it
    may emit before the descent, and the geometry it returns. *)
Definition _flatten_multipart_geometry (geom : geometry)
  : list warning * geometry :=
  let warned := if has_z geom then [HIGHER_DIMENSION_DROPPED] else [] in
  let flattened := _recurse_nested_geometry geom in
  (warned,
   match flattened with
   | [single] => single
   | _ => GeometryCollection flattened
   end).

(** [_clamp(num)], lines 262-264. *)
Definition _clamp (num : Q) : Q := py_max (-90) (py_min 90 num).

(** The three coordinate functions of [_get_clamped_geometry], lines
    172-196.  Each returns a pair: a third ordinate is not passed on. *)
Definition _clamp_lat (c : coord) : coord := xy (cx c) (_clamp (cy c)).

Definition _wrap_lon (c : coord) : coord :=
  xy (if Qltb 180 (Qabs (cx c)) then py_mod (cx c + 180) 360 - 180 else cx c) (cy c).

Definition _unwrap_lon (c : coord) : coord :=
  xy (if Qle_bool 0 (cx c) then cx c else cx c + 360) (cy c).

(** The coordinates [transform] calls its function on: none of an empty
    geometry.  The closures of [_get_clamped_geometry] add one to their
    counter at each of these that they change. *)
Fixpoint transform_calls (geom : geometry) : list coord :=
  if is_empty geom then []
  else
    match geom with
    | MultiPoint gs | MultiLineString gs | MultiPolygon gs | GeometryCollection gs =>
        flat_map transform_calls gs
    | _ => all_coords geom
    end.

Definition count_changed (changed : coord -> bool) (geom : geometry) : nat :=
  length (filter changed (transform_calls geom)).

(** [wrapped != x] in [_wrap_lon], [clamped != y] in [_clamp_lat]. *)
Definition lon_changed (c : coord) : bool := negb (Qeq_bool (cx (_wrap_lon c)) (cx c)).
Definition lat_changed (c : coord) : bool := negb (Qeq_bool (cy (_clamp_lat c)) (cy c)).

(** [wrapped.bounds[2] - wrapped.bounds[0] > 180]; a comparison with
    bounds that are not numbers is false. *)
Definition spans_more_than_180 (wrapped : geometry) : bool :=
  match lon_span wrapped with
  | Some w => Qltb 180 w
  | None => false
  end.

(** [_get_clamped_geometry(shape)], lines 164-214. *)
Definition _get_clamped_geometry (shape : geometry)
  : geometry * list (option RepairEntry) :=
  let wrapped := transform _wrap_lon shape in
  let coords_wrapped := count_changed lon_changed shape in
  let unwrapped :=
    if spans_more_than_180 wrapped then transform _unwrap_lon wrapped else wrapped in
  let clamped := transform _clamp_lat unwrapped in
  let coords_clamped := count_changed lat_changed unwrapped in
  let clampRepairReport :=
    if (0 <? coords_clamped)%nat
    then Some (mkRepairEntry CLAMP (ClampedValues coords_clamped)) else None in
  let wrapRepairReport :=
    if (0 <? coords_wrapped)%nat
    then Some (mkRepairEntry WRAP (WrappedValues coords_wrapped)) else None in
  (clamped, [clampRepairReport; wrapRepairReport]).

(** What [_merge_overlapping_geometry] hands back: one path returns the
    geometry alone, the others a pair. *)
Inductive merge_return : Type :=
| Bare (geom : geometry)
| Pair (merged : geometry) (merge_report : option RepairEntry).

(** [_merge_overlapping_geometry(geometry)], lines 117-144. *)
Definition _merge_overlapping_geometry (geom : geometry) : merge_return :=
  match geoms_of geom with
  | Some geoms =>
      let original_amount := length geoms in
      if (original_amount =? 1)%nat then Bare geom
      else
        let merged := unary_union geom in
        match geoms_of merged with
        | Some merged_geoms =>
            let unique_shapes := length merged_geoms in
            Pair
              (orient (unary_union (GeometryCollection (map convex_hull merged_geoms))) 1)
              (Some (mkRepairEntry OVERLAP_MERGE (NonOverlappingMergedByHulls unique_shapes)))
        | None =>
            Pair merged
              (Some (mkRepairEntry OVERLAP_MERGE (OverlappingMergedIntoOne original_amount)))
        end
  | None => Pair geom None
  end.

(** [merged, merge_report = _merge_overlapping_geometry(clamped)]. *)
Definition unpack_pair (v : merge_return) : result (geometry * option RepairEntry) :=
  match v with
  | Pair merged merge_report => Ok (merged, merge_report)
  | Bare _ => Raise UnpackError
  end.

(** [_get_convex_hull(geometry)], lines 217-227. *)
Definition _get_convex_hull (geom : geometry) : geometry * option RepairEntry :=
  match geom_type geom with
  | TMultiPoint | TMultiLineString | TMultiPolygon | TGeometryCollection =>
      (convex_hull geom,
       Some (mkRepairEntry CONVEX_HULL_INDIVIDUAL UnconnectedShapesHulled))
  | _ => (geom, None)
  end.

(** [_get_shape_coords(geometry)], lines 271-288.  A ring outside a
    polygon is of none of the three types tested and has no [geoms]. *)
Fixpoint _get_shape_coords (geom : geometry) : result (list coord) :=
  match geom with
  | Polygon exterior _ => Ok (removelast exterior)
  | LineString cs => Ok cs
  | Point c => Ok (all_coords (Point c))
  | LinearRing _ => Raise AttributeError
  | MultiPoint gs | MultiLineString gs | MultiPolygon gs | GeometryCollection gs =>
      fold_left
        (fun output member =>
           output <- output ;;
           coords <- _get_shape_coords member ;;
           Ok (output ++ coords))
        gs (Ok [])
  end.

(** [_get_shape_coords_len(geometry)], lines 267-268. *)
Definition _get_shape_coords_len (geom : geometry) : result nat :=
  coords <- _get_shape_coords geom ;; Ok (length coords).

(** The metric [distance(p1, p2)] of [_nearest_neighbor], lines 293-304:
    the haversine formula, in kilometres. *)
Definition distance (p1 p2 : coord) : Q :=
  let lon1 := np_radians (cx p1) in
  let lat1 := np_radians (cy p1) in
  let lon2 := np_radians (cx p2) in
  let lat2 := np_radians (cy p2) in
  let dlon := lon2 - lon1 in
  let dlat := lat2 - lat1 in
  let a := np_sin (dlat / 2) ^ 2 + np_cos lat1 * np_cos lat2 * np_sin (dlon / 2) ^ 2 in
  let c := 2 * np_arcsin (np_sqrt a) in
  let km := 6367 * c in
  km.

Fixpoint insert_sorted (d : Q) (sorted : list Q) : list Q :=
  match sorted with
  | [] => [d]
  | e :: rest => if Qle_bool d e then d :: sorted else e :: insert_sorted d rest
  end.

Definition sort_distances (ds : list Q) : list Q := fold_right insert_sorted [] ds.

(** One row of [nbrs.kneighbors(points)] for [n_neighbors=2], and the
    entry [dist[1]] the loop of lines 314-315 keeps: among the distances
    from [p] to every fitted point, [p] itself included, the second
    smallest. *)
Definition kneighbors_second (points : list coord) (p : coord) : Q :=
  nth 1 (sort_distances (map (distance p) points)) 0.

(** [_nearest_neighbor(geometry)], lines 291-316. *)
Definition _nearest_neighbor (geom : geometry) : result dist :=
  points <- _get_shape_coords geom ;;
  if (length points <? 2)%nat then Ok Inf
  else
    let distances := map (kneighbors_second points) points in
    Ok (fold_left dist_min (map Fin distances) Inf).

(** The test of line 250 on a geometry whose coordinates and
    nearest-neighbour distance are at hand. *)
Definition within_limits (count : nat) (nearest_neighbor_distance : dist) : bool :=
  (count <=? 300)%nat && dist_gtb nearest_neighbor_distance (4 # 1000).

(** [_simplify_aoi(shape, threshold, max_depth)], lines 230-259.  The
    fourth parameter of the Python function is overwritten before it is
    read and is left out.  [stack] counts the frames the interpreter still
    allows: each call takes one, and a call with none left raises
    [RecursionError]. *)
Fixpoint _simplify_aoi (stack : nat) (shape : geometry) (threshold : Q) (max_depth : Z)
  : result (geometry * list RepairEntry) :=
  match stack with
  | O => Raise RecursionError
  | S stack' =>
      nearest_neighbor_distance <- _nearest_neighbor shape ;;
      match geom_type shape with
      | TPoint => Ok (shape, [])
      | _ =>
          count <- _get_shape_coords_len shape ;;
          if within_limits count nearest_neighbor_distance then Ok (shape, [])
          else if (max_depth =? 0)%Z then Raise (ASFWKTError SimplificationBoundExceeded)
          else
            let simplified := simplify shape threshold in
            before <- _get_shape_coords_len shape ;;
            after <- _get_shape_coords_len simplified ;;
            let repair :=
              mkRepairEntry GEOMETRY_SIMPLIFICATION (ShapeSimplified before after threshold) in
            ' (output, repairs) <-
              _simplify_aoi stack' simplified (threshold * 5) (max_depth - 1) ;;
            Ok (output, repair :: repairs)
      end
  end.

(** The interpreter's default recursion limit. *)
Definition recursion_limit : nat := 1000.

(** The defaults of [_simplify_aoi]: [threshold=0.00001], [max_depth=10]. *)
Definition default_threshold : Q := 1 # 100000.
Definition default_max_depth : Z := 10.

(** [polygon.exterior.coords]. *)
Definition exterior_coords (g : geometry) : list coord :=
  match g with
  | Polygon exterior _ => exterior
  | _ => []
  end.

(** [_counter_clockwise_reorientation(geometry)], lines 147-161. *)
Definition _counter_clockwise_reorientation (geom : geometry)
  : geometry * option RepairEntry :=
  let reoriented_report := mkRepairEntry REVERSE ReversedWindingOrder in
  let reoriented := orient geom 1 in
  if is_Polygon geom
     && negb (Bool.eqb (is_ccw (exterior_coords reoriented))
                       (is_ccw (exterior_coords geom)))
  then (reoriented, Some reoriented_report)
  else (reoriented, None).

(** The function line 93 hands to [transform]. *)
Definition round_coord (c : coord) : coord := xy (round14 (cx c)) (round14 (cy c)).

(** The local variables of [_simplify_geometry] when it returns, and the
    warnings emitted on the way, in order. *)
Record stages : Type := mkStages {
  flattened : geometry;
  clamped : geometry;
  merged : geometry;
  convex : geometry;
  simplified : geometry;
  reoriented : geometry;
  validated : geometry;
  warnings : list warning
}.

(** The reports that are not [None], each turned into a warning. *)
Definition warn_reports (repair_reports : list (option RepairEntry)) : list warning :=
  flat_map (fun r => match r with Some e => [Repair e] | None => [] end) repair_reports.

(** The body of [_simplify_geometry(geometry)], lines 81-94. *)
Definition _simplify_geometry_stages (geom : geometry) : result stages :=
  let (higher_dimension, flattened) := _flatten_multipart_geometry geom in
  let (clamped, clamp_report) := _get_clamped_geometry flattened in
  ' (merged, merge_report) <- unpack_pair (_merge_overlapping_geometry clamped) ;;
  let (convex, convex_report) := _get_convex_hull merged in
  ' (simplified, simplified_report) <-
    _simplify_aoi recursion_limit convex default_threshold default_max_depth ;;
  let (reoriented, reorientation_report) := _counter_clockwise_reorientation simplified in
  let repair_reports :=
    [merge_report; convex_report] ++ clamp_report
      ++ map Some simplified_report ++ [reorientation_report] in
  let validated := transform round_coord reoriented in
  Ok (mkStages flattened clamped merged convex simplified reoriented validated
        (higher_dimension ++ warn_reports repair_reports)).

(** [_simplify_geometry(geometry)]: the warnings and the value returned. *)
Definition _simplify_geometry (geom : geometry) : result (list warning * geometry) :=
  s <- _simplify_geometry_stages geom ;; Ok (warnings s, validated s).

(** [validate_wkt(aoi)], lines 17-38, on the geometry that
    [wkt.loads] makes of [aoi]. *)
Definition validate_wkt (aoi : geometry) : result (list warning * geometry) :=
  let aoi_shape := aoi in
  if negb (is_valid aoi_shape) then
    aoi_shape <- _search_wkt_prep aoi_shape ;;
    if negb (is_valid aoi_shape) then Raise (ASFWKTError InvalidGeometry)
    else _simplify_geometry aoi_shape
  else _simplify_geometry aoi_shape.

End Pipeline.

(** ** Auxiliary notions for the statements *)

(** No ring stands alone inside [g]: the geometries [_get_shape_coords]
    has a case for. *)
Fixpoint has_shape_coords (g : geometry) : bool :=
  match g with
  | LinearRing _ => false
  | MultiPoint gs | MultiLineString gs | MultiPolygon gs | GeometryCollection gs =>
      forallb has_shape_coords gs
  | _ => true
  end.

(** The list [_get_shape_coords] returns when it returns one. *)
Fixpoint shape_coords (g : geometry) : list coord :=
  match g with
  | Polygon exterior _ => removelast exterior
  | LineString cs => cs
  | Point c => all_coords (Point c)
  | LinearRing _ => []
  | MultiPoint gs | MultiLineString gs | MultiPolygon gs | GeometryCollection gs =>
      flat_map shape_coords gs
  end.

Section Limits.

Context {L : Libs}.

(** The value [_nearest_neighbor] computes from the vertex list. *)
Definition closest_point_dist (points : list coord) : dist :=
  if (length points <? 2)%nat then Inf
  else fold_left dist_min (map Fin (map (kneighbors_second points) points)) Inf.

(** At most 300 vertices, nearest neighbours more than 0.004 apart. *)
Definition meets_limits (g : geometry) : bool :=
  within_limits (length (shape_coords g)) (closest_point_dist (shape_coords g)).

(** The geometry after [k] simplification steps of [_simplify_aoi], the
    first with tolerance [threshold], each next one with five times the
    tolerance of the one before. *)
Fixpoint simplified_after (k : nat) (shape : geometry) (threshold : Q) : geometry :=
  match k with
  | O => shape
  | S k' => simplified_after k' (simplify shape threshold) (threshold * 5)
  end.

(** The tolerance of step [k], counted from 0. *)
Fixpoint threshold_at (k : nat) (threshold : Q) : Q :=
  match k with
  | O => threshold
  | S k' => threshold_at k' (threshold * 5)
  end.

(** The reports of the first [k] steps. *)
Fixpoint reports_of_steps (k : nat) (shape : geometry) (threshold : Q) : list RepairEntry :=
  match k with
  | O => []
  | S k' =>
      mkRepairEntry GEOMETRY_SIMPLIFICATION
        (ShapeSimplified (length (shape_coords shape))
           (length (shape_coords (simplify shape threshold))) threshold)
      :: reports_of_steps k' (simplify shape threshold) (threshold * 5)
  end.

(** The number of steps after which the limits are first met, among
    [0, ..., n]. *)
Fixpoint first_within (n : nat) (shape : geometry) (threshold : Q) : option nat :=
  if meets_limits shape then Some O
  else match n with
       | O => None
       | S n' => option_map S (first_within n' (simplify shape threshold) (threshold * 5))
       end.

End Limits.

(** The ring invariant of Shapely: the last coordinate repeats the first. *)
Definition ring_closed (ring : list coord) : Prop :=
  match ring with
  | [] => True
  | first :: _ => last ring first = first
  end.

(** Coordinates inside a box of longitudes and latitudes. *)
Definition coord_within (lon_lo lon_hi lat_lo lat_hi : Q) (c : coord) : Prop :=
  (lon_lo <= cx c /\ cx c <= lon_hi /\ lat_lo <= cy c /\ cy c <= lat_hi)%Q.

Definition geometry_within (lon_lo lon_hi lat_lo lat_hi : Q) (g : geometry) : Prop :=
  Forall (coord_within lon_lo lon_hi lat_lo lat_hi) (all_coords g).

(** An operation that makes no coordinate outside a box its argument
    lies in. *)
Definition keeps_within (op : geometry -> geometry) : Prop :=
  forall lon_lo lon_hi lat_lo lat_hi g,
    geometry_within lon_lo lon_hi lat_lo lat_hi g ->
    geometry_within lon_lo lon_hi lat_lo lat_hi (op g).

(** What the coordinate bound asks of GEOS: union, hull and
    simplification stay inside the bounding box of their argument. *)
Record BoxLaws (L : Libs) : Prop := mkBoxLaws {
  unary_union_within : keeps_within unary_union;
  convex_hull_within : keeps_within convex_hull;
  simplify_within : forall tolerance, keeps_within (fun g => simplify g tolerance)
}.
Arguments unary_union_within {L}.
Arguments convex_hull_within {L}.
Arguments simplify_within {L}.

(** An operation that gives a geometry without third ordinates when
    its argument has none. *)
Definition keeps_flat (op : geometry -> geometry) : Prop :=
  forall g, has_z g = false -> has_z (op g) = false.

(** What the later stages ask of GEOS to stay two-dimensional. *)
Record FlatLaws (L : Libs) : Prop := mkFlatLaws {
  unary_union_flat : keeps_flat unary_union;
  convex_hull_flat : keeps_flat convex_hull;
  simplify_flat : forall tolerance, keeps_flat (fun g => simplify g tolerance)
}.
Arguments unary_union_flat {L}.
Arguments convex_hull_flat {L}.
Arguments simplify_flat {L}.

(** A warning that is a repair report. *)
Definition is_repair (w : warning) : Prop :=
  match w with
  | Repair _ => True
  | HIGHER_DIMENSION_DROPPED => False
  end.

(** A coordinate as [round_coord] leaves it: a pair of fractions in
    lowest terms. *)
Definition canonical (c : coord) : Prop :=
  Qred (cx c) = cx c /\ Qred (cy c) = cy c /\ cz c = None.

(** An operation whose result has coordinates of its argument only. *)
Definition selects (op : geometry -> geometry) : Prop :=
  forall g c, In c (all_coords (op g)) -> In c (all_coords g).


(** ** Further notions for the statements *)

Section Ranges.

Local Open Scope Q_scope.

(** A longitude that [_wrap_lon] changes: [abs(x) > 180]. *)
Definition lon_out_of_range (c : coord) : bool := Qltb 180 (Qabs (cx c)).

(** A latitude that [_clamp] changes: below -90 or above 90. *)
Definition lat_out_of_range (c : coord) : bool :=
  Qltb (cy c) (-90) || Qltb 90 (cy c).

(** [RepairEntry] for a count that is not zero, [None] otherwise. *)
Definition report_of_count (kind : report_type_name) (text : nat -> report_text)
  (count : nat) : option RepairEntry :=
  if (0 <? count)%nat then Some (mkRepairEntry kind (text count)) else None.

(** A number with at most 14 decimals. *)
Definition has_14_decimals (x : Q) : Prop :=
  exists n : Z, x == n # pow10_14.

(** A geometry that is neither a collection nor empty. *)
Definition is_single_part (g : geometry) : bool :=
  negb (is_multipart g) && negb (is_empty g).

(** [polygon.interiors], each ring as its coordinate list. *)
Definition interior_rings (g : geometry) : list (list coord) :=
  match g with
  | Polygon _ interiors => interiors
  | _ => []
  end.

(** Half a unit of the fourteenth decimal. *)
Definition half_unit_14 : Q := 1 # (2 * pow10_14).

(** The rings of the polygons [_search_wkt_prep] hands to [orient]: the
    geometry's own if it is a polygon, those of its members that are
    polygons if it is a collection. *)
Definition polygon_rings (g : geometry) : list (list coord) :=
  match g with
  | Polygon exterior interiors => exterior :: interiors
  | _ => []
  end.

Definition oriented_rings (g : geometry) : list (list coord) :=
  match geoms_of g with
  | Some geoms => flat_map polygon_rings geoms
  | None => polygon_rings g
  end.

End Ranges.

(** ** A reference implementation of the libraries *)

(** The statements below hold for every implementation of [Libs]; the
    examples are run on this one.  It does with exact rationals what the
    libraries do with floats, on a part of their domain: NumPy's functions
    are truncated series (some eight decimals on the arguments the
    haversine formula meets), validity is decided for points, lines, rings
    and polygons (rings that touch count as invalid, overlap between the
    members of a collection is not looked for), simplification is the
    Douglas-Peucker recursion, the hull is the monotone-chain hull, and
    the union keeps apart members whose envelopes are disjoint and falls
    back on the hull of the members when envelopes meet. *)
Module Reference.

Local Open Scope Q_scope.

(** *** NumPy *)

Definition pi : Q := 314159265358979 # 100000000000000.

(** Eighteen decimals are kept after each step of a series. *)
Definition truncate (q : Q) : Q :=
  Qred (Qfloor (q * inject_Z (10 ^ 18)) # (10 ^ 18)).

Definition radians (x : Q) : Q := x * pi / 180.

(** [n] terms of the alternating series whose term after [term] is
    [- term * x2 / (i * (i + 1))], [i] going up by two. *)
Fixpoint alternating_series (n : nat) (i : Z) (term x2 : Q) : Q :=
  match n with
  | O => 0
  | S n' =>
      term + alternating_series n' (i + 2)
               (truncate (- term * x2 / inject_Z (i * (i + 1)))) x2
  end.

Definition sin (x : Q) : Q := truncate (alternating_series 24 2 x (x * x)).

Definition cos (x : Q) : Q := truncate (alternating_series 24 1 1 (x * x)).

Definition sqrt (a : Q) : Q :=
  if Qle_bool a 0 then 0
  else Qred (Z.sqrt (Qfloor (a * inject_Z (10 ^ 36))) # (10 ^ 18)).

(** [n] terms of the series of the arc sine: the term after [term] is
    [term * x2 * i * i / ((i + 1) * (i + 2))], [i] odd. *)
Fixpoint arcsin_series (n : nat) (i : Z) (term x2 : Q) : Q :=
  match n with
  | O => 0
  | S n' =>
      term + arcsin_series n' (i + 2)
               (truncate (term * x2 * inject_Z (i * i) / inject_Z ((i + 1) * (i + 2)))) x2
  end.

Definition arcsin_small (s : Q) : Q := arcsin_series 48 1 s (s * s).

(** Above 0.7 the series is slow: [arcsin s = pi/2 - 2 arcsin (sqrt ((1-s)/2))]. *)
Definition arcsin_positive (s : Q) : Q :=
  if Qle_bool s (7 # 10) then arcsin_small s
  else pi / 2 - 2 * arcsin_small (sqrt ((1 - s) / 2)).

Definition arcsin (s : Q) : Q :=
  truncate (if Qle_bool 0 s then arcsin_positive s else - arcsin_positive (- s)).

(** *** Planar predicates *)

(** Twice the signed area of the triangle [a b c]. *)
Definition cross (a b c : coord) : Q :=
  (cx b - cx a) * (cy c - cy a) - (cy b - cy a) * (cx c - cx a).

Definition same_position (a b : coord) : bool :=
  Qeq_bool (cx a) (cx b) && Qeq_bool (cy a) (cy b).

Definition between (lo hi x : Q) : bool :=
  (Qle_bool lo x && Qle_bool x hi) || (Qle_bool hi x && Qle_bool x lo).

(** [p] lies on the closed segment [a b]. *)
Definition on_segment (a b p : coord) : bool :=
  Qeq_bool (cross a b p) 0 && between (cx a) (cx b) (cx p) && between (cy a) (cy b) (cy p).

Definition sign_of (q : Q) : comparison := Qcompare q 0.

Definition opposite_sides (s t : comparison) : bool :=
  match s, t with
  | Lt, Gt | Gt, Lt => true
  | _, _ => false
  end.

(** The closed segments [a b] and [c d] have a point in common. *)
Definition segments_meet (a b c d : coord) : bool :=
  (opposite_sides (sign_of (cross a b c)) (sign_of (cross a b d))
   && opposite_sides (sign_of (cross c d a)) (sign_of (cross c d b)))
  || on_segment a b c || on_segment a b d || on_segment c d a || on_segment c d b.

(** The segments of a coordinate list, in order. *)
Fixpoint segments (cs : list coord) : list (coord * coord) :=
  match cs with
  | a :: (b :: _) as rest => (a, b) :: segments rest
  | _ => []
  end.

(** *** Validity *)

(** Two segments that follow each other, [a b] then [b c], share their
    common end only. *)
Definition consecutive_ok (s t : coord * coord) : bool :=
  negb (on_segment (fst s) (snd s) (snd t)) && negb (on_segment (fst t) (snd t) (fst s)).

(** No segment of [later] meets [s], the first of them being the one
    that follows [s] and [closing] telling whether the last one precedes
    it around a ring. *)
Fixpoint segment_clear (s : coord * coord) (follows closing : bool)
  (later : list (coord * coord)) : bool :=
  match later with
  | [] => true
  | t :: rest =>
      (if follows then consecutive_ok s t
       else match rest with
            | [] => if closing then consecutive_ok t s
                    else negb (segments_meet (fst s) (snd s) (fst t) (snd t))
            | _ => negb (segments_meet (fst s) (snd s) (fst t) (snd t))
            end)
      && segment_clear s false closing rest
  end.

Fixpoint segments_simple (closing : bool) (segs : list (coord * coord)) : bool :=
  match segs with
  | [] => true
  | s :: rest => segment_clear s true closing rest && segments_simple false rest
  end.

Definition closed_ring (cs : list coord) : bool :=
  match cs with
  | [] => false
  | first :: _ => same_position first (last cs first)
  end.

(** A ring: closed, of four coordinates at least, not meeting itself. *)
Definition ring_valid (cs : list coord) : bool :=
  (4 <=? length cs)%nat && closed_ring cs && segments_simple true (segments cs).

(** The number of segments of a ring that a ray from [p] to the right
    crosses is odd. *)
Definition crosses_ray (p : coord) (s : coord * coord) : bool :=
  let (a, b) := s in
  negb (Bool.eqb (Qltb (cy p) (cy a)) (Qltb (cy p) (cy b)))
  && Qltb (cx p)
       (cx a + (cy p - cy a) * (cx b - cx a) / (cy b - cy a)).

Definition inside_ring (ring : list coord) (p : coord) : bool :=
  Nat.odd (length (filter (crosses_ray p) (segments ring))).

Definition rings_apart (r1 r2 : list coord) : bool :=
  forallb (fun s => forallb (fun t => negb (segments_meet (fst s) (snd s) (fst t) (snd t)))
                      (segments r2))
    (segments r1).

Fixpoint holes_apart (holes : list (list coord)) : bool :=
  match holes with
  | [] => true
  | h :: rest =>
      forallb (fun k => rings_apart h k
                        && negb (inside_ring k (hd (xy 0 0) h))
                        && negb (inside_ring h (hd (xy 0 0) k))) rest
      && holes_apart rest
  end.

Definition polygon_valid (exterior : list coord) (interiors : list (list coord)) : bool :=
  match exterior with
  | [] => match interiors with [] => true | _ => false end
  | _ =>
      ring_valid exterior
      && forallb (fun h => ring_valid h && rings_apart h exterior
                           && inside_ring exterior (hd (xy 0 0) h)) interiors
      && holes_apart interiors
  end.

Definition line_valid (cs : list coord) : bool :=
  match cs with
  | [] => true
  | first :: rest => existsb (fun c => negb (same_position first c)) rest
  end.

Fixpoint valid (g : geometry) : bool :=
  match g with
  | Point _ => true
  | LineString cs => line_valid cs
  | LinearRing cs => match cs with [] => true | _ => ring_valid cs end
  | Polygon e hs => polygon_valid e hs
  | MultiPoint gs | MultiLineString gs | MultiPolygon gs | GeometryCollection gs =>
      forallb valid gs
  end.

(** *** Simplification *)

Definition dist2 (p q : coord) : Q :=
  (cx p - cx q) * (cx p - cx q) + (cy p - cy q) * (cy p - cy q).

(** The square of the distance from [p] to the segment [a b]. *)
Definition dist2_to_segment (p a b : coord) : Q :=
  let dx := cx b - cx a in
  let dy := cy b - cy a in
  let len2 := dx * dx + dy * dy in
  if Qeq_bool len2 0 then dist2 p a
  else
    let t := ((cx p - cx a) * dx + (cy p - cy a) * dy) / len2 in
    if Qle_bool t 0 then dist2 p a
    else if Qle_bool 1 t then dist2 p b
    else cross a b p * cross a b p / len2.

(** The position and squared distance of the coordinate of [cs] farthest
    from the segment [a b], positions counted from [i]; [best] is the
    farthest before [cs]. *)
Fixpoint farthest (a b : coord) (cs : list coord) (i : nat) (best : nat * Q) : nat * Q :=
  match cs with
  | [] => best
  | p :: rest =>
      let d := dist2_to_segment p a b in
      farthest a b rest (S i) (if Qltb (snd best) d then (i, d) else best)
  end.

(** Douglas-Peucker: the ends of the line stay; the farthest coordinate
    in between stays when it is farther than the tolerance from the chord,
    and the two halves are then treated alike. *)
Fixpoint douglas_peucker (fuel : nat) (tolerance : Q) (cs : list coord) : list coord :=
  match fuel with
  | O => cs
  | S fuel' =>
      match cs with
      | a :: (_ :: _ :: _) as rest =>
          let b := last rest a in
          let (i, d) := farthest a b (removelast rest) 1 (O, 0) in
          if Qltb (tolerance * tolerance) d then
            douglas_peucker fuel' tolerance (firstn (S i) cs)
              ++ tl (douglas_peucker fuel' tolerance (skipn i cs))
          else [a; b]
      | _ => cs
      end
  end.

Definition simplify_line (tolerance : Q) (cs : list coord) : list coord :=
  douglas_peucker (length cs) tolerance cs.

(** A ring keeps four coordinates at least: one that would be left with
    fewer is not simplified. *)
Definition simplify_ring (tolerance : Q) (cs : list coord) : list coord :=
  let simplified := simplify_line tolerance cs in
  if (4 <=? length simplified)%nat then simplified else cs.

Fixpoint simplify_geometry (g : geometry) (tolerance : Q) : geometry :=
  match g with
  | Point c => Point c
  | LineString cs => LineString (simplify_line tolerance cs)
  | LinearRing cs => LinearRing (simplify_ring tolerance cs)
  | Polygon e hs => Polygon (simplify_ring tolerance e) (map (simplify_ring tolerance) hs)
  | MultiPoint gs => MultiPoint (map (fun m => simplify_geometry m tolerance) gs)
  | MultiLineString gs => MultiLineString (map (fun m => simplify_geometry m tolerance) gs)
  | MultiPolygon gs => MultiPolygon (map (fun m => simplify_geometry m tolerance) gs)
  | GeometryCollection gs =>
      GeometryCollection (map (fun m => simplify_geometry m tolerance) gs)
  end.

(** *** Convex hull *)

(** Lexicographic order on positions. *)
Definition position_leb (a b : coord) : bool :=
  Qltb (cx a) (cx b) || (Qeq_bool (cx a) (cx b) && Qle_bool (cy a) (cy b)).

Fixpoint insert_position (p : coord) (sorted : list coord) : list coord :=
  match sorted with
  | [] => [p]
  | q :: rest =>
      if same_position p q then sorted
      else if position_leb p q then p :: sorted
      else q :: insert_position p rest
  end.

(** The distinct positions of a list, in lexicographic order. *)
Definition sort_positions (cs : list coord) : list coord :=
  fold_right insert_position [] cs.

(** One step of the monotone chain: coordinates that would make the
    chain turn right, or go straight, are taken off before [p] is put on. *)
Fixpoint chain_push (chain : list coord) (p : coord) : list coord :=
  match chain with
  | a :: (o :: _) as below =>
      if Qle_bool (cross o a p) 0 then chain_push below p else p :: chain
  | _ => p :: chain
  end.

Definition half_hull (cs : list coord) : list coord := fold_left chain_push cs [].

(** The hull of sorted distinct positions, clockwise: along the upper
    chain from the position after the first to the last, then back along
    the lower chain to the first. *)
Definition hull_vertices (sorted : list coord) : list coord :=
  tl (half_hull (rev sorted)) ++ tl (half_hull sorted).

Definition hull_of (cs : list coord) : geometry :=
  match sort_positions cs with
  | [] => GeometryCollection []
  | [p] => Point (Some p)
  | (first :: _) as sorted =>
      match hull_vertices sorted with
      | [far; _] => LineString [first; far]
      | vertices => Polygon (first :: vertices) []
      end
  end.

Definition hull (g : geometry) : geometry := hull_of (all_coords g).

(** *** Union *)

(** The leaves of a geometry that are not empty. *)
Fixpoint leaves (g : geometry) : list geometry :=
  match g with
  | MultiPoint gs | MultiLineString gs | MultiPolygon gs | GeometryCollection gs =>
      flat_map leaves gs
  | _ => if is_empty g then [] else [g]
  end.

(** The envelopes of [g] and [h] have no point in common. *)
Definition envelopes_apart (g h : geometry) : bool :=
  match minimum (map cx (envelope_coords g)), maximum (map cx (envelope_coords g)),
        minimum (map cy (envelope_coords g)), maximum (map cy (envelope_coords g)),
        minimum (map cx (envelope_coords h)), maximum (map cx (envelope_coords h)),
        minimum (map cy (envelope_coords h)), maximum (map cy (envelope_coords h)) with
  | Some gx0, Some gx1, Some gy0, Some gy1, Some hx0, Some hx1, Some hy0, Some hy1 =>
      Qltb gx1 hx0 || Qltb hx1 gx0 || Qltb gy1 hy0 || Qltb hy1 gy0
  | _, _, _, _, _, _, _, _ => true
  end.

Fixpoint all_apart (gs : list geometry) : bool :=
  match gs with
  | [] => true
  | g :: rest => forallb (envelopes_apart g) rest && all_apart rest
  end.

Definition is_Point (g : geometry) : bool :=
  match g with Point _ => true | _ => false end.

Definition is_LineString (g : geometry) : bool :=
  match g with LineString _ => true | _ => false end.

(** The collection of parts that have nothing in common, typed as GEOS
    types it. *)
Definition collect (parts : list geometry) : geometry :=
  match parts with
  | [] => GeometryCollection []
  | [part] => part
  | _ =>
      if forallb is_Point parts then MultiPoint parts
      else if forallb is_LineString parts then MultiLineString parts
      else if forallb is_Polygon parts then MultiPolygon parts
      else GeometryCollection parts
  end.

(** Points at the same position are one point. *)
Fixpoint distinct_leaves (parts : list geometry) : list geometry :=
  match parts with
  | [] => []
  | part :: rest =>
      if is_Point part
         && existsb (fun other =>
                       is_Point other
                       && forallb (fun c => forallb (same_position c) (all_coords other))
                            (all_coords part)) rest
      then distinct_leaves rest
      else part :: distinct_leaves rest
  end.

Definition union (g : geometry) : geometry :=
  let parts := distinct_leaves (leaves g) in
  if all_apart parts then collect parts else hull (GeometryCollection parts).

(** *** The instance *)

Definition libs : Libs := {|
  is_valid := valid;
  unary_union := union;
  convex_hull := hull;
  simplify := simplify_geometry;
  np_radians := radians;
  np_sin := sin;
  np_cos := cos;
  np_arcsin := arcsin;
  np_sqrt := sqrt
|}.

End Reference.

(** ** Inputs of the examples *)

Module Inputs.

Local Open Scope Q_scope.

(** [LINESTRING (-170 0, 170 0)]: 340 degrees wide on the map, 20 degrees
    long across the antimeridian. *)
Definition antimeridian_line : geometry := LineString [xy (-170) 0; xy 170 0].

(** The same line in the frame of 0 to 360 degrees. *)
Definition unwrapped_line : geometry := LineString [xy 190 0; xy 170 0].

(** [POLYGON ((0 0, 0 1, 1 1, 1 0, 0 0))], wound clockwise. *)
Definition clockwise_square : geometry :=
  Polygon [xy 0 0; xy 0 1; xy 1 1; xy 1 0; xy 0 0] [].

Definition counter_clockwise_square : geometry :=
  Polygon [xy 0 0; xy 1 0; xy 1 1; xy 0 1; xy 0 0] [].

(** [POINT Z (10 20 5)]. *)
Definition point_z : geometry := Point (Some (xyz 10 20 5)).

(** [LINEARRING (0 0, 1 0, 1 1, 0 0)], a valid ring, and
    [LINEARRING (0 0, 1 1, 1 0, 0 1, 0 0)], which crosses itself. *)
Definition triangle_ring : geometry := LinearRing [xy 0 0; xy 1 0; xy 1 1; xy 0 0].
Definition bow_tie_ring : geometry := LinearRing [xy 0 0; xy 1 1; xy 1 0; xy 0 1; xy 0 0].

(** A line with two vertices a hundred-thousandth of a degree apart (about
    1.1 m) and a third one far off; and the line of the two close ones. *)
Definition line_with_close_pair : geometry :=
  LineString [xy 0 0; xy (1 # 100000) 0; xy 1 0].
Definition close_pair : geometry := LineString [xy 0 0; xy (1 # 100000) 0].

(** [POLYGON ((200 10, 200 20, 190 20, 190 10, 200 10))]. *)
Definition polygon_beyond_180 : geometry :=
  Polygon [xy 200 10; xy 200 20; xy 190 20; xy 190 10; xy 200 10] [].

(** [MULTIPOLYGON (((0 0, 0 1, 1 1, 1 0, 0 0)), ((5 5, 5 6, 6 6, 6 5, 5 5)))]. *)
Definition two_squares : geometry :=
  MultiPolygon
    [Polygon [xy 0 0; xy 0 1; xy 1 1; xy 1 0; xy 0 0] [];
     Polygon [xy 5 5; xy 5 6; xy 6 6; xy 6 5; xy 5 5] []].

(** The hull of the two squares, counter-clockwise. *)
Definition hull_of_two_squares : geometry :=
  Polygon [xy 0 0; xy 1 0; xy 6 5; xy 6 6; xy 5 6; xy 0 1; xy 0 0] [].

(** [GEOMETRYCOLLECTION EMPTY]. *)
Definition empty_collection : geometry := GeometryCollection [].

(** A thin counter-clockwise triangle whose rounding to 14 decimals is
    clockwise. *)
Definition thin_triangle : geometry :=
  Polygon
    [xy 0 (6 # 1000000000000000); xy 1 0; xy (1 # 2) (4 # 1000000000000000);
     xy 0 (6 # 1000000000000000)] [].

End Inputs.

(** Closes a goal that puts a geometry of the examples in a box. *)
Ltac in_box :=
  unfold geometry_within, coord_within; simpl all_coords;
  repeat (apply Forall_cons || apply Forall_nil);
  repeat split; vm_compute; discriminate.

(** ** Further inputs *)

Module Cases.

Local Open Scope Q_scope.

(** [LINESTRING (0 0, 0 0)]: one position twice, not a valid line. *)
Definition doubled_point_line : geometry := LineString [xy 0 0; xy 0 0].

(** [POINT Z (190 95 5)]: beyond both ranges, with a third ordinate. *)
Definition point_out_of_range : coord := xyz 190 95 5.

(** A clockwise square of side 10 with a counter-clockwise square hole. *)
Definition ring_of_side_10 : list coord :=
  [xy 0 0; xy 0 10; xy 10 10; xy 10 0; xy 0 0].
Definition hole_of_side_2 : list coord :=
  [xy 2 2; xy 4 2; xy 4 4; xy 2 4; xy 2 2].

(** The unit square, clockwise, as the one member of a multi-polygon, and
    nested in two collections beside an empty point. *)
Definition square_in_multipolygon : geometry :=
  MultiPolygon [Polygon [xy 0 0; xy 0 1; xy 1 1; xy 1 0; xy 0 0] []].
Definition square_in_collections : geometry :=
  GeometryCollection
    [GeometryCollection [Polygon [xy 0 0; xy 0 1; xy 1 1; xy 1 0; xy 0 0] []];
     Point None].

(** [LINESTRING (0 0, 1 0, 3 0)]. *)
Definition three_point_line : geometry := LineString [xy 0 0; xy 1 0; xy 3 0].

(** [LINESTRING (0 0, 1 1, 0 1, 0 0)]: a line that ends where it starts. *)
Definition closed_line : geometry := LineString [xy 0 0; xy 1 1; xy 0 1; xy 0 0].

End Cases.
(** * Properties *)

(** ** The vertex list of a geometry *)

Lemma fold_left_bind_Raise :
  forall (A B : Type) (f : A -> result (list B)) (l : list A) (e : exn),
    fold_left (fun output x => output <- output ;; c <- f x ;; Ok (output ++ c))
      l (Raise e) = Raise e.
Proof.
  induction l as [|x l IH]; intros e; simpl; [reflexivity | apply IH].
Qed.

Lemma fold_left_shape_coords :
  forall (f : geometry -> result (list coord)) (gs : list geometry),
    Forall (fun g => f g = if has_shape_coords g then Ok (shape_coords g)
                           else Raise AttributeError) gs ->
    forall acc,
      fold_left (fun output x => output <- output ;; c <- f x ;; Ok (output ++ c))
        gs (Ok acc)
      = if forallb has_shape_coords gs then Ok (acc ++ flat_map shape_coords gs)
        else Raise AttributeError.
Proof.
  induction 1 as [|g gs Hg _ IH]; intros acc; simpl.
  - now rewrite app_nil_r.
  - rewrite Hg. destruct (has_shape_coords g); simpl.
    + rewrite IH, app_assoc. reflexivity.
    + apply fold_left_bind_Raise.
Qed.

(** [_get_shape_coords] raises exactly on a geometry with a lone ring
    in it, and returns [shape_coords] otherwise. *)
Lemma get_shape_coords_spec :
  forall g, _get_shape_coords g
            = if has_shape_coords g then Ok (shape_coords g) else Raise AttributeError.
Proof.
  induction g as [c|cs|cs|e hs|gs IH|gs IH|gs IH|gs IH] using geometry_ind; simpl; try reflexivity;
    apply (fold_left_shape_coords _ gs IH []).
Qed.

Lemma get_shape_coords_len_spec :
  forall g, _get_shape_coords_len g
            = if has_shape_coords g then Ok (length (shape_coords g))
              else Raise AttributeError.
Proof.
  intros g. unfold _get_shape_coords_len. rewrite get_shape_coords_spec.
  now destruct (has_shape_coords g).
Qed.

Lemma nearest_neighbor_spec :
  forall (L : Libs) g,
    _nearest_neighbor g
    = if has_shape_coords g then Ok (closest_point_dist (shape_coords g))
      else Raise AttributeError.
Proof.
  intros L g. unfold _nearest_neighbor, closest_point_dist.
  rewrite get_shape_coords_spec.
  destruct (has_shape_coords g); simpl; [|reflexivity].
  now destruct (length (shape_coords g) <? 2)%nat.
Qed.

(** One call of [_simplify_aoi] with a frame to spare. *)
Lemma simplify_aoi_S :
  forall (L : Libs) stack shape threshold max_depth,
    _simplify_aoi (S stack) shape threshold max_depth
    = (nearest_neighbor_distance <- _nearest_neighbor shape ;;
       match geom_type shape with
       | TPoint => Ok (shape, [])
       | _ =>
           count <- _get_shape_coords_len shape ;;
           if within_limits count nearest_neighbor_distance then Ok (shape, [])
           else if (max_depth =? 0)%Z
                then Raise (ASFWKTError SimplificationBoundExceeded)
           else
             before <- _get_shape_coords_len shape ;;
             after <- _get_shape_coords_len (simplify shape threshold) ;;
             ' (output, repairs) <-
               _simplify_aoi stack (simplify shape threshold) (threshold * 5)
                 (max_depth - 1) ;;
             Ok (output,
                 mkRepairEntry GEOMETRY_SIMPLIFICATION
                   (ShapeSimplified before after threshold) :: repairs)
       end).
Proof. reflexivity. Qed.

(** ** C10: what the simplifier counts on a polygon *)


(** ** What [orient] and [transform] keep *)

Lemma transform_eq :
  forall func geom,
    transform func geom
    = if is_empty geom then geom
      else match geom with
           | Point c => Point (option_map func c)
           | LineString cs => LineString (map func cs)
           | LinearRing cs => LinearRing (map func cs)
           | Polygon e hs => Polygon (map func e) (map (map func) hs)
           | MultiPoint gs => MultiPoint (map (transform func) gs)
           | MultiLineString gs => MultiLineString (map (transform func) gs)
           | MultiPolygon gs => MultiPolygon (map (transform func) gs)
           | GeometryCollection gs => GeometryCollection (map (transform func) gs)
           end.
Proof. intros func geom. destruct geom; reflexivity. Qed.

Lemma forallb_map_members :
  forall (P : geometry -> bool) (op : geometry -> geometry) gs,
    Forall (fun g => P (op g) = P g) gs ->
    forallb P (map op gs) = forallb P gs.
Proof.
  induction 1 as [|g gs Hg _ IH]; simpl; [reflexivity | now rewrite Hg, IH].
Qed.

Lemma length_flat_map_members :
  forall (A : Type) (sc : geometry -> list A) (op : geometry -> geometry) gs,
    Forall (fun g => length (sc (op g)) = length (sc g)) gs ->
    length (flat_map sc (map op gs)) = length (flat_map sc gs).
Proof.
  induction 1 as [|g gs Hg _ IH]; simpl; [reflexivity|].
  now rewrite !length_app, Hg, IH.
Qed.

Lemma length_removelast :
  forall (A : Type) (l : list A), length (removelast l) = (length l - 1)%nat.
Proof.
  intros A l. rewrite removelast_firstn_len, length_firstn. lia.
Qed.

Lemma orient_has_shape_coords :
  forall g sign, has_shape_coords (orient g sign) = has_shape_coords g.
Proof.
  intros g sign.
  induction g as [c|cs|cs|e hs|gs IH|gs IH|gs IH|gs IH] using geometry_ind;
    simpl; try reflexivity;
    apply (forallb_map_members has_shape_coords (fun g => orient g sign)), IH.
Qed.

Lemma orient_shape_coords_length :
  forall g sign, length (shape_coords (orient g sign)) = length (shape_coords g).
Proof.
  intros g sign.
  induction g as [c|cs|cs|e hs|gs IH|gs IH|gs IH|gs IH] using geometry_ind;
    simpl; try reflexivity;
    try (apply (length_flat_map_members _ shape_coords (fun g => orient g sign)), IH).
  destruct (Qle_bool 0 (signed_area e / sign)); [reflexivity|].
  now rewrite !length_removelast, length_rev.
Qed.

Lemma transform_has_shape_coords :
  forall func g, has_shape_coords (transform func g) = has_shape_coords g.
Proof.
  intros func g.
  induction g as [c|cs|cs|e hs|gs IH|gs IH|gs IH|gs IH] using geometry_ind;
    rewrite transform_eq;
    match goal with |- context [is_empty ?x] => destruct (is_empty x) end;
    try reflexivity; simpl;
    apply (forallb_map_members has_shape_coords (transform func)), IH.
Qed.

Lemma transform_shape_coords_length :
  forall func g, length (shape_coords (transform func g)) = length (shape_coords g).
Proof.
  intros func g.
  induction g as [c|cs|cs|e hs|gs IH|gs IH|gs IH|gs IH] using geometry_ind;
    rewrite transform_eq;
    match goal with |- context [is_empty ?x] => destruct (is_empty x) end;
    try reflexivity; simpl;
    try (apply (length_flat_map_members _ shape_coords (transform func)), IH).
  - now destruct c.
  - apply length_map.
  - now rewrite !length_removelast, length_map.
Qed.

Lemma fst_reorientation :
  forall g, fst (_counter_clockwise_reorientation g) = orient g 1.
Proof.
  intros g. unfold _counter_clockwise_reorientation.
  now destruct (is_Polygon g && _).
Qed.

(** ** The adaptive simplifier *)

Lemma first_within_Some :
  forall (L : Libs) n shape threshold k,
    first_within n shape threshold = Some k ->
    (k <= n)%nat
    /\ meets_limits (simplified_after k shape threshold) = true
    /\ (forall j, (j < k)%nat -> meets_limits (simplified_after j shape threshold) = false).
Proof.
  intros L n. induction n as [|n IH]; intros shape threshold k; simpl;
    destruct (meets_limits shape) eqn:Hm.
  - intros [= <-]. repeat split; [lia | assumption | intros j Hj; lia].
  - discriminate.
  - intros [= <-]. repeat split; [lia | assumption | intros j Hj; lia].
  - destruct (first_within n (simplify shape threshold) (threshold * 5)) as [k'|] eqn:Hf;
      simpl; [|discriminate].
    intros [= <-]. destruct (IH _ _ _ Hf) as (Hle & Hk & Hlt).
    repeat split; [lia | exact Hk |].
    intros [|j] Hj; simpl; [exact Hm | apply Hlt; lia].
Qed.

Lemma first_within_None :
  forall (L : Libs) n shape threshold,
    first_within n shape threshold = None <->
    (forall k, (k <= n)%nat -> meets_limits (simplified_after k shape threshold) = false).
Proof.
  intros L n. induction n as [|n IH]; intros shape threshold; simpl;
    destruct (meets_limits shape) eqn:Hm.
  - split; [discriminate|]. intros H. specialize (H O (Nat.le_refl _)). simpl in H. congruence.
  - split; [|reflexivity]. intros _ k Hk. replace k with O by lia. exact Hm.
  - split; [discriminate|]. intros H. specialize (H O (Nat.le_0_l _)). simpl in H. congruence.
  - destruct (first_within n (simplify shape threshold) (threshold * 5)) as [k'|] eqn:Hf; simpl.
    + split; [discriminate|]. intros H.
      assert (Hn : first_within n (simplify shape threshold) (threshold * 5) = None).
      { apply IH. intros k Hk. apply (H (S k)). lia. }
      congruence.
    + split; [|reflexivity]. intros _ [|k] Hk; simpl; [exact Hm|].
      apply (proj1 (IH _ _) Hf). lia.
Qed.

(** A point, with its single vertex, is always within the limits: the
    early return of line 248 agrees with the test of line 250. *)
Lemma point_meets_limits :
  forall (L : Libs) c, meets_limits (Point c) = true.
Proof.
  intros L c. unfold meets_limits, within_limits, closest_point_dist.
  destruct c; reflexivity.
Qed.

(** The simplifier, on a depth [n] that the stack can hold and on
    geometries that have a vertex list: it returns the first of the
    geometries after 0, 1, ..., [n] steps that meets the limits, with one
    report per step taken, and raises when none does. *)
Lemma simplify_aoi_spec :
  forall (L : Libs) n stack shape threshold,
    (n < stack)%nat ->
    (forall k, (k <= n)%nat ->
               has_shape_coords (simplified_after k shape threshold) = true) ->
    _simplify_aoi stack shape threshold (Z.of_nat n)
    = match first_within n shape threshold with
      | Some k => Ok (simplified_after k shape threshold,
                      reports_of_steps k shape threshold)
      | None => Raise (ASFWKTError SimplificationBoundExceeded)
      end.
Proof.
  intros L n. induction n as [|n IH]; intros stack shape threshold Hstack Hsc;
    (destruct stack as [|stack]; [lia|]);
    rewrite simplify_aoi_S, nearest_neighbor_spec, get_shape_coords_len_spec;
    pose proof (Hsc O (Nat.le_0_l _)) as H0; simpl in H0; rewrite H0;
    cbn [bind first_within]; fold (meets_limits shape).
  - destruct (geom_type shape) eqn:Ht;
      try (destruct (meets_limits shape); reflexivity).
    destruct shape; try discriminate. now rewrite point_meets_limits.
  - assert (Hrec :
        (if meets_limits shape then Ok (shape, [])
         else if (Z.of_nat (S n) =? 0)%Z
              then Raise (ASFWKTError SimplificationBoundExceeded)
         else
           after <- _get_shape_coords_len (simplify shape threshold) ;;
           ' (output, repairs) <-
             _simplify_aoi stack (simplify shape threshold) (threshold * 5)
               (Z.of_nat (S n) - 1) ;;
           Ok (output,
               mkRepairEntry GEOMETRY_SIMPLIFICATION
                 (ShapeSimplified (length (shape_coords shape)) after threshold)
               :: repairs))
        = match (if meets_limits shape then Some O
                 else option_map S (first_within n (simplify shape threshold) (threshold * 5)))
          with
          | Some k => Ok (simplified_after k shape threshold,
                          reports_of_steps k shape threshold)
          | None => Raise (ASFWKTError SimplificationBoundExceeded)
          end).
    { destruct (meets_limits shape); [reflexivity|].
      replace (Z.of_nat (S n) =? 0)%Z with false by (symmetry; apply Z.eqb_neq; lia).
      replace (Z.of_nat (S n) - 1)%Z with (Z.of_nat n) by lia.
      rewrite get_shape_coords_len_spec.
      pose proof (Hsc 1%nat ltac:(lia)) as H1. simpl in H1. rewrite H1.
      cbn [bind].
      rewrite IH; [| lia | intros k Hk; apply (Hsc (S k)); lia].
      now destruct (first_within n (simplify shape threshold) (threshold * 5)). }
    destruct (geom_type shape) eqn:Ht; try exact Hrec.
    destruct shape; try discriminate. now rewrite point_meets_limits.
Qed.

(** Whatever the simplifier returns has a vertex list of at most 300. *)
Lemma simplify_aoi_returns_within :
  forall (L : Libs) stack shape threshold max_depth output repairs,
    _simplify_aoi stack shape threshold max_depth = Ok (output, repairs) ->
    has_shape_coords output = true
    /\ (length (shape_coords output) <= 300)%nat
    /\ meets_limits output = true.
Proof.
  intros L stack. induction stack as [|stack IH];
    intros shape threshold max_depth output repairs; [discriminate|].
  rewrite simplify_aoi_S, nearest_neighbor_spec, get_shape_coords_len_spec.
  destruct (has_shape_coords shape) eqn:Hsc; [|discriminate].
  cbn [bind].
  assert (Hgen :
    (if within_limits (length (shape_coords shape))
          (closest_point_dist (shape_coords shape))
     then Ok (shape, [])
     else if (max_depth =? 0)%Z
          then Raise (ASFWKTError SimplificationBoundExceeded)
     else
       after <- _get_shape_coords_len (simplify shape threshold) ;;
       ' (output, repairs) <-
         _simplify_aoi stack (simplify shape threshold) (threshold * 5)
           (max_depth - 1) ;;
       Ok (output,
           mkRepairEntry GEOMETRY_SIMPLIFICATION
             (ShapeSimplified (length (shape_coords shape)) after threshold)
           :: repairs))
    = Ok (output, repairs) ->
    has_shape_coords output = true
    /\ (length (shape_coords output) <= 300)%nat
    /\ meets_limits output = true).
  { destruct (within_limits _ _) eqn:Hw.
    - intros [= <- <-]. split; [exact Hsc|]. split; [|exact Hw].
      unfold within_limits in Hw. apply andb_true_iff in Hw.
      now apply Nat.leb_le.
    - destruct (max_depth =? 0)%Z; [discriminate|].
      destruct (_get_shape_coords_len (simplify shape threshold)); [|discriminate].
      cbn [bind].
      destruct (_simplify_aoi stack (simplify shape threshold) (threshold * 5)
                  (max_depth - 1)) as [[o r]|e] eqn:Hrec; [|discriminate].
      cbn [bind]. intros [= <- _]. exact (IH _ _ _ _ _ Hrec). }
  destruct (geom_type shape) eqn:Ht; try exact Hgen.
  destruct shape as [c| | | | | | |]; try discriminate.
  intros [= <- <-]. split; [reflexivity|]. split; [|apply point_meets_limits].
  destruct c; simpl; lia.
Qed.

(** With a frame for each value of the counter from [max_depth] down
    to zero, the stack is not used up. *)
Lemma simplify_aoi_no_overflow :
  forall (L : Libs) stack shape threshold max_depth,
    (0 <= max_depth)%Z -> (Z.to_nat max_depth < stack)%nat ->
    _simplify_aoi stack shape threshold max_depth <> Raise RecursionError.
Proof.
  intros L stack. induction stack as [|stack IH];
    intros shape threshold max_depth Hd Hs; [lia|].
  rewrite simplify_aoi_S, nearest_neighbor_spec, get_shape_coords_len_spec.
  destruct (has_shape_coords shape); [|discriminate].
  cbn [bind].
  assert (Hgen :
    (if within_limits (length (shape_coords shape))
          (closest_point_dist (shape_coords shape))
     then Ok (shape, [])
     else if (max_depth =? 0)%Z
          then Raise (ASFWKTError SimplificationBoundExceeded)
     else
       after <- _get_shape_coords_len (simplify shape threshold) ;;
       ' (output, repairs) <-
         _simplify_aoi stack (simplify shape threshold) (threshold * 5)
           (max_depth - 1) ;;
       Ok (output,
           mkRepairEntry GEOMETRY_SIMPLIFICATION
             (ShapeSimplified (length (shape_coords shape)) after threshold)
           :: repairs))
    <> Raise RecursionError).
  { destruct (within_limits _ _); [discriminate|].
    destruct (Z.eqb_spec max_depth 0) as [->|Hnz]; [discriminate|].
    rewrite get_shape_coords_len_spec.
    destruct (has_shape_coords (simplify shape threshold)); [|discriminate].
    cbn [bind].
    pose proof (IH (simplify shape threshold) (threshold * 5)%Q (max_depth - 1)%Z
                  ltac:(lia) ltac:(lia)) as Hne.
    destruct (_simplify_aoi stack (simplify shape threshold) (threshold * 5)
                (max_depth - 1)) as [[o r]|e]; [discriminate|].
    cbn [bind]. congruence. }
  destruct (geom_type shape); try exact Hgen; discriminate.
Qed.

(** ... and a deeper stack changes nothing. *)
Lemma simplify_aoi_stack_irrelevant :
  forall (L : Libs) stack shape threshold max_depth,
    (0 <= max_depth)%Z -> (Z.to_nat max_depth < stack)%nat ->
    _simplify_aoi (S stack) shape threshold max_depth
    = _simplify_aoi stack shape threshold max_depth.
Proof.
  intros L stack. induction stack as [|stack IH];
    intros shape threshold max_depth Hd Hs; [lia|].
  rewrite (simplify_aoi_S L (S stack) shape threshold max_depth).
  rewrite (simplify_aoi_S L stack shape threshold max_depth).
  destruct (Z.eqb_spec max_depth 0) as [->|Hnz].
  - destruct (_nearest_neighbor shape); [|reflexivity]. cbn [bind].
    destruct (_get_shape_coords_len shape); [|reflexivity]. cbn [bind].
    destruct (within_limits _ _); reflexivity.
  - rewrite (IH (simplify shape threshold) (threshold * 5)%Q (max_depth - 1)%Z)
      by lia.
    reflexivity.
Qed.

(** The bound-exceeded failure is raised by the call whose counter is
    zero: the counter was not negative, and one frame per value from
    [max_depth] down to zero was there. *)
Lemma simplify_aoi_fails_at_zero :
  forall (L : Libs) stack shape threshold max_depth,
    _simplify_aoi stack shape threshold max_depth
    = Raise (ASFWKTError SimplificationBoundExceeded) ->
    (0 <= max_depth)%Z /\ (Z.to_nat max_depth < stack)%nat.
Proof.
  intros L stack. induction stack as [|stack IH];
    intros shape threshold max_depth; [discriminate|].
  rewrite simplify_aoi_S, nearest_neighbor_spec, get_shape_coords_len_spec.
  destruct (has_shape_coords shape); [|discriminate].
  cbn [bind].
  assert (Hgen :
    (if within_limits (length (shape_coords shape))
          (closest_point_dist (shape_coords shape))
     then Ok (shape, [])
     else if (max_depth =? 0)%Z
          then Raise (ASFWKTError SimplificationBoundExceeded)
     else
       after <- _get_shape_coords_len (simplify shape threshold) ;;
       ' (output, repairs) <-
         _simplify_aoi stack (simplify shape threshold) (threshold * 5)
           (max_depth - 1) ;;
       Ok (output,
           mkRepairEntry GEOMETRY_SIMPLIFICATION
             (ShapeSimplified (length (shape_coords shape)) after threshold)
           :: repairs))
    = Raise (ASFWKTError SimplificationBoundExceeded) ->
    (0 <= max_depth)%Z /\ (Z.to_nat max_depth < S stack)%nat).
  { destruct (within_limits _ _); [discriminate|].
    destruct (Z.eqb_spec max_depth 0) as [->|Hnz]; [intros _; simpl; lia|].
    rewrite get_shape_coords_len_spec.
    destruct (has_shape_coords (simplify shape threshold)); [|discriminate].
    cbn [bind].
    destruct (_simplify_aoi stack (simplify shape threshold) (threshold * 5)
                (max_depth - 1)) as [[o r]|e] eqn:Hrec; [discriminate|].
    cbn [bind]. intros [= ->]. apply IH in Hrec. lia. }
  destruct (geom_type shape); try exact Hgen; discriminate.
Qed.

Lemma simplify_aoi_deeper_stack :
  forall (L : Libs) more stack shape threshold max_depth,
    (0 <= max_depth)%Z -> (Z.to_nat max_depth < stack)%nat ->
    _simplify_aoi (more + stack) shape threshold max_depth
    = _simplify_aoi stack shape threshold max_depth.
Proof.
  intros L more. induction more as [|more IH]; intros stack shape threshold max_depth Hd Hs;
    [reflexivity|].
  change (S more + stack)%nat with (S (more + stack)).
  rewrite simplify_aoi_stack_irrelevant by lia. now apply IH.
Qed.

(** ** C5: when the simplifier fails *)


(** ** C6: the simplifier terminates *)

(** C6.  With a depth counter that is not negative and one stack frame
    for each of its values down to zero, [_simplify_aoi] returns or
    raises an error of its own: the stack is never used up and more stack
    changes nothing.  A call whose counter is not zero and whose geometry
    misses the limits answers with the call on the simplified geometry,
    five times the tolerance and the counter less one; the bound-exceeded
    failure comes only out of a counter that ran down to zero.  The call
    of the pipeline, with counter 10, is within the interpreter's limit. *)
Theorem simplify_aoi_terminates :
  forall (L : Libs) (shape : geometry) (threshold : Q) (max_depth : Z) (stack : nat),
    ((0 <= max_depth)%Z -> (Z.to_nat max_depth < stack)%nat ->
     _simplify_aoi stack shape threshold max_depth <> Raise RecursionError
     /\ forall more,
          _simplify_aoi (more + stack) shape threshold max_depth
          = _simplify_aoi stack shape threshold max_depth)
    /\ (max_depth <> 0%Z ->
        has_shape_coords shape = true ->
        has_shape_coords (simplify shape threshold) = true ->
        meets_limits shape = false ->
        _simplify_aoi (S stack) shape threshold max_depth
        = match _simplify_aoi stack (simplify shape threshold) (threshold * 5)
                  (max_depth - 1) with
          | Ok (output, repairs) =>
              Ok (output,
                  mkRepairEntry GEOMETRY_SIMPLIFICATION
                    (ShapeSimplified (length (shape_coords shape))
                       (length (shape_coords (simplify shape threshold))) threshold)
                  :: repairs)
          | Raise e => Raise e
          end)
    /\ (_simplify_aoi stack shape threshold max_depth
        = Raise (ASFWKTError SimplificationBoundExceeded) ->
        (0 <= max_depth)%Z /\ (Z.to_nat max_depth < stack)%nat)
    /\ _simplify_aoi recursion_limit shape threshold default_max_depth
       <> Raise RecursionError.
Proof.
  intros L shape threshold max_depth stack.
  refine (conj _ (conj _ (conj _ _))).
  - intros Hd Hs. split.
    + now apply simplify_aoi_no_overflow.
    + intros more. now apply simplify_aoi_deeper_stack.
  - intros Hnz Hsc Hsc' Hm.
    rewrite simplify_aoi_S, nearest_neighbor_spec, !get_shape_coords_len_spec.
    rewrite Hsc, Hsc'. cbn [bind].
    unfold meets_limits in Hm. rewrite Hm.
    replace (max_depth =? 0)%Z with false by (symmetry; now apply Z.eqb_neq).
    destruct (geom_type shape) eqn:Ht;
      try (destruct (_simplify_aoi stack (simplify shape threshold) (threshold * 5)
                       (max_depth - 1)) as [[o r]|e]; reflexivity).
    destruct shape; try discriminate.
    fold (meets_limits (Point c)) in Hm. rewrite point_meets_limits in Hm. discriminate.
  - apply simplify_aoi_fails_at_zero.
  - apply simplify_aoi_no_overflow; unfold default_max_depth, recursion_limit; simpl; lia.
Qed.

(** ** Signed area and reversal *)

Section SignedArea.

Local Open Scope Q_scope.

Lemma window_sum_snoc :
  forall pre a b c,
    window_sum (pre ++ [a; b; c]) == window_sum (pre ++ [a; b]) + cx b * (cy c - cy a).
Proof.
  induction pre as [|p pre IH]; intros a b c.
  - simpl. ring.
  - destruct pre as [|q pre].
    + simpl. ring.
    + destruct pre as [|r pre].
      * simpl. ring.
      * change (window_sum ((p :: q :: r :: pre) ++ [a; b; c]))
          with (cx q * (cy r - cy p) + window_sum ((q :: r :: pre) ++ [a; b; c])).
        change (window_sum ((p :: q :: r :: pre) ++ [a; b]))
          with (cx q * (cy r - cy p) + window_sum ((q :: r :: pre) ++ [a; b])).
        rewrite (IH a b c). ring.
Qed.

Lemma window_sum_rev :
  forall l, window_sum (rev l) == - window_sum l.
Proof.
  induction l as [|a l IH]; [reflexivity|].
  destruct l as [|b l]; [reflexivity|].
  destruct l as [|c l]; [reflexivity|].
  change (window_sum (a :: b :: c :: l))
    with (cx b * (cy c - cy a) + window_sum (b :: c :: l)).
  change (rev (a :: b :: c :: l)) with (((rev l ++ [c]) ++ [b]) ++ [a]).
  rewrite <- !app_assoc. simpl app.
  rewrite window_sum_snoc.
  change (rev l ++ [c; b]) with (rev l ++ [c] ++ [b]).
  rewrite app_assoc.
  change ((rev l ++ [c]) ++ [b]) with (rev (b :: c :: l)).
  rewrite IH. ring.
Qed.

Lemma signed_area_two :
  forall a b t, signed_area (a :: b :: t) = window_sum ((a :: b :: t) ++ [b]) / 2.
Proof. reflexivity. Qed.

(** Reversing a closed ring negates its signed area. *)
Lemma signed_area_rev :
  forall ring, ring_closed ring -> signed_area (rev ring) == - signed_area ring.
Proof.
  intros [|a t] Hc; [reflexivity|].
  destruct (exists_last (l := a :: t) ltac:(discriminate)) as (front & z & Hfz).
  assert (Hz : z = a).
  { unfold ring_closed in Hc. rewrite Hfz, last_last in Hc. exact Hc. }
  subst z. destruct front as [|a' mid].
  - injection Hfz as ->. reflexivity.
  - injection Hfz as <- ->. clear Hc.
    destruct mid as [|b m].
    + unfold signed_area. simpl. field.
    + assert (Hrev : rev (a :: (b :: m) ++ [a]) = (a :: rev m) ++ [b; a]).
      { simpl. rewrite rev_app_distr. simpl. now rewrite <- app_assoc. }
      destruct (exists_last (l := b :: m) ltac:(discriminate)) as (m' & z & Hmz).
      assert (Hhead : (a :: rev m) ++ [b; a] = a :: z :: rev m' ++ [a]).
      { assert (H : rev (b :: m) = rev (m' ++ [z])) by now rewrite Hmz.
        rewrite rev_app_distr in H. simpl in H. simpl.
        change (rev m ++ [b; a]) with (rev m ++ [b] ++ [a]).
        now rewrite app_assoc, H. }
      assert (Hall : window_sum (rev ((a :: (b :: m) ++ [a]) ++ [b]))
                     == - window_sum ((a :: (b :: m) ++ [a]) ++ [b]))
        by apply window_sum_rev.
      rewrite rev_app_distr, Hrev in Hall.
      change (rev [b] ++ (a :: rev m) ++ [b; a]) with (b :: ((a :: rev m) ++ [b; a])) in Hall.
      rewrite Hhead in Hall.
      change (window_sum (b :: a :: z :: rev m' ++ [a]))
        with (cx a * (cy z - cy b) + window_sum (a :: z :: rev m' ++ [a])) in Hall.
      rewrite Hrev, Hhead, signed_area_two.
      rewrite <- Hhead, <- app_assoc.
      change ([b; a] ++ [z]) with [b; a; z].
      rewrite window_sum_snoc, Hhead.
      change (signed_area (a :: (b :: m) ++ [a]))
        with (window_sum ((a :: (b :: m) ++ [a]) ++ [b]) / 2).
      setoid_replace (window_sum ((a :: (b :: m) ++ [a]) ++ [b]))
        with (- (cx a * (cy z - cy b) + window_sum (a :: z :: rev m' ++ [a]))).
      * field.
      * rewrite Hall. ring.
Qed.

End SignedArea.

(** ** C7: the winding normalizer *)

Lemma Qle_bool_div_1 :
  forall a x : Q, Qle_bool a (x / 1) = Qle_bool a x.
Proof. intros a x. apply Qleb_comp; [reflexivity | field]. Qed.

Lemma Qle_bool_div_1_l :
  forall a x : Q, Qle_bool (x / 1) a = Qle_bool x a.
Proof. intros a x. apply Qleb_comp; [field | reflexivity]. Qed.

Lemma is_ccw_rev_of_clockwise :
  forall ring, ring_closed ring -> is_ccw ring = false -> is_ccw (rev ring) = true.
Proof.
  intros ring Hc Hcw. unfold is_ccw in *.
  apply Qle_bool_iff. rewrite (signed_area_rev ring Hc).
  destruct (Qle_bool 0 (signed_area ring)) eqn:H; [discriminate|].
  assert (Hlt : ~ (0 <= signed_area ring)%Q) by (intros Hle; apply Qle_bool_iff in Hle; congruence).
  lra.
Qed.


(** ** The stages of a successful run *)

(** What the local variables of [_simplify_geometry] are when it returns. *)
Lemma simplify_geometry_stages_inv :
  forall (L : Libs) geom s,
    _simplify_geometry_stages geom = Ok s ->
    exists merge_report simplified_report,
      flattened s = snd (_flatten_multipart_geometry geom)
      /\ clamped s = fst (_get_clamped_geometry (flattened s))
      /\ _merge_overlapping_geometry (clamped s) = Pair (merged s) merge_report
      /\ convex s = fst (_get_convex_hull (merged s))
      /\ _simplify_aoi recursion_limit (convex s) default_threshold default_max_depth
         = Ok (simplified s, simplified_report)
      /\ reoriented s = fst (_counter_clockwise_reorientation (simplified s))
      /\ validated s = transform round_coord (reoriented s)
      /\ warnings s
         = fst (_flatten_multipart_geometry geom)
           ++ warn_reports
                ([merge_report; snd (_get_convex_hull (merged s))]
                   ++ snd (_get_clamped_geometry (flattened s))
                   ++ map Some simplified_report
                   ++ [snd (_counter_clockwise_reorientation (simplified s))]).
Proof.
  intros L geom s. unfold _simplify_geometry_stages.
  destruct (_flatten_multipart_geometry geom) as [hd fl] eqn:Hfl.
  destruct (_get_clamped_geometry fl) as [cl cr] eqn:Hcl.
  destruct (_merge_overlapping_geometry cl) as [b|mg mr] eqn:Hmg; [discriminate|].
  cbn [unpack_pair bind].
  destruct (_get_convex_hull mg) as [cv cvr] eqn:Hcv.
  destruct (_simplify_aoi recursion_limit cv default_threshold default_max_depth)
    as [[sm sr]|e] eqn:Hsm; [|discriminate].
  cbn [bind].
  destruct (_counter_clockwise_reorientation sm) as [ro ror] eqn:Hro.
  intros [= <-]. cbn [flattened clamped merged convex simplified reoriented validated warnings].
  exists mr, sr. rewrite Hcl, Hmg, Hcv, Hsm, Hro. simpl fst. simpl snd.
  repeat split; reflexivity.
Qed.

(** A successful [validate_wkt] ran the stages on a valid geometry:
    the input, or what the repair made of it. *)
Lemma validate_wkt_inv :
  forall (L : Libs) aoi ws out,
    validate_wkt aoi = Ok (ws, out) ->
    exists shape s,
      ((is_valid aoi = true /\ shape = aoi)
       \/ (is_valid aoi = false /\ _search_wkt_prep aoi = Ok shape))
      /\ is_valid shape = true
      /\ _simplify_geometry_stages shape = Ok s
      /\ ws = warnings s
      /\ out = validated s.
Proof.
  intros L aoi ws out. unfold validate_wkt, _simplify_geometry.
  destruct (is_valid aoi) eqn:Hv; simpl.
  - destruct (_simplify_geometry_stages aoi) as [s|e] eqn:Hs; [|discriminate].
    simpl. intros [= <- <-]. exists aoi, s. repeat split; auto.
  - destruct (_search_wkt_prep aoi) as [shape|e] eqn:Hp; [|discriminate]. simpl.
    destruct (is_valid shape) eqn:Hv'; simpl; [|discriminate].
    destruct (_simplify_geometry_stages shape) as [s|e] eqn:Hs; [|discriminate].
    simpl. intros [= <- <-]. exists shape, s. repeat split; auto.
Qed.

(** ** C2: the vertex bound *)


(** ** Coordinates through the stages *)

Lemma is_empty_true :
  forall g, is_empty g = true -> all_coords g = [].
Proof. intros g. unfold is_empty. now destruct (all_coords g). Qed.

Lemma flat_map_all_coords_members :
  forall (func : coord -> coord) (op : geometry -> geometry) gs,
    Forall (fun g => all_coords (op g) = map func (all_coords g)) gs ->
    flat_map all_coords (map op gs) = map func (flat_map all_coords gs).
Proof.
  induction 1 as [|g gs Hg _ IH]; simpl; [reflexivity|].
  now rewrite map_app, Hg, IH.
Qed.

(** [transform] applies its function to every coordinate. *)
Lemma all_coords_transform :
  forall func g, all_coords (transform func g) = map func (all_coords g).
Proof.
  intros func g.
  induction g as [c|cs|cs|e hs|gs IH|gs IH|gs IH|gs IH] using geometry_ind;
    rewrite transform_eq;
    match goal with |- context [is_empty ?x] => destruct (is_empty x) eqn:He end;
    try (rewrite (is_empty_true _ He); reflexivity);
    try reflexivity;
    try (apply (flat_map_all_coords_members func (transform func)), IH).
  - now destruct c.
  - simpl. now rewrite map_app, concat_map.
Qed.

Lemma in_flat_map_members :
  forall (op : geometry -> geometry) gs c,
    Forall (fun g => In c (all_coords (op g)) <-> In c (all_coords g)) gs ->
    (In c (flat_map all_coords (map op gs)) <-> In c (flat_map all_coords gs)).
Proof.
  induction 1 as [|g gs Hg _ IH]; simpl; [reflexivity|].
  rewrite !in_app_iff, Hg, IH. reflexivity.
Qed.

(** [orient] keeps the coordinates, in another order at most. *)
Lemma in_all_coords_orient :
  forall g sign c, In c (all_coords (orient g sign)) <-> In c (all_coords g).
Proof.
  intros g sign c.
  induction g as [p|cs|cs|e hs|gs IH|gs IH|gs IH|gs IH] using geometry_ind;
    try reflexivity;
    try (apply (in_flat_map_members (fun g => orient g sign)), IH).
  simpl. rewrite !in_app_iff.
  assert (He : In c (if Qle_bool 0 (signed_area e / sign) then e else rev e) <-> In c e).
  { destruct (Qle_bool 0 (signed_area e / sign)); [reflexivity | symmetry; apply in_rev]. }
  rewrite He. apply or_iff_compat_l.
  induction hs as [|h hs IHhs]; simpl; [reflexivity|].
  rewrite !in_app_iff, IHhs.
  destruct (Qle_bool (signed_area h / sign) 0); [reflexivity|].
  rewrite <- in_rev. reflexivity.
Qed.

Lemma geometry_within_orient :
  forall a b c d g sign,
    geometry_within a b c d g -> geometry_within a b c d (orient g sign).
Proof.
  intros a b c d g sign H. unfold geometry_within in *.
  rewrite Forall_forall in *. intros x Hx. apply H.
  now apply in_all_coords_orient in Hx.
Qed.

Lemma geometry_within_transform :
  forall (func : coord -> coord) a b c d a' b' c' d' g,
    (forall x, coord_within a b c d x -> coord_within a' b' c' d' (func x)) ->
    geometry_within a b c d g ->
    geometry_within a' b' c' d' (transform func g).
Proof.
  intros func a b c d a' b' c' d' g Hf H. unfold geometry_within in *.
  rewrite all_coords_transform. rewrite Forall_forall in *.
  intros x Hx. apply in_map_iff in Hx. destruct Hx as (y & <- & Hy). auto.
Qed.

Lemma Forall_all_coords_transform :
  forall (P Q : coord -> Prop) (func : coord -> coord) g,
    (forall x, P x -> Q (func x)) ->
    Forall P (all_coords g) ->
    Forall Q (all_coords (transform func g)).
Proof.
  intros P Q func g Hf H. rewrite all_coords_transform. rewrite Forall_forall in *.
  intros x Hx. apply in_map_iff in Hx. destruct Hx as (y & <- & Hy). auto.
Qed.

Lemma all_coords_geoms_of :
  forall g gs, geoms_of g = Some gs -> all_coords g = flat_map all_coords gs.
Proof.
  intros g gs H. destruct g; try discriminate; injection H as <-; reflexivity.
Qed.

(** ** The arithmetic of the coordinate functions *)

Section Arithmetic.

Local Open Scope Q_scope.

Lemma Qle_bool_false :
  forall a b : Q, Qle_bool a b = false -> b < a.
Proof.
  intros a b H. apply Qnot_le_lt. intros Hle.
  apply Qle_bool_iff in Hle. congruence.
Qed.

Lemma Qltb_true : forall a b : Q, Qltb a b = true -> a < b.
Proof.
  intros a b H. unfold Qltb in H. apply negb_true_iff in H.
  now apply Qle_bool_false.
Qed.

Lemma Qltb_false : forall a b : Q, Qltb a b = false -> b <= a.
Proof.
  intros a b H. unfold Qltb in H. apply negb_false_iff in H.
  now apply Qle_bool_iff.
Qed.

(** [x % 360] lies in [0, 360). *)
Lemma py_mod_360_range :
  forall x, 0 <= py_mod x 360 /\ py_mod x 360 < 360.
Proof.
  intros x. unfold py_mod.
  pose proof (Qfloor_le (x / 360)) as Hlo.
  pose proof (Qlt_floor (x / 360)) as Hhi.
  rewrite inject_Z_plus in Hhi.
  assert (Hx : x == 360 * (x / 360)) by field.
  set (f := inject_Z (Qfloor (x / 360))) in *.
  set (q := x / 360) in *.
  change (inject_Z 1) with 1 in Hhi.
  clearbody f. clearbody q.
  split; lra.
Qed.

Lemma wrap_lon_range :
  forall c, -180 <= cx (_wrap_lon c) /\ cx (_wrap_lon c) <= 180.
Proof.
  intros c. unfold _wrap_lon. simpl.
  destruct (Qltb 180 (Qabs (cx c))) eqn:H.
  - destruct (py_mod_360_range (cx c + 180)). split; lra.
  - apply Qltb_false in H. apply Qabs_Qle_condition in H. exact H.
Qed.

Lemma wrap_lon_lat : forall c, cy (_wrap_lon c) = cy c.
Proof. reflexivity. Qed.

Lemma unwrap_lon_range :
  forall c, -180 <= cx c -> cx c <= 180 ->
            0 <= cx (_unwrap_lon c) /\ cx (_unwrap_lon c) <= 360.
Proof.
  intros c Hlo Hhi. unfold _unwrap_lon. simpl.
  destruct (Qle_bool 0 (cx c)) eqn:H.
  - apply Qle_bool_iff in H. split; lra.
  - apply Qle_bool_false in H. split; lra.
Qed.

Lemma clamp_range : forall num, -90 <= _clamp num /\ _clamp num <= 90.
Proof.
  intros num. unfold _clamp, py_max, py_min.
  destruct (Qltb num 90) eqn:H1.
  - apply Qltb_true in H1.
    destruct (Qltb (-90) num) eqn:H2.
    + apply Qltb_true in H2. split; lra.
    + split; lra.
  - destruct (Qltb (-90) 90) eqn:H2; split; lra.
Qed.

(** A latitude within the range is returned as it is. *)
Lemma clamp_id : forall num, -90 <= num -> num <= 90 -> _clamp num == num.
Proof.
  intros num Hlo Hhi. unfold _clamp, py_max, py_min.
  destruct (Qltb num 90) eqn:H1.
  - destruct (Qltb (-90) num) eqn:H2; [reflexivity|].
    apply Qltb_false in H2. lra.
  - apply Qltb_false in H1. simpl. lra.
Qed.

Lemma round_half_even_bounds :
  forall q, (Qfloor q <= round_half_even q <= Qfloor q + 1)%Z.
Proof.
  intros q. unfold round_half_even.
  destruct (Qltb (q - inject_Z (Qfloor q)) (1 # 2)); [lia|].
  destruct (Qltb (1 # 2) (q - inject_Z (Qfloor q))); [lia|].
  destruct (Z.even (Qfloor q)); lia.
Qed.

(** Rounding an integer leaves it alone. *)
Lemma round_half_even_Z : forall z, round_half_even (inject_Z z) = z.
Proof.
  intros z. unfold round_half_even. rewrite Qfloor_Z.
  assert (H : Qltb (inject_Z z - inject_Z z) (1 # 2) = true).
  { unfold Qltb. apply negb_true_iff.
    destruct (Qle_bool (1 # 2) (inject_Z z - inject_Z z)) eqn:E; [|reflexivity].
    apply Qle_bool_iff in E. lra. }
  now rewrite H.
Qed.

(** Rounding is between the integers around its argument. *)
Lemma round_half_even_between :
  forall (lo hi : Z) q,
    inject_Z lo <= q -> q <= inject_Z hi ->
    (lo <= round_half_even q <= hi)%Z.
Proof.
  intros lo hi q Hlo Hhi.
  pose proof (Qfloor_resp_le _ _ Hlo) as Hf. rewrite Qfloor_Z in Hf.
  pose proof (Qfloor_resp_le _ _ Hhi) as Hc. rewrite Qfloor_Z in Hc.
  unfold round_half_even.
  destruct (Qltb (q - inject_Z (Qfloor q)) (1 # 2)) eqn:H1; [lia|].
  assert (Hfrac : 0 < q - inject_Z (Qfloor q)).
  { apply Qltb_false in H1. lra. }
  assert (Hlt : (Qfloor q < hi)%Z).
  { destruct (Z.eq_dec (Qfloor q) hi) as [E|E]; [|lia].
    rewrite E in Hfrac. lra. }
  destruct (Qltb (1 # 2) (q - inject_Z (Qfloor q))); [lia|].
  destruct (Z.even (Qfloor q)); lia.
Qed.

Lemma round14_between :
  forall (lo hi : Z) x,
    inject_Z lo <= x -> x <= inject_Z hi ->
    inject_Z lo <= round14 x /\ round14 x <= inject_Z hi.
Proof.
  intros lo hi x Hlo Hhi. unfold round14.
  set (p := inject_Z (Z.pos pow10_14)).
  assert (Hp : 0 < p) by reflexivity.
  assert (H1 : inject_Z (lo * Z.pos pow10_14) <= x * p).
  { rewrite inject_Z_mult. fold p. nra. }
  assert (H2 : x * p <= inject_Z (hi * Z.pos pow10_14)).
  { rewrite inject_Z_mult. fold p. nra. }
  destruct (round_half_even_between _ _ _ H1 H2) as [Ha Hb].
  rewrite !Qred_correct.
  set (n := round_half_even (x * p)) in *.
  unfold Qle, inject_Z. simpl. split; lia.
Qed.

End Arithmetic.

(** ** C1: the coordinate bound *)

Section CoordinateBound.

Local Open Scope Q_scope.

(** The normalizer leaves every latitude in [-90, 90] and every longitude
    in [-180, 180], or in [0, 360] when it unwrapped. *)
Lemma clamped_geometry_within :
  forall shape,
    (spans_more_than_180 (transform _wrap_lon shape) = false
     /\ geometry_within (-180) 180 (-90) 90 (fst (_get_clamped_geometry shape)))
    \/ (spans_more_than_180 (transform _wrap_lon shape) = true
        /\ geometry_within 0 360 (-90) 90 (fst (_get_clamped_geometry shape))).
Proof.
  intros shape. unfold _get_clamped_geometry, geometry_within. simpl fst.
  assert (Hw : Forall (fun c => -180 <= cx c /\ cx c <= 180)
                 (all_coords (transform _wrap_lon shape))).
  { apply Forall_all_coords_transform with (P := fun _ => True).
    - intros x _. apply wrap_lon_range.
    - apply Forall_forall. trivial. }
  destruct (spans_more_than_180 (transform _wrap_lon shape)); [right | left];
    (split; [reflexivity|]).
  - apply Forall_all_coords_transform
      with (P := fun c => 0 <= cx c /\ cx c <= 360).
    + intros x [Hlo Hhi]. unfold coord_within, _clamp_lat. simpl.
      destruct (clamp_range (cy x)). tauto.
    + apply Forall_all_coords_transform
        with (P := fun c => -180 <= cx c /\ cx c <= 180); [|exact Hw].
      intros x [Hlo Hhi]. now apply unwrap_lon_range.
  - apply Forall_all_coords_transform
      with (P := fun c => -180 <= cx c /\ cx c <= 180); [|exact Hw].
    intros x [Hlo Hhi]. unfold coord_within, _clamp_lat. simpl.
    destruct (clamp_range (cy x)). tauto.
Qed.

Variable L : Libs.
Hypothesis laws : BoxLaws L.

Lemma merge_overlapping_within :
  forall a b c d geom merged merge_report,
    _merge_overlapping_geometry geom = Pair merged merge_report ->
    geometry_within a b c d geom -> geometry_within a b c d merged.
Proof.
  intros a b c d geom merged merge_report. unfold _merge_overlapping_geometry.
  destruct (geoms_of geom) as [geoms|]; [|now intros [= <- _]].
  destruct (length geoms =? 1)%nat; [discriminate|].
  destruct (geoms_of (unary_union geom)) as [merged_geoms|] eqn:Hmg.
  - intros [= <- _] Hg. apply geometry_within_orient.
    apply (unary_union_within laws).
    pose proof (unary_union_within laws _ _ _ _ _ Hg) as Hu.
    unfold geometry_within in *. rewrite (all_coords_geoms_of _ _ Hmg) in Hu.
    simpl. clear Hmg. induction merged_geoms as [|m ms IH]; simpl; [constructor|].
    simpl in Hu. apply Forall_app in Hu. destruct Hu as [Hm Hms].
    apply Forall_app. split; [|now apply IH].
    now apply (convex_hull_within laws).
  - intros [= <- _] Hg. now apply (unary_union_within laws).
Qed.

Lemma get_convex_hull_within :
  forall a b c d geom,
    geometry_within a b c d geom ->
    geometry_within a b c d (fst (_get_convex_hull geom)).
Proof.
  intros a b c d geom H. unfold _get_convex_hull.
  destruct (geom_type geom); simpl; try exact H; now apply (convex_hull_within laws).
Qed.

Lemma simplify_aoi_within :
  forall a b c d stack shape threshold max_depth output repairs,
    _simplify_aoi stack shape threshold max_depth = Ok (output, repairs) ->
    geometry_within a b c d shape -> geometry_within a b c d output.
Proof.
  intros a b c d stack. induction stack as [|stack IH];
    intros shape threshold max_depth output repairs; [discriminate|].
  rewrite simplify_aoi_S.
  destruct (_nearest_neighbor shape) as [nn|e]; [|discriminate]. cbn [bind].
  assert (Hgen :
    (count <- _get_shape_coords_len shape ;;
     if within_limits count nn then Ok (shape, [])
     else if (max_depth =? 0)%Z
          then Raise (ASFWKTError SimplificationBoundExceeded)
     else
       before <- _get_shape_coords_len shape ;;
       after <- _get_shape_coords_len (simplify shape threshold) ;;
       ' (output, repairs) <-
         _simplify_aoi stack (simplify shape threshold) (threshold * 5)
           (max_depth - 1) ;;
       Ok (output,
           mkRepairEntry GEOMETRY_SIMPLIFICATION
             (ShapeSimplified before after threshold) :: repairs))
    = Ok (output, repairs) ->
    geometry_within a b c d shape -> geometry_within a b c d output).
  { destruct (_get_shape_coords_len shape) as [count|e]; [|discriminate]. cbn [bind].
    destruct (within_limits count nn); [now intros [= <- _]|].
    destruct (max_depth =? 0)%Z; [discriminate|].
    destruct (_get_shape_coords_len (simplify shape threshold)); [|discriminate].
    cbn [bind].
    destruct (_simplify_aoi stack (simplify shape threshold) (threshold * 5)
                (max_depth - 1)) as [[o r]|e] eqn:Hrec; [|discriminate].
    cbn [bind]. intros [= <- _] Hs.
    apply (IH _ _ _ _ _ Hrec). now apply (simplify_within laws). }
  destruct (geom_type shape); try exact Hgen. now intros [= <- _].
Qed.

Lemma round_coord_within :
  forall (a b c d : Z) x,
    coord_within (inject_Z a) (inject_Z b) (inject_Z c) (inject_Z d) x ->
    coord_within (inject_Z a) (inject_Z b) (inject_Z c) (inject_Z d) (round_coord x).
Proof.
  intros a b c d x (H1 & H2 & H3 & H4). unfold coord_within, round_coord. simpl.
  destruct (round14_between a b (cx x) H1 H2).
  destruct (round14_between c d (cy x) H3 H4). tauto.
Qed.

(** From the normalizer on, a run stays in the box the normalizer put
    the geometry in, if that box has whole-degree sides. *)
Lemma stages_within :
  forall (a b c d : Z) geom s,
    _simplify_geometry_stages geom = Ok s ->
    geometry_within (inject_Z a) (inject_Z b) (inject_Z c) (inject_Z d) (clamped s) ->
    geometry_within (inject_Z a) (inject_Z b) (inject_Z c) (inject_Z d) (validated s).
Proof.
  intros a b c d geom s Hs Hcl.
  destruct (simplify_geometry_stages_inv L geom s Hs)
    as (mr & sr & _ & _ & Hmg & Hcv & Hsm & Hro & Hva & _).
  rewrite Hva, Hro, fst_reorientation.
  apply geometry_within_transform
    with (a := inject_Z a) (b := inject_Z b) (c := inject_Z c) (d := inject_Z d);
    [apply round_coord_within|].
  apply geometry_within_orient.
  apply (simplify_aoi_within _ _ _ _ _ _ _ _ _ _ Hsm).
  rewrite Hcv. apply get_convex_hull_within.
  now apply (merge_overlapping_within _ _ _ _ _ _ _ Hmg).
Qed.

End CoordinateBound.


(** ** C8: the third ordinate *)

Lemma existsb_same_elements :
  forall (A : Type) (f : A -> bool) (l l' : list A),
    (forall x, In x l <-> In x l') -> existsb f l = existsb f l'.
Proof.
  intros A f l l' H. apply eq_true_iff_eq. rewrite !existsb_exists.
  split; intros (x & Hx & Hf); exists x; split; auto; now apply H.
Qed.

Lemma has_z_orient : forall g sign, has_z (orient g sign) = has_z g.
Proof.
  intros g sign. apply existsb_same_elements. intros c. apply in_all_coords_orient.
Qed.

(** A coordinate function that returns pairs leaves no third ordinate. *)
Lemma has_z_transform_pairs :
  forall func g, (forall c, cz (func c) = None) -> has_z (transform func g) = false.
Proof.
  intros func g Hf. unfold has_z. rewrite all_coords_transform.
  induction (all_coords g) as [|c l IH]; simpl; [reflexivity|].
  unfold coord_has_z at 1. now rewrite Hf.
Qed.

(** The flattener keeps every coordinate, third ordinates included. *)
Lemma recurse_nested_geometry_coords :
  forall g, flat_map all_coords (_recurse_nested_geometry g) = all_coords g.
Proof.
  assert (Hleaf : forall g, flat_map all_coords (if negb (is_empty g) then [g] else [])
                            = all_coords g).
  { intros g. destruct (is_empty g) eqn:He; simpl.
    - now rewrite (is_empty_true _ He).
    - apply app_nil_r. }
  assert (Hmembers : forall gs,
             Forall (fun g => flat_map all_coords (_recurse_nested_geometry g)
                              = all_coords g) gs ->
             flat_map all_coords (flat_map _recurse_nested_geometry gs)
             = flat_map all_coords gs).
  { induction 1 as [|g gs Hg _ IH]; simpl; [reflexivity|].
    now rewrite flat_map_app, Hg, IH. }
  induction g as [c|cs|cs|e hs|gs IH|gs IH|gs IH|gs IH] using geometry_ind;
    try apply Hleaf; now apply Hmembers.
Qed.

Lemma flatten_multipart_geometry_coords :
  forall g, all_coords (snd (_flatten_multipart_geometry g)) = all_coords g.
Proof.
  intros g. unfold _flatten_multipart_geometry. simpl snd.
  pose proof (recurse_nested_geometry_coords g) as H.
  destruct (_recurse_nested_geometry g) as [|x [|y r]]; simpl in *;
    try exact H. now rewrite app_nil_r in H.
Qed.

Lemma search_wkt_prep_coords :
  forall shape prepared c,
    _search_wkt_prep shape = Ok prepared ->
    (In c (all_coords prepared) <-> In c (all_coords shape)).
Proof.
  intros shape prepared c. unfold _search_wkt_prep.
  destruct (is_Point_or_LineString shape); [now intros [= <-]|].
  destruct (is_multipart shape) eqn:Hm.
  - destruct (geoms_of shape) as [geoms|] eqn:Hg; [|discriminate].
    intros [= <-].
    assert (Hmember : forall g,
               In c (all_coords (if is_Polygon g then orient g 1 else g))
               <-> In c (all_coords g)).
    { intros g. destruct (is_Polygon g); [apply in_all_coords_orient | reflexivity]. }
    rewrite (all_coords_geoms_of _ _ Hg).
    assert (Hclass : forall parts,
               all_coords (same_class shape parts) = flat_map all_coords parts).
    { intros parts. destruct shape; try discriminate; reflexivity. }
    rewrite Hclass. clear Hclass Hg.
    induction geoms as [|g gs IH]; simpl; [reflexivity|].
    now rewrite !in_app_iff, Hmember, IH.
  - destruct (is_Polygon shape); [|discriminate].
    intros [= <-]. apply in_all_coords_orient.
Qed.

Lemma warn_reports_are_repairs :
  forall reports, Forall is_repair (warn_reports reports).
Proof.
  induction reports as [|[e|] reports IH]; simpl; [constructor | | exact IH].
  constructor; [exact I | exact IH].
Qed.

Section Flat.

Variable L : Libs.
Hypothesis laws : FlatLaws L.

Lemma merge_overlapping_flat :
  forall geom merged merge_report,
    _merge_overlapping_geometry geom = Pair merged merge_report ->
    has_z geom = false -> has_z merged = false.
Proof.
  intros geom merged merge_report. unfold _merge_overlapping_geometry.
  destruct (geoms_of geom) as [geoms|]; [|now intros [= <- _]].
  destruct (length geoms =? 1)%nat; [discriminate|].
  destruct (geoms_of (unary_union geom)) as [merged_geoms|] eqn:Hmg.
  - intros [= <- _] Hg. rewrite has_z_orient. apply (unary_union_flat laws).
    pose proof (unary_union_flat laws _ Hg) as Hu.
    unfold has_z in *. rewrite (all_coords_geoms_of _ _ Hmg) in Hu.
    simpl. clear Hmg. induction merged_geoms as [|m ms IH]; simpl; [reflexivity|].
    simpl in Hu. rewrite existsb_app in *. apply orb_false_iff in Hu.
    destruct Hu as [Hm Hms]. apply orb_false_iff. split; [|now apply IH].
    now apply (convex_hull_flat laws).
  - intros [= <- _] Hg. now apply (unary_union_flat laws).
Qed.

Lemma get_convex_hull_flat :
  forall geom, has_z geom = false -> has_z (fst (_get_convex_hull geom)) = false.
Proof.
  intros geom H. unfold _get_convex_hull.
  destruct (geom_type geom); simpl; try exact H; now apply (convex_hull_flat laws).
Qed.

Lemma simplify_aoi_flat :
  forall stack shape threshold max_depth output repairs,
    _simplify_aoi stack shape threshold max_depth = Ok (output, repairs) ->
    has_z shape = false -> has_z output = false.
Proof.
  intros stack. induction stack as [|stack IH];
    intros shape threshold max_depth output repairs; [discriminate|].
  rewrite simplify_aoi_S.
  destruct (_nearest_neighbor shape) as [nn|e]; [|discriminate]. cbn [bind].
  assert (Hgen :
    (count <- _get_shape_coords_len shape ;;
     if within_limits count nn then Ok (shape, [])
     else if (max_depth =? 0)%Z
          then Raise (ASFWKTError SimplificationBoundExceeded)
     else
       before <- _get_shape_coords_len shape ;;
       after <- _get_shape_coords_len (simplify shape threshold) ;;
       ' (output, repairs) <-
         _simplify_aoi stack (simplify shape threshold) (threshold * 5)
           (max_depth - 1) ;;
       Ok (output,
           mkRepairEntry GEOMETRY_SIMPLIFICATION
             (ShapeSimplified before after threshold) :: repairs))
    = Ok (output, repairs) ->
    has_z shape = false -> has_z output = false).
  { destruct (_get_shape_coords_len shape) as [count|e]; [|discriminate]. cbn [bind].
    destruct (within_limits count nn); [now intros [= <- _]|].
    destruct (max_depth =? 0)%Z; [discriminate|].
    destruct (_get_shape_coords_len (simplify shape threshold)); [|discriminate].
    cbn [bind].
    destruct (_simplify_aoi stack (simplify shape threshold) (threshold * 5)
                (max_depth - 1)) as [[o r]|e] eqn:Hrec; [|discriminate].
    cbn [bind]. intros [= <- _] Hs.
    apply (IH _ _ _ _ _ Hrec). now apply (simplify_flat laws). }
  destruct (geom_type shape); try exact Hgen. now intros [= <- _].
Qed.

End Flat.

(** C8, as the code has it.  The flattener warns once, before its
    descent, exactly when the input carries a third ordinate, and passes
    the ordinate on; it is the coordinate normalizer, the next stage, whose
    result has none.  The geometry [validate_wkt] returns has none, and
    its warnings are the flattener's one (or none) followed by repair
    reports only.  When union, hull and simplification keep a geometry
    two-dimensional, so is the result of every stage from the normalizer
    on. *)
Theorem higher_dimension_dropped_by_normalizer :
  forall (L : Libs) (aoi : geometry),
    fst (_flatten_multipart_geometry aoi)
    = (if has_z aoi then [HIGHER_DIMENSION_DROPPED] else [])
    /\ has_z (snd (_flatten_multipart_geometry aoi)) = has_z aoi
    /\ has_z (fst (_get_clamped_geometry (snd (_flatten_multipart_geometry aoi))))
       = false
    /\ (forall ws out,
           validate_wkt aoi = Ok (ws, out) ->
           has_z out = false
           /\ exists rest,
               ws = (if has_z aoi then [HIGHER_DIMENSION_DROPPED] else []) ++ rest
               /\ Forall is_repair rest)
    /\ (FlatLaws L ->
        forall s,
          _simplify_geometry_stages aoi = Ok s ->
          has_z (clamped s) = false
          /\ has_z (merged s) = false
          /\ has_z (convex s) = false
          /\ has_z (simplified s) = false
          /\ has_z (reoriented s) = false
          /\ has_z (validated s) = false).
Proof.
  intros L aoi.
  assert (Hclamped : forall g, has_z (fst (_get_clamped_geometry g)) = false).
  { intros g. unfold _get_clamped_geometry. simpl fst.
    now apply has_z_transform_pairs. }
  refine (conj _ (conj _ (conj _ (conj _ _)))).
  - reflexivity.
  - unfold has_z. now rewrite flatten_multipart_geometry_coords.
  - apply Hclamped.
  - intros ws out H.
    destruct (validate_wkt_inv L aoi ws out H) as (shape & s & Hshape & _ & Hs & -> & ->).
    destruct (simplify_geometry_stages_inv L shape s Hs)
      as (mr & sr & _ & _ & _ & _ & _ & _ & Hva & Hws).
    split.
    + rewrite Hva. now apply has_z_transform_pairs.
    + assert (Hz : has_z shape = has_z aoi).
      { destruct Hshape as [[_ ->]|[_ Hp]]; [reflexivity|].
        apply existsb_same_elements. intros c.
        now apply search_wkt_prep_coords. }
      rewrite Hws. unfold _flatten_multipart_geometry at 1. simpl fst.
      rewrite Hz. eexists. split; [reflexivity|].
      apply warn_reports_are_repairs.
  - intros laws s Hs.
    destruct (simplify_geometry_stages_inv L aoi s Hs)
      as (mr & sr & _ & Hcl & Hmg & Hcv & Hsm & Hro & Hva & _).
    assert (H1 : has_z (clamped s) = false) by (rewrite Hcl; apply Hclamped).
    assert (H2 : has_z (merged s) = false)
      by exact (merge_overlapping_flat L laws _ _ _ Hmg H1).
    assert (H3 : has_z (convex s) = false)
      by (rewrite Hcv; now apply get_convex_hull_flat).
    assert (H4 : has_z (simplified s) = false)
      by exact (simplify_aoi_flat L laws _ _ _ _ _ _ Hsm H3).
    assert (H5 : has_z (reoriented s) = false)
      by (rewrite Hro, fst_reorientation, has_z_orient; exact H4).
    repeat split; try assumption.
    rewrite Hva. now apply has_z_transform_pairs.
Qed.

(** ** C3: running the pipeline on its own result *)

Section Idempotence.

Local Open Scope Q_scope.

Lemma round_half_even_comp :
  forall p q, p == q -> round_half_even p = round_half_even q.
Proof.
  intros p q H. unfold round_half_even.
  rewrite (Qfloor_comp _ _ H).
  assert (Hr : p - inject_Z (Qfloor q) == q - inject_Z (Qfloor q)) by (rewrite H; reflexivity).
  unfold Qltb. rewrite (Qleb_comp _ _ (Qeq_refl (1 # 2)) _ _ Hr).
  rewrite (Qleb_comp _ _ Hr _ _ (Qeq_refl (1 # 2))). reflexivity.
Qed.

Lemma round14_idempotent : forall x, round14 (round14 x) = round14 x.
Proof.
  intros x. unfold round14 at 1 3.
  set (n := round_half_even (x * inject_Z (Z.pos pow10_14))).
  apply Qred_complete.
  assert (H : round14 x * inject_Z (Z.pos pow10_14) == inject_Z n).
  { unfold round14. fold n. rewrite Qred_correct. clearbody n.
    unfold Qeq, Qmult, inject_Z. cbn [Qnum Qden].
    rewrite Pos.mul_1_r. ring. }
  rewrite (round_half_even_comp _ _ H), round_half_even_Z. reflexivity.
Qed.

Lemma round_coord_canonical : forall c, canonical (round_coord c).
Proof.
  intros c. unfold canonical, round_coord, round14. cbn [cx cy cz xy].
  repeat split; apply Qred_complete, Qred_correct.
Qed.

Lemma round_coord_of_canonical :
  forall c, (exists c', c = round_coord c') -> round_coord c = c.
Proof.
  intros c (c' & ->). unfold round_coord. simpl. now rewrite !round14_idempotent.
Qed.

(** A function that fixes every coordinate of a geometry fixes the
    geometry. *)
Lemma transform_fixes :
  forall func g,
    Forall (fun c => func c = c) (all_coords g) -> transform func g = g.
Proof.
  intros func g.
  induction g as [c|cs|cs|e hs|gs IH|gs IH|gs IH|gs IH] using geometry_ind;
    intros H; rewrite transform_eq;
    match goal with |- context [is_empty ?x] => destruct (is_empty x) end;
    try reflexivity; simpl in H.
  - destruct c as [c|]; [|reflexivity]. inversion H as [|? ? Hc _]. simpl. now rewrite Hc.
  - f_equal. induction H as [|c l Hc _ IHl]; simpl; [reflexivity | now rewrite Hc, IHl].
  - f_equal. induction H as [|c l Hc _ IHl]; simpl; [reflexivity | now rewrite Hc, IHl].
  - apply Forall_app in H. destruct H as [He Hhs]. f_equal.
    + induction He as [|c l Hc _ IHl]; simpl; [reflexivity | now rewrite Hc, IHl].
    + induction hs as [|h hs IHhs]; simpl; [reflexivity|].
      simpl in Hhs. apply Forall_app in Hhs. destruct Hhs as [Hh Hhs].
      rewrite (IHhs Hhs). f_equal.
      induction Hh as [|c l Hc _ IHl]; simpl; [reflexivity | now rewrite Hc, IHl].
  - f_equal. induction IH as [|g gs Hg _ IHgs]; simpl; [reflexivity|].
    simpl in H. apply Forall_app in H. destruct H as [H1 H2].
    now rewrite (Hg H1), (IHgs H2).
  - f_equal. induction IH as [|g gs Hg _ IHgs]; simpl; [reflexivity|].
    simpl in H. apply Forall_app in H. destruct H as [H1 H2].
    now rewrite (Hg H1), (IHgs H2).
  - f_equal. induction IH as [|g gs Hg _ IHgs]; simpl; [reflexivity|].
    simpl in H. apply Forall_app in H. destruct H as [H1 H2].
    now rewrite (Hg H1), (IHgs H2).
  - f_equal. induction IH as [|g gs Hg _ IHgs]; simpl; [reflexivity|].
    simpl in H. apply Forall_app in H. destruct H as [H1 H2].
    now rewrite (Hg H1), (IHgs H2).
Qed.

Lemma wrap_lon_fixes :
  forall c, cz c = None -> -180 <= cx c -> cx c <= 180 -> _wrap_lon c = c.
Proof.
  intros [x y z] Hz Hlo Hhi. simpl in *. subst z. unfold _wrap_lon. simpl.
  assert (H : Qltb 180 (Qabs x) = false).
  { unfold Qltb. apply negb_false_iff, Qle_bool_iff, Qabs_Qle_condition. split; lra. }
  now rewrite H.
Qed.

Lemma clamp_fixes :
  forall y, Qred y = y -> -90 <= y -> y <= 90 -> _clamp y = y.
Proof.
  intros y Hred Hlo Hhi. unfold _clamp, py_max, py_min.
  destruct (Qltb y 90) eqn:H1.
  - destruct (Qltb (-90) y) eqn:H2; [reflexivity|].
    apply Qltb_false in H2. rewrite <- Hred.
    change (-90) with (Qred (-90)). apply Qred_complete. lra.
  - apply Qltb_false in H1.
    assert (Hy : y = 90).
    { rewrite <- Hred. change 90 with (Qred 90). apply Qred_complete. lra. }
    subst y. reflexivity.
Qed.

Lemma clamp_lat_fixes :
  forall c, canonical c -> -90 <= cy c -> cy c <= 90 -> _clamp_lat c = c.
Proof.
  intros [x y z] (_ & Hy & Hz) Hlo Hhi. simpl in *. subst z.
  unfold _clamp_lat. simpl. now rewrite (clamp_fixes y Hy Hlo Hhi).
Qed.

Lemma all_coords_transform_calls :
  forall g, transform_calls g = all_coords g.
Proof.
  induction g as [c|cs|cs|e hs|gs IH|gs IH|gs IH|gs IH] using geometry_ind;
    unfold transform_calls; fold transform_calls;
    match goal with |- context [is_empty ?x] => destruct (is_empty x) eqn:He end;
    try (now rewrite (is_empty_true _ He)); try reflexivity;
    simpl; clear He;
    (induction IH as [|g gs Hg _ IHgs]; simpl; [reflexivity | now rewrite Hg, IHgs]).
Qed.

Lemma count_changed_none :
  forall changed g,
    Forall (fun c => changed c = false) (all_coords g) -> count_changed changed g = 0%nat.
Proof.
  intros changed g H. unfold count_changed. rewrite all_coords_transform_calls.
  induction H as [|c l Hc _ IH]; simpl; [reflexivity | now rewrite Hc].
Qed.

(** The normalizer leaves alone, and reports nothing on, a geometry of
    canonical coordinates inside the box that spans at most 180 degrees. *)
Lemma get_clamped_geometry_fixes :
  forall g,
    Forall canonical (all_coords g) ->
    geometry_within (-180) 180 (-90) 90 g ->
    spans_more_than_180 g = false ->
    _get_clamped_geometry g = (g, [None; None]).
Proof.
  intros g Hcan Hbox Hspan. unfold _get_clamped_geometry.
  assert (Hboth : Forall (fun c => canonical c /\ coord_within (-180) 180 (-90) 90 c)
                    (all_coords g)).
  { unfold geometry_within in Hbox. rewrite Forall_forall in *. auto. }
  assert (Hwrap : transform _wrap_lon g = g).
  { apply transform_fixes. eapply Forall_impl; [|exact Hboth].
    intros c ((_ & _ & Hz) & (H1 & H2 & _)). now apply wrap_lon_fixes. }
  rewrite Hwrap, Hspan.
  assert (Hclamp : transform _clamp_lat g = g).
  { apply transform_fixes. eapply Forall_impl; [|exact Hboth].
    intros c (Hc & (_ & _ & H3 & H4)). now apply clamp_lat_fixes. }
  rewrite Hclamp.
  rewrite !count_changed_none; [reflexivity | |].
  - eapply Forall_impl; [|exact Hboth].
    intros c ((_ & _ & Hz) & (H1 & H2 & _)). unfold lon_changed.
    rewrite (wrap_lon_fixes c Hz H1 H2). now rewrite Qeq_bool_refl.
  - eapply Forall_impl; [|exact Hboth].
    intros c (Hc & (_ & _ & H3 & H4)). unfold lat_changed.
    rewrite (clamp_lat_fixes c Hc H3 H4). now rewrite Qeq_bool_refl.
Qed.

End Idempotence.

Lemma flatten_single_part :
  forall g,
    is_multipart g = false -> is_empty g = false -> has_z g = false ->
    _flatten_multipart_geometry g = ([], g).
Proof.
  intros g Hm He Hz. unfold _flatten_multipart_geometry. rewrite Hz.
  destruct g; try discriminate; simpl; rewrite He; reflexivity.
Qed.

Lemma merge_single_part :
  forall (L : Libs) g,
    is_multipart g = false -> _merge_overlapping_geometry g = Pair g None.
Proof. intros L g Hm. destruct g; try discriminate; reflexivity. Qed.

Lemma convex_hull_single_part :
  forall (L : Libs) g, is_multipart g = false -> _get_convex_hull g = (g, None).
Proof. intros L g Hm. destruct g; try discriminate; reflexivity. Qed.

Lemma simplify_aoi_within_limits :
  forall (L : Libs) stack g threshold max_depth,
    has_shape_coords g = true -> meets_limits g = true ->
    _simplify_aoi (S stack) g threshold max_depth = Ok (g, []).
Proof.
  intros L stack g threshold max_depth Hsc Hm.
  rewrite simplify_aoi_S, nearest_neighbor_spec, get_shape_coords_len_spec, Hsc.
  cbn [bind]. fold (meets_limits g). rewrite Hm.
  now destruct (geom_type g).
Qed.

Lemma reorientation_of_oriented :
  forall g, orient g 1 = g -> _counter_clockwise_reorientation g = (g, None).
Proof.
  intros g Ho. unfold _counter_clockwise_reorientation. rewrite Ho.
  rewrite Bool.eqb_reflx. simpl. now rewrite andb_false_r.
Qed.

(** C3, as the code has it.  Let the pipeline succeed and return [out].
    If [out] is valid, is one non-empty part, lies in the box of
    longitudes [-180, 180] and latitudes [-90, 90] with a longitude extent
    of at most 180, still meets the simplifier's limits after the
    rounding, and still has the winding [orient] gives, then the pipeline
    run on [out] returns [out] and warns of nothing. *)
Theorem validate_wkt_idempotent_on_settled_output :
  forall (L : Libs) (aoi : geometry) (ws : list warning) (out : geometry),
    validate_wkt aoi = Ok (ws, out) ->
    is_valid out = true ->
    is_multipart out = false ->
    is_empty out = false ->
    geometry_within (-180) 180 (-90) 90 out ->
    spans_more_than_180 out = false ->
    meets_limits out = true ->
    orient out 1 = out ->
    validate_wkt out = Ok ([], out).
Proof.
  intros L aoi ws out H Hvalid Hsingle Hnonempty Hbox Hspan Hlimits Horient.
  destruct (validate_wkt_inv L aoi ws out H) as (shape & s & _ & _ & Hs & _ & Hout).
  destruct (simplify_geometry_stages_inv L shape s Hs)
    as (mr & sr & _ & _ & _ & _ & Hsm & Hro & Hva & _).
  assert (Hcoords : Forall (fun c => exists c', c = round_coord c') (all_coords out)).
  { rewrite Hout, Hva, all_coords_transform. apply Forall_forall.
    intros c Hc. apply in_map_iff in Hc. destruct Hc as (c' & <- & _). now exists c'. }
  assert (Hcan : Forall canonical (all_coords out)).
  { eapply Forall_impl; [|exact Hcoords]. intros c (c' & ->). apply round_coord_canonical. }
  assert (Hround : transform round_coord out = out).
  { apply transform_fixes. eapply Forall_impl; [|exact Hcoords].
    intros c. apply round_coord_of_canonical. }
  assert (Hz : has_z out = false).
  { rewrite Hout, Hva. now apply has_z_transform_pairs. }
  assert (Hsc : has_shape_coords out = true).
  { destruct (simplify_aoi_returns_within L _ _ _ _ _ _ Hsm) as (Hsc & _).
    rewrite Hout, Hva, Hro, fst_reorientation.
    now rewrite transform_has_shape_coords, orient_has_shape_coords. }
  unfold validate_wkt. rewrite Hvalid. simpl negb. cbv iota.
  unfold _simplify_geometry, _simplify_geometry_stages.
  rewrite (flatten_single_part out Hsingle Hnonempty Hz).
  rewrite (get_clamped_geometry_fixes out Hcan Hbox Hspan).
  rewrite (merge_single_part L out Hsingle). cbn [unpack_pair bind].
  rewrite (convex_hull_single_part L out Hsingle).
  unfold recursion_limit.
  rewrite (simplify_aoi_within_limits L _ out _ _ Hsc Hlimits). cbn [bind].
  rewrite (reorientation_of_oriented out Horient).
  rewrite Hround. reflexivity.
Qed.

(** ** C4: what the region merger returns *)

(** C4.  On a geometry that is not multi-part the merger returns the
    pair of that geometry and no report.  On a multi-part geometry with
    one member it returns the geometry alone, not a pair, and the
    unpacking assignment of its caller raises. *)
Theorem merge_single_member_returns_no_pair :
  forall (L : Libs) (member : geometry),
    (forall c, _merge_overlapping_geometry (Point c) = Pair (Point c) None)
    /\ (forall cs, _merge_overlapping_geometry (LineString cs) = Pair (LineString cs) None)
    /\ (forall cs, _merge_overlapping_geometry (LinearRing cs) = Pair (LinearRing cs) None)
    /\ (forall e hs, _merge_overlapping_geometry (Polygon e hs) = Pair (Polygon e hs) None)
    /\ _merge_overlapping_geometry (MultiPoint [member]) = Bare (MultiPoint [member])
    /\ _merge_overlapping_geometry (MultiLineString [member])
       = Bare (MultiLineString [member])
    /\ _merge_overlapping_geometry (MultiPolygon [member]) = Bare (MultiPolygon [member])
    /\ _merge_overlapping_geometry (GeometryCollection [member])
       = Bare (GeometryCollection [member])
    /\ unpack_pair (_merge_overlapping_geometry (MultiPolygon [member]))
       = Raise UnpackError.
Proof. intros L member. repeat split. Qed.

(** ** C9: geometries of another type *)

Lemma search_wkt_prep_returns :
  forall shape, exists prepared, _search_wkt_prep shape = Ok prepared.
Proof. intros shape. destruct shape; eexists; reflexivity. Qed.

Lemma simplify_aoi_not_unsupported :
  forall (L : Libs) stack shape threshold max_depth,
    _simplify_aoi stack shape threshold max_depth
    <> Raise (ASFWKTError UnsupportedGeometryType).
Proof.
  intros L stack. induction stack as [|stack IH]; intros shape threshold max_depth;
    [discriminate|].
  rewrite simplify_aoi_S, nearest_neighbor_spec, !get_shape_coords_len_spec.
  destruct (has_shape_coords shape); [|discriminate]. cbn [bind].
  assert (Hgen :
    (if within_limits (length (shape_coords shape))
          (closest_point_dist (shape_coords shape))
     then Ok (shape, [])
     else if (max_depth =? 0)%Z
          then Raise (ASFWKTError SimplificationBoundExceeded)
     else
       after <- (if has_shape_coords (simplify shape threshold)
                 then Ok (length (shape_coords (simplify shape threshold)))
                 else Raise AttributeError) ;;
       ' (output, repairs) <-
         _simplify_aoi stack (simplify shape threshold) (threshold * 5)
           (max_depth - 1) ;;
       Ok (output,
           mkRepairEntry GEOMETRY_SIMPLIFICATION
             (ShapeSimplified (length (shape_coords shape)) after threshold)
           :: repairs))
    <> Raise (ASFWKTError UnsupportedGeometryType)).
  { destruct (within_limits _ _); [discriminate|].
    destruct (max_depth =? 0)%Z; [discriminate|].
    destruct (has_shape_coords (simplify shape threshold)); [|discriminate].
    cbn [bind].
    pose proof (IH (simplify shape threshold) (threshold * 5)%Q (max_depth - 1)%Z) as Hne.
    destruct (_simplify_aoi stack (simplify shape threshold) (threshold * 5)
                (max_depth - 1)) as [[o r]|e]; [discriminate|].
    cbn [bind]. congruence. }
  destruct (geom_type shape); try exact Hgen; discriminate.
Qed.

Lemma simplify_geometry_not_unsupported :
  forall (L : Libs) geom,
    _simplify_geometry geom <> Raise (ASFWKTError UnsupportedGeometryType).
Proof.
  intros L geom. unfold _simplify_geometry, _simplify_geometry_stages.
  destruct (_flatten_multipart_geometry geom) as [hd fl].
  destruct (_get_clamped_geometry fl) as [cl cr].
  destruct (_merge_overlapping_geometry cl) as [b|mg mr]; [discriminate|].
  cbn [unpack_pair bind].
  destruct (_get_convex_hull mg) as [cv cvr].
  pose proof (simplify_aoi_not_unsupported L recursion_limit cv default_threshold
                default_max_depth) as Hne.
  destruct (_simplify_aoi recursion_limit cv default_threshold default_max_depth)
    as [[sm sr]|e]; cbn [bind].
  - destruct (_counter_clockwise_reorientation sm). discriminate.
  - congruence.
Qed.

(** C9.  No call of [validate_wkt] fails with
    [UnsupportedGeometryType]: every class the parser returns passes one
    of the tests of [_search_wkt_prep].  A ring given on its own, which is
    none of the supported variants, fails as an invalid geometry when it is
    invalid and, when it is valid and not empty, with the
    [AttributeError] of [_get_shape_coords]. *)
Theorem linear_ring_is_not_rejected_as_unsupported :
  forall (L : Libs) (aoi : geometry) (first : coord) (rest : list coord),
    validate_wkt aoi <> Raise (ASFWKTError UnsupportedGeometryType)
    /\ _search_wkt_prep (LinearRing (first :: rest)) = Ok (LinearRing (first :: rest))
    /\ validate_wkt (LinearRing (first :: rest))
       = if is_valid (LinearRing (first :: rest)) then Raise AttributeError
         else Raise (ASFWKTError InvalidGeometry).
Proof.
  intros L aoi first rest. refine (conj _ (conj _ _)).
  - unfold validate_wkt.
    destruct (is_valid aoi); simpl; [apply simplify_geometry_not_unsupported|].
    destruct (search_wkt_prep_returns aoi) as (prepared & ->). simpl.
    destruct (is_valid prepared); simpl;
      [apply simplify_geometry_not_unsupported | discriminate].
  - reflexivity.
  - unfold validate_wkt.
    destruct (is_valid (LinearRing (first :: rest))) eqn:Hv; simpl negb; cbv iota;
      [|change (_search_wkt_prep (LinearRing (first :: rest)))
          with (Ok (LinearRing (first :: rest)));
        cbn [bind]; now rewrite Hv].
    unfold _simplify_geometry, _simplify_geometry_stages.
    unfold _flatten_multipart_geometry. simpl _recurse_nested_geometry.
    unfold _get_clamped_geometry.
    set (wrapped := transform _wrap_lon (LinearRing (first :: rest))).
    set (unwrapped := if spans_more_than_180 wrapped
                      then transform _unwrap_lon wrapped else wrapped).
    assert (Hring : exists cs, transform _clamp_lat unwrapped = LinearRing cs).
    { unfold unwrapped, wrapped. simpl transform.
      destruct (spans_more_than_180 _); eexists; reflexivity. }
    destruct Hring as (cs & ->).
    cbn [_merge_overlapping_geometry geoms_of unpack_pair bind _get_convex_hull geom_type].
    unfold recursion_limit. rewrite simplify_aoi_S. reflexivity.
Qed.

(** ** The reference implementation obeys the laws *)

Module ReferenceLaws.

Import Reference.

Lemma selects_keeps_within : forall op, selects op -> keeps_within op.
Proof.
  intros op H a b c d g Hg. unfold geometry_within in *.
  rewrite Forall_forall in *. intros x Hx. apply Hg, H, Hx.
Qed.

Lemma selects_keeps_flat : forall op, selects op -> keeps_flat op.
Proof.
  intros op H g Hg. unfold has_z in *.
  destruct (existsb coord_has_z (all_coords (op g))) eqn:E; [|reflexivity].
  apply existsb_exists in E. destruct E as (c & Hc & Hz).
  assert (Hex : existsb coord_has_z (all_coords g) = true).
  { apply existsb_exists. exists c. split; [now apply H | exact Hz]. }
  congruence.
Qed.

(** *** Simplification *)

Lemma in_tl : forall (A : Type) (x : A) l, In x (tl l) -> In x l.
Proof. intros A x [|y l] H; [exact H | now right]. Qed.

Lemma in_firstn : forall (A : Type) n (x : A) l, In x (firstn n l) -> In x l.
Proof.
  intros A n. induction n as [|n IH]; intros x [|y l] H; simpl in *; try contradiction.
  destruct H as [->|H]; [now left | right; now apply IH].
Qed.

Lemma in_skipn : forall (A : Type) n (x : A) l, In x (skipn n l) -> In x l.
Proof.
  intros A n. induction n as [|n IH]; intros x [|y l] H; simpl in *; try contradiction;
    try exact H.
  right. now apply IH.
Qed.

Lemma in_last : forall (A : Type) (l : list A) d, l <> [] -> In (last l d) l.
Proof.
  intros A l d. induction l as [|x l IH]; intros H; [contradiction|].
  destruct l as [|y l]; [now left|]. right. apply IH. discriminate.
Qed.

Lemma douglas_peucker_selects :
  forall fuel tolerance cs c,
    In c (douglas_peucker fuel tolerance cs) -> In c cs.
Proof.
  intros fuel tolerance. induction fuel as [|fuel IH]; intros cs c H; [exact H|].
  simpl in H. destruct cs as [|a [|b1 [|b2 rest]]]; try exact H.
  remember (b1 :: b2 :: rest) as tail eqn:Htail.
  destruct (farthest a (last tail a) (removelast tail) 1 (0%nat, 0%Q)) as [i d].
  destruct (Qltb (tolerance * tolerance) d).
  - apply in_app_iff in H. destruct H as [H|H].
    + apply IH in H. exact (in_firstn _ (S i) c (a :: tail) H).
    + apply in_tl in H. apply IH in H. exact (in_skipn _ i c (a :: tail) H).
  - destruct H as [<-|[<-|[]]]; [now left|]. right.
    apply in_last. rewrite Htail. discriminate.
Qed.

Lemma simplify_line_selects :
  forall tolerance cs c, In c (simplify_line tolerance cs) -> In c cs.
Proof. intros tolerance cs c. apply douglas_peucker_selects. Qed.

Lemma simplify_ring_selects :
  forall tolerance cs c, In c (simplify_ring tolerance cs) -> In c cs.
Proof.
  intros tolerance cs c. unfold simplify_ring.
  destruct (4 <=? length (simplify_line tolerance cs))%nat; [|trivial].
  apply simplify_line_selects.
Qed.

Lemma selects_members :
  forall (op : geometry -> geometry) gs c,
    Forall (fun g => In c (all_coords (op g)) -> In c (all_coords g)) gs ->
    In c (flat_map all_coords (map op gs)) -> In c (flat_map all_coords gs).
Proof.
  induction 1 as [|g gs Hg _ IH]; simpl; [trivial|].
  rewrite !in_app_iff. intros [H|H]; [left; now apply Hg | right; now apply IH].
Qed.

Lemma simplify_geometry_selects :
  forall tolerance, selects (fun g => simplify_geometry g tolerance).
Proof.
  intros tolerance g c.
  induction g as [p|cs|cs|e hs|gs IH|gs IH|gs IH|gs IH] using geometry_ind;
    try (apply (selects_members (fun m => simplify_geometry m tolerance)), IH).
  - trivial.
  - apply simplify_line_selects.
  - apply simplify_ring_selects.
  - simpl. rewrite !in_app_iff. intros [H|H].
    + left. now apply simplify_ring_selects in H.
    + right. induction hs as [|h hs IHhs]; simpl in *; [exact H|].
      apply in_app_iff in H. apply in_app_iff.
      destruct H as [H|H]; [left; now apply simplify_ring_selects in H | right; auto].
Qed.

(** *** Convex hull *)

Lemma insert_position_selects :
  forall p sorted c, In c (insert_position p sorted) -> c = p \/ In c sorted.
Proof.
  intros p sorted c. induction sorted as [|q rest IH]; simpl.
  - intros [<-|[]]. now left.
  - destruct (same_position p q); [now right|].
    destruct (position_leb p q).
    + intros [<-|H]; [now left | now right].
    + intros [<-|H]; [right; now left|].
      destruct (IH H) as [->|H']; [now left | right; now right].
Qed.

Lemma sort_positions_selects :
  forall cs c, In c (sort_positions cs) -> In c cs.
Proof.
  induction cs as [|p cs IH]; intros c H; [exact H|].
  simpl in H. apply insert_position_selects in H.
  destruct H as [->|H]; [now left | right; now apply IH].
Qed.

Lemma chain_push_selects :
  forall chain p c, In c (chain_push chain p) -> c = p \/ In c chain.
Proof.
  induction chain as [|a below IH]; intros p c; simpl.
  - intros [<-|[]]. now left.
  - destruct below as [|o rest].
    + intros [<-|H]; [now left | now right].
    + destruct (Qle_bool (cross o a p) 0).
      * intros H. destruct (IH p c H) as [->|H']; [now left | right; now right].
      * intros [<-|H]; [now left | now right].
Qed.

Lemma half_hull_selects :
  forall cs c, In c (half_hull cs) -> In c cs.
Proof.
  intros cs c. unfold half_hull.
  assert (H : forall chain, In c (fold_left chain_push cs chain) -> In c cs \/ In c chain).
  { induction cs as [|p cs IH]; intros chain Hc; simpl in Hc; [now right|].
    destruct (IH _ Hc) as [H|H]; [left; now right|].
    apply chain_push_selects in H. destruct H as [->|H]; [left; now left | now right]. }
  intros Hc. destruct (H [] Hc) as [H'|[]]. exact H'.
Qed.

Lemma hull_vertices_selects :
  forall sorted c, In c (hull_vertices sorted) -> In c sorted.
Proof.
  intros sorted c H. unfold hull_vertices in H. apply in_app_iff in H.
  destruct H as [H|H]; apply in_tl, half_hull_selects in H; [|exact H].
  now apply in_rev.
Qed.

Lemma hull_of_selects :
  forall cs c, In c (all_coords (hull_of cs)) -> In c cs.
Proof.
  intros cs c. unfold hull_of.
  pose proof (sort_positions_selects cs) as Hsort.
  destruct (sort_positions cs) as [|first [|second rest]] eqn:Hs; simpl.
  - intros [].
  - intros [<-|[]]. apply Hsort. now left.
  - pose proof (hull_vertices_selects (first :: second :: rest)) as Hv.
    assert (Hgen : forall vs,
               (forall x, In x vs -> In x (first :: second :: rest)) ->
               In c (first :: vs ++ []) -> In c cs).
    { intros vs Hvs [<-|H]; [apply Hsort; now left|].
      rewrite app_nil_r in H. apply Hsort, Hvs, H. }
    destruct (hull_vertices (first :: second :: rest)) as [|v1 [|v2 [|v3 vs]]];
      simpl; try (apply (Hgen _ Hv)).
    intros [<-|[<-|[]]]; apply Hsort; [now left|]. apply Hv. now left.
Qed.

Lemma hull_selects : selects hull.
Proof. intros g c. apply hull_of_selects. Qed.

(** *** Union *)

Lemma leaves_coords :
  forall g c, In c (flat_map all_coords (leaves g)) -> In c (all_coords g).
Proof.
  intros g c.
  assert (Hleaf : forall g', In c (flat_map all_coords (if is_empty g' then [] else [g']))
                             -> In c (all_coords g')).
  { intros g'. destruct (is_empty g'); simpl; [intros []|]. now rewrite app_nil_r. }
  assert (Hmembers : forall gs,
             Forall (fun g => In c (flat_map all_coords (leaves g)) -> In c (all_coords g)) gs ->
             In c (flat_map all_coords (flat_map leaves gs)) ->
             In c (flat_map all_coords gs)).
  { induction 1 as [|m ms Hm _ IH]; simpl; [trivial|].
    rewrite flat_map_app, !in_app_iff. intros [H|H]; [left; auto | right; auto]. }
  induction g as [p|cs|cs|e hs|gs IH|gs IH|gs IH|gs IH] using geometry_ind;
    try apply Hleaf; now apply Hmembers.
Qed.

Lemma distinct_leaves_coords :
  forall parts c,
    In c (flat_map all_coords (distinct_leaves parts)) -> In c (flat_map all_coords parts).
Proof.
  induction parts as [|part rest IH]; intros c; simpl; [trivial|].
  destruct (is_Point part && _).
  - intros H. apply in_app_iff. right. now apply IH.
  - simpl. rewrite !in_app_iff. intros [H|H]; [now left | right; now apply IH].
Qed.

Lemma collect_coords :
  forall parts, all_coords (collect parts) = flat_map all_coords parts.
Proof.
  intros [|p [|q rest]]; [reflexivity | simpl; now rewrite app_nil_r |].
  unfold collect.
  destruct (forallb is_Point (p :: q :: rest)); [reflexivity|].
  destruct (forallb is_LineString (p :: q :: rest)); [reflexivity|].
  destruct (forallb is_Polygon (p :: q :: rest)); reflexivity.
Qed.

Lemma union_selects : selects union.
Proof.
  intros g c. unfold union.
  destruct (all_apart (distinct_leaves (leaves g))).
  - rewrite collect_coords. intros H.
    now apply leaves_coords, distinct_leaves_coords.
  - intros H. apply hull_selects in H. simpl in H.
    now apply leaves_coords, distinct_leaves_coords.
Qed.

(** *** The laws *)

Lemma box_laws : BoxLaws libs.
Proof.
  constructor.
  - apply selects_keeps_within, union_selects.
  - apply selects_keeps_within, hull_selects.
  - intros tolerance. apply selects_keeps_within, simplify_geometry_selects.
Qed.

Lemma flat_laws : FlatLaws libs.
Proof.
  constructor.
  - apply selects_keeps_flat, union_selects.
  - apply selects_keeps_flat, hull_selects.
  - intros tolerance. apply selects_keeps_flat, simplify_geometry_selects.
Qed.

(** Simplification makes no lone ring. *)
Lemma simplify_geometry_has_shape_coords :
  forall tolerance g,
    has_shape_coords (simplify_geometry g tolerance) = has_shape_coords g.
Proof.
  intros tolerance g.
  induction g as [p|cs|cs|e hs|gs IH|gs IH|gs IH|gs IH] using geometry_ind;
    try reflexivity;
    apply (forallb_map_members has_shape_coords (fun m => simplify_geometry m tolerance)), IH.
Qed.

Lemma simplified_after_has_shape_coords :
  forall k shape threshold,
    has_shape_coords (simplified_after (L := libs) k shape threshold)
    = has_shape_coords shape.
Proof.
  induction k as [|k IH]; intros shape threshold; [reflexivity|].
  simpl. rewrite IH. apply simplify_geometry_has_shape_coords.
Qed.

End ReferenceLaws.

(** ** The coordinate normalizer on its own *)

Section Normalizer.

Local Open Scope Q_scope.

Lemma wrap_lon_changes :
  forall c, lon_changed c = lon_out_of_range c.
Proof.
  intros c. unfold lon_changed, lon_out_of_range, _wrap_lon. simpl.
  destruct (Qltb 180 (Qabs (cx c))) eqn:H.
  - apply negb_true_iff.
    destruct (Qeq_bool (py_mod (cx c + 180) 360 - 180) (cx c)) eqn:E; [|reflexivity].
    apply Qeq_bool_eq in E. apply Qltb_true in H.
    destruct (py_mod_360_range (cx c + 180)) as [Hlo Hhi].
    assert (Habs : Qabs (cx c) <= 180) by (apply Qabs_Qle_condition; split; lra).
    lra.
  - now rewrite Qeq_bool_refl.
Qed.

Lemma clamp_lat_changes :
  forall c, lat_changed c = lat_out_of_range c.
Proof.
  intros c. unfold lat_changed, lat_out_of_range, _clamp_lat. simpl.
  destruct (Qltb (cy c) (-90)) eqn:H1; simpl.
  - apply Qltb_true in H1. apply negb_true_iff.
    destruct (Qeq_bool (_clamp (cy c)) (cy c)) eqn:E; [|reflexivity].
    apply Qeq_bool_eq in E. destruct (clamp_range (cy c)). lra.
  - apply Qltb_false in H1.
    destruct (Qltb 90 (cy c)) eqn:H2.
    + apply Qltb_true in H2. apply negb_true_iff.
      destruct (Qeq_bool (_clamp (cy c)) (cy c)) eqn:E; [|reflexivity].
      apply Qeq_bool_eq in E. destruct (clamp_range (cy c)). lra.
    + apply Qltb_false in H2. apply negb_false_iff, Qeq_eq_bool.
      now apply clamp_id.
Qed.

Lemma filter_length_ext :
  forall (A : Type) (f g : A -> bool) l,
    (forall x, f x = g x) -> length (filter f l) = length (filter g l).
Proof.
  intros A f g l H. induction l as [|x l IH]; simpl; [reflexivity|].
  rewrite H. destruct (g x); simpl; now rewrite IH.
Qed.

Lemma filter_length_map :
  forall (A : Type) (f : A -> bool) (h : A -> A) l,
    (forall x, f (h x) = f x) -> length (filter f (map h l)) = length (filter f l).
Proof.
  intros A f h l H. induction l as [|x l IH]; simpl; [reflexivity|].
  rewrite H. destruct (f x); simpl; now rewrite IH.
Qed.

(** The congruence of [_wrap_lon]: a whole number of turns. *)
Lemma wrap_lon_turns :
  forall c, exists k : Z, cx (_wrap_lon c) == cx c + 360 * inject_Z k.
Proof.
  intros c. unfold _wrap_lon. simpl.
  destruct (Qltb 180 (Qabs (cx c))).
  - exists (- Qfloor ((cx c + 180) / 360))%Z. unfold py_mod.
    rewrite inject_Z_opp. ring.
  - exists 0%Z. change (inject_Z 0) with 0. ring.
Qed.

Lemma unwrap_lon_turns :
  forall c, exists k : Z, cx (_unwrap_lon c) == cx c + 360 * inject_Z k.
Proof.
  intros c. unfold _unwrap_lon. simpl.
  destruct (Qle_bool 0 (cx c)).
  - exists 0%Z. change (inject_Z 0) with 0. ring.
  - exists 1%Z. change (inject_Z 1) with 1. ring.
Qed.

Lemma unwrap_lon_below_360 :
  forall c, -180 <= cx c -> cx c <= 180 ->
            0 <= cx (_unwrap_lon c) /\ cx (_unwrap_lon c) < 360.
Proof.
  intros c Hlo Hhi. unfold _unwrap_lon. simpl.
  destruct (Qle_bool 0 (cx c)) eqn:H.
  - apply Qle_bool_iff in H. split; lra.
  - apply Qle_bool_false in H. split; lra.
Qed.

End Normalizer.

(** The normalizer moves every coordinate by whole turns of longitude
    and clamps its latitude: the coordinates of its result are those of
    its argument, in order, each with the latitude clamped to [-90, 90],
    the third ordinate dropped and the longitude changed by a multiple of
    360 into [-180, 180], or into [0, 360) when the wrapped geometry is
    wider than 180 degrees.  A latitude inside the range stays as it
    is, and so does a longitude inside the range when there is no unwrap. *)
Theorem get_clamped_geometry_moves_by_turns :
  forall (shape : geometry),
    exists f : coord -> coord,
      all_coords (fst (_get_clamped_geometry shape)) = map f (all_coords shape)
      /\ forall c,
          cz (f c) = None
          /\ cy (f c) = _clamp (cy c)
          /\ (-90 <= cy (f c) /\ cy (f c) <= 90)%Q
          /\ ((-90 <= cy c /\ cy c <= 90)%Q -> (cy (f c) == cy c)%Q)
          /\ (exists k : Z, (cx (f c) == cx c + 360 * inject_Z k)%Q)
          /\ (if spans_more_than_180 (transform _wrap_lon shape)
              then (0 <= cx (f c) /\ cx (f c) < 360)%Q
              else (-180 <= cx (f c) /\ cx (f c) <= 180)%Q
                   /\ (lon_out_of_range c = false -> cx (f c) = cx c)).
Proof.
  intros shape. unfold _get_clamped_geometry. simpl fst.
  destruct (spans_more_than_180 (transform _wrap_lon shape)).
  - exists (fun c => _clamp_lat (_unwrap_lon (_wrap_lon c))). split.
    + now rewrite !all_coords_transform, !map_map.
    + intros c. refine (conj eq_refl (conj eq_refl (conj _ (conj _ (conj _ _))))).
      * apply clamp_range.
      * intros [Hlo Hhi]. now apply clamp_id.
      * destruct (wrap_lon_turns c) as (k1 & H1).
        destruct (unwrap_lon_turns (_wrap_lon c)) as (k2 & H2).
        exists (k1 + k2)%Z. cbn [_clamp_lat cx xy]. rewrite H2, H1, inject_Z_plus. ring.
      * destruct (wrap_lon_range c) as [Hlo Hhi].
        exact (unwrap_lon_below_360 (_wrap_lon c) Hlo Hhi).
  - exists (fun c => _clamp_lat (_wrap_lon c)). split.
    + now rewrite !all_coords_transform, !map_map.
    + intros c. refine (conj eq_refl (conj eq_refl (conj _ (conj _ (conj _ _))))).
      * apply clamp_range.
      * intros [Hlo Hhi]. now apply clamp_id.
      * exact (wrap_lon_turns c).
      * split; [apply wrap_lon_range|].
        unfold lon_out_of_range, _clamp_lat, _wrap_lon. simpl. now intros ->.
Qed.

Lemma get_clamped_geometry_counts_aux :
  forall (shape : geometry),
    snd (_get_clamped_geometry shape)
    = [report_of_count CLAMP ClampedValues
         (length (filter lat_out_of_range (all_coords shape)));
       report_of_count WRAP WrappedValues
         (length (filter lon_out_of_range (all_coords shape)))].
Proof.
  intros shape. unfold _get_clamped_geometry, report_of_count, count_changed.
  simpl snd. rewrite !all_coords_transform_calls.
  rewrite (filter_length_ext _ lon_changed lon_out_of_range _ wrap_lon_changes).
  rewrite (filter_length_ext _ lat_changed lat_out_of_range _ clamp_lat_changes).
  assert (Hlat : length (filter lat_out_of_range
                   (all_coords (if spans_more_than_180 (transform _wrap_lon shape)
                                then transform _unwrap_lon (transform _wrap_lon shape)
                                else transform _wrap_lon shape)))
                 = length (filter lat_out_of_range (all_coords shape))).
  { destruct (spans_more_than_180 (transform _wrap_lon shape));
      rewrite !all_coords_transform, ?map_map;
      apply filter_length_map; reflexivity. }
  now rewrite Hlat.
Qed.

(** The reports of the normalizer count what is out of range: [CLAMP]
    carries the number of coordinates of the argument with a latitude
    outside [-90, 90], [WRAP] the number with a longitude outside
    [-180, 180], the closing coordinate of a ring and the coordinates of
    interior rings counted like any other; a report is missing exactly when
    its count is zero. *)
Theorem get_clamped_geometry_counts :
  forall (shape : geometry),
    snd (_get_clamped_geometry shape)
    = [report_of_count CLAMP ClampedValues
         (length (filter lat_out_of_range (all_coords shape)));
       report_of_count WRAP WrappedValues
         (length (filter lon_out_of_range (all_coords shape)))]
    /\ (snd (_get_clamped_geometry shape) = [None; None]
        <-> forall c, In c (all_coords shape) ->
              lat_out_of_range c = false /\ lon_out_of_range c = false).
Proof.
  intros shape. split; [apply get_clamped_geometry_counts_aux|].
  rewrite get_clamped_geometry_counts_aux. unfold report_of_count.
  assert (Hnone : forall (f : coord -> bool) l,
             length (filter f l) = 0%nat <-> forall c, In c l -> f c = false).
  { intros f l. induction l as [|x l IH]; simpl.
    - split; [intros _ c [] | reflexivity].
    - destruct (f x) eqn:Hx; simpl.
      + split; [discriminate|]. intros H. specialize (H x (or_introl eq_refl)). congruence.
      + rewrite IH. split.
        * intros H c [<-|Hc]; auto.
        * intros H c Hc. apply H. now right. }
  split.
  - intros H.
    destruct (length (filter lat_out_of_range (all_coords shape))) eqn:E1;
      [|discriminate].
    destruct (length (filter lon_out_of_range (all_coords shape))) eqn:E2;
      [|discriminate].
    intros c Hc. split; [apply (proj1 (Hnone _ _) E1 c Hc) | apply (proj1 (Hnone _ _) E2 c Hc)].
  - intros H.
    assert (E1 : length (filter lat_out_of_range (all_coords shape)) = 0%nat)
      by (apply Hnone; intros c Hc; apply H, Hc).
    assert (E2 : length (filter lon_out_of_range (all_coords shape)) = 0%nat)
      by (apply Hnone; intros c Hc; apply H, Hc).
    now rewrite E1, E2.
Qed.

(** ** The flattener *)

Lemma recurse_nested_geometry_leaves :
  forall g,
    Forall (fun leaf => is_single_part leaf = true
                        /\ _recurse_nested_geometry leaf = [leaf])
      (_recurse_nested_geometry g).
Proof.
  assert (Hleaf : forall g,
             is_multipart g = false ->
             _recurse_nested_geometry g = (if negb (is_empty g) then [g] else []) ->
             Forall (fun leaf => is_single_part leaf = true
                                 /\ _recurse_nested_geometry leaf = [leaf])
               (_recurse_nested_geometry g)).
  { intros g Hm Heq. rewrite Heq. destruct (is_empty g) eqn:He; simpl; constructor;
      [|constructor].
    split; [unfold is_single_part; now rewrite Hm, He | exact Heq]. }
  induction g as [c|cs|cs|e hs|gs IH|gs IH|gs IH|gs IH] using geometry_ind;
    try (apply Hleaf; reflexivity);
    simpl; (induction IH as [|g gs Hg _ IHgs]; simpl; [constructor|];
            apply Forall_app; split; assumption).
Qed.

Lemma flat_map_recurse_leaves :
  forall leaves,
    Forall (fun leaf => is_single_part leaf = true
                        /\ _recurse_nested_geometry leaf = [leaf]) leaves ->
    flat_map _recurse_nested_geometry leaves = leaves.
Proof.
  induction 1 as [|l ls [_ Hl] _ IH]; simpl; [reflexivity|].
  now rewrite Hl, IH.
Qed.

Lemma flatten_result_members :
  forall geom,
    is_single_part (snd (_flatten_multipart_geometry geom)) = true
    \/ exists parts,
        snd (_flatten_multipart_geometry geom) = GeometryCollection parts
        /\ length parts <> 1%nat
        /\ Forall (fun part => is_single_part part = true
                               /\ _recurse_nested_geometry part = [part]) parts.
Proof.
  intros geom. unfold _flatten_multipart_geometry. simpl snd.
  pose proof (recurse_nested_geometry_leaves geom) as Hleaves.
  destruct (_recurse_nested_geometry geom) as [|first [|second rest]] eqn:Hr.
  - right. exists []. repeat split; [discriminate | constructor].
  - inversion Hleaves as [|? ? [Hsingle Hself] _]; subst. now left.
  - right. exists (first :: second :: rest). repeat split; [discriminate | exact Hleaves].
Qed.

(** The flattener keeps every coordinate in its place and returns
    either one part that is neither a collection nor empty, or a
    [GeometryCollection] of such parts that has none or several of them,
    never just one; flattening its result again changes nothing. *)
Theorem flatten_multipart_geometry_result :
  forall (geom : geometry),
    all_coords (snd (_flatten_multipart_geometry geom)) = all_coords geom
    /\ (is_single_part (snd (_flatten_multipart_geometry geom)) = true
        \/ exists parts,
            snd (_flatten_multipart_geometry geom) = GeometryCollection parts
            /\ length parts <> 1%nat
            /\ Forall (fun part => is_single_part part = true) parts)
    /\ snd (_flatten_multipart_geometry (snd (_flatten_multipart_geometry geom)))
       = snd (_flatten_multipart_geometry geom).
Proof.
  intros geom. split; [apply flatten_multipart_geometry_coords|].
  destruct (flatten_result_members geom) as [Hsingle|(parts & Heq & Hn & Hparts)].
  - split; [now left|].
    set (flat := snd (_flatten_multipart_geometry geom)) in *.
    unfold is_single_part in Hsingle. apply andb_true_iff in Hsingle.
    destruct Hsingle as [Hm He]. apply negb_true_iff in Hm, He.
    unfold _flatten_multipart_geometry. simpl snd.
    destruct flat; try discriminate; simpl; rewrite He; reflexivity.
  - split.
    + right. exists parts. repeat split; [exact Heq | exact Hn |].
      eapply Forall_impl; [|exact Hparts]. now intros part [H _].
    + rewrite Heq. unfold _flatten_multipart_geometry. simpl snd.
      simpl _recurse_nested_geometry. rewrite (flat_map_recurse_leaves _ Hparts).
      destruct parts as [|p [|q r]]; try reflexivity. now elim Hn.
Qed.

(** ** What the pipeline can raise *)

Lemma is_empty_transform :
  forall func g, is_empty (transform func g) = is_empty g.
Proof.
  intros func g. unfold is_empty. rewrite all_coords_transform.
  now destruct (all_coords g).
Qed.

Lemma geoms_of_transform :
  forall func g,
    geoms_of (transform func g)
    = match geoms_of g with
      | Some gs => Some (if is_empty g then gs else map (transform func) gs)
      | None => None
      end.
Proof.
  intros func g. rewrite transform_eq.
  destruct g; simpl geoms_of;
    match goal with |- context [is_empty ?x] => destruct (is_empty x) end;
    reflexivity.
Qed.

Lemma get_clamped_geometry_members :
  forall g,
    match geoms_of g with Some gs => length gs <> 1%nat | None => True end ->
    match geoms_of (fst (_get_clamped_geometry g)) with
    | Some gs => length gs <> 1%nat
    | None => True
    end.
Proof.
  assert (Hlen : forall func g,
             match geoms_of g with Some gs => length gs <> 1%nat | None => True end ->
             match geoms_of (transform func g) with
             | Some gs => length gs <> 1%nat
             | None => True
             end).
  { intros func g. rewrite geoms_of_transform. destruct (geoms_of g) as [gs|]; [|trivial].
    destruct (is_empty g); [trivial | now rewrite length_map]. }
  intros g Hg. unfold _get_clamped_geometry. simpl fst.
  apply Hlen. destruct (spans_more_than_180 (transform _wrap_lon g));
    [apply Hlen|]; now apply Hlen.
Qed.

(** What the normalizer hands to the merger is never a collection of
    one member. *)
Lemma clamped_is_no_singleton :
  forall geom member,
    geoms_of (fst (_get_clamped_geometry (snd (_flatten_multipart_geometry geom))))
    <> Some [member].
Proof.
  intros geom member Heq.
  pose proof (get_clamped_geometry_members (snd (_flatten_multipart_geometry geom))) as H.
  rewrite Heq in H. apply H; [|reflexivity].
  destruct (flatten_result_members geom) as [Hs|(parts & -> & Hn & _)]; [|exact Hn].
  unfold is_single_part in Hs. apply andb_true_iff in Hs. destruct Hs as [Hm _].
  apply negb_true_iff in Hm.
  destruct (snd (_flatten_multipart_geometry geom)); try exact I; discriminate.
Qed.

Lemma simplify_aoi_raises :
  forall (L : Libs) stack shape threshold max_depth e,
    _simplify_aoi stack shape threshold max_depth = Raise e ->
    e = ASFWKTError SimplificationBoundExceeded \/ e = AttributeError
    \/ e = RecursionError.
Proof.
  intros L stack. induction stack as [|stack IH]; intros shape threshold max_depth e.
  - intros [= <-]. auto.
  - rewrite simplify_aoi_S, nearest_neighbor_spec, !get_shape_coords_len_spec.
    destruct (has_shape_coords shape); [|intros [= <-]; auto]. cbn [bind].
    assert (Hgen :
      (if within_limits (length (shape_coords shape))
            (closest_point_dist (shape_coords shape))
       then Ok (shape, [])
       else if (max_depth =? 0)%Z
            then Raise (ASFWKTError SimplificationBoundExceeded)
       else
         after <- (if has_shape_coords (simplify shape threshold)
                   then Ok (length (shape_coords (simplify shape threshold)))
                   else Raise AttributeError) ;;
         ' (output, repairs) <-
           _simplify_aoi stack (simplify shape threshold) (threshold * 5)
             (max_depth - 1) ;;
         Ok (output,
             mkRepairEntry GEOMETRY_SIMPLIFICATION
               (ShapeSimplified (length (shape_coords shape)) after threshold)
             :: repairs))
      = Raise e ->
      e = ASFWKTError SimplificationBoundExceeded \/ e = AttributeError
      \/ e = RecursionError).
    { destruct (within_limits _ _); [discriminate|].
      destruct (max_depth =? 0)%Z; [intros [= <-]; auto|].
      destruct (has_shape_coords (simplify shape threshold)); [|intros [= <-]; auto].
      cbn [bind].
      destruct (_simplify_aoi stack (simplify shape threshold) (threshold * 5)
                  (max_depth - 1)) as [[o r]|e'] eqn:Hrec; [discriminate|].
      cbn [bind]. intros [= <-]. exact (IH _ _ _ _ Hrec). }
    destruct (geom_type shape); try exact Hgen; discriminate.
Qed.

Lemma simplify_geometry_raises :
  forall (L : Libs) geom e,
    _simplify_geometry geom = Raise e ->
    e = ASFWKTError SimplificationBoundExceeded \/ e = AttributeError.
Proof.
  intros L geom e. unfold _simplify_geometry, _simplify_geometry_stages.
  pose proof (clamped_is_no_singleton geom) as Hns.
  destruct (_flatten_multipart_geometry geom) as [hd fl]. simpl snd in Hns.
  destruct (_get_clamped_geometry fl) as [cl cr]. simpl fst in Hns.
  assert (Hpair : exists mg mr, _merge_overlapping_geometry cl = Pair mg mr).
  { unfold _merge_overlapping_geometry.
    destruct (geoms_of cl) as [[|m [|m' ms]]|] eqn:Hg; simpl;
      try (destruct (geoms_of (unary_union cl)); eexists; eexists; reflexivity);
      try (eexists; eexists; reflexivity).
    now elim (Hns m). }
  destruct Hpair as (mg & mr & ->). cbn [unpack_pair bind].
  destruct (_get_convex_hull mg) as [cv cvr].
  pose proof (simplify_aoi_no_overflow L recursion_limit cv default_threshold
                default_max_depth ltac:(unfold default_max_depth; lia)
                ltac:(unfold default_max_depth, recursion_limit; simpl; lia)) as Hno.
  destruct (_simplify_aoi recursion_limit cv default_threshold default_max_depth)
    as [[sm sr]|e'] eqn:Hsm; cbn [bind].
  - destruct (_counter_clockwise_reorientation sm). discriminate.
  - intros [= <-]. destruct (simplify_aoi_raises L _ _ _ _ _ Hsm) as [H|[H|H]]; auto.
    congruence.
Qed.

(** The errors of [validate_wkt] are three.  It raises the
    invalid-geometry error exactly when the input is invalid and is still
    invalid after [_search_wkt_prep]; otherwise it can only raise the
    simplifier's bound-exceeded error or the [AttributeError] of
    [_get_shape_coords].  The unsupported-type error, an error of
    unpacking the merger's result and a [RecursionError] never come out
    of it. *)
Theorem validate_wkt_raises :
  forall (L : Libs) (aoi : geometry),
    (validate_wkt aoi = Raise (ASFWKTError InvalidGeometry)
     <-> is_valid aoi = false
         /\ exists prepared,
             _search_wkt_prep aoi = Ok prepared /\ is_valid prepared = false)
    /\ forall e,
        validate_wkt aoi = Raise e ->
        e = ASFWKTError InvalidGeometry
        \/ e = ASFWKTError SimplificationBoundExceeded
        \/ e = AttributeError.
Proof.
  intros L aoi. unfold validate_wkt.
  destruct (is_valid aoi) eqn:Hv; simpl negb; cbv iota.
  - split.
    + split; [|intros [H _]; discriminate].
      intros H. destruct (simplify_geometry_raises L _ _ H); discriminate.
    + intros e H. destruct (simplify_geometry_raises L _ _ H); auto.
  - destruct (search_wkt_prep_returns aoi) as (prepared & Hp). rewrite Hp. cbn [bind].
    destruct (is_valid prepared) eqn:Hv'; simpl negb; cbv iota.
    + split.
      * split.
        -- intros H. destruct (simplify_geometry_raises L _ _ H); discriminate.
        -- intros (_ & p & [= <-] & Hf). congruence.
      * intros e H. destruct (simplify_geometry_raises L _ _ H); auto.
    + split.
      * split; [|reflexivity]. intros _. split; [reflexivity|]. now exists prepared.
      * intros e [= <-]. auto.
Qed.

(** An invalid point, line or ring is always rejected: the repair
    returns it as it is. *)
Theorem invalid_point_or_line_is_rejected :
  forall (L : Libs) (aoi : geometry),
    is_Point_or_LineString aoi = true ->
    is_valid aoi = false ->
    _search_wkt_prep aoi = Ok aoi
    /\ validate_wkt aoi = Raise (ASFWKTError InvalidGeometry).
Proof.
  intros L aoi Ht Hv.
  assert (Hp : _search_wkt_prep aoi = Ok aoi)
    by (unfold _search_wkt_prep; now rewrite Ht).
  split; [exact Hp|].
  unfold validate_wkt. rewrite Hv. simpl negb. cbv iota. rewrite Hp. cbn [bind].
  now rewrite Hv.
Qed.

(** ** A single part through the pipeline *)

Lemma is_multipart_transform :
  forall func g, is_multipart (transform func g) = is_multipart g.
Proof.
  intros func g. rewrite transform_eq.
  destruct g; match goal with |- context [is_empty ?x] => destruct (is_empty x) end;
    reflexivity.
Qed.

Lemma clamped_is_single_part :
  forall g,
    is_single_part g = true ->
    is_multipart (fst (_get_clamped_geometry g)) = false
    /\ is_empty (fst (_get_clamped_geometry g)) = false.
Proof.
  intros g H. unfold is_single_part in H. apply andb_true_iff in H.
  destruct H as [Hm He]. apply negb_true_iff in Hm, He.
  unfold _get_clamped_geometry. simpl fst.
  destruct (spans_more_than_180 (transform _wrap_lon g));
    now rewrite !is_multipart_transform, !is_empty_transform.
Qed.

Lemma clamped_has_shape_coords :
  forall g, has_shape_coords (fst (_get_clamped_geometry g)) = has_shape_coords g.
Proof.
  intros g. unfold _get_clamped_geometry. simpl fst.
  destruct (spans_more_than_180 (transform _wrap_lon g));
    now rewrite !transform_has_shape_coords.
Qed.

Lemma flatten_of_single_part :
  forall g,
    is_single_part g = true ->
    _flatten_multipart_geometry g
    = ((if has_z g then [HIGHER_DIMENSION_DROPPED] else []), g).
Proof.
  intros g H. unfold is_single_part in H. apply andb_true_iff in H.
  destruct H as [Hm He]. apply negb_true_iff in Hm, He.
  unfold _flatten_multipart_geometry.
  destruct g; try discriminate; simpl _recurse_nested_geometry; rewrite He; reflexivity.
Qed.

Lemma warn_reports_app :
  forall a b, warn_reports (a ++ b) = warn_reports a ++ warn_reports b.
Proof. intros a b. unfold warn_reports. apply flat_map_app. Qed.

(** Merger, hull and simplifier leave alone a single part that meets
    the limits once normalized. *)
Lemma simplify_geometry_of_single_part :
  forall (L : Libs) g,
    is_single_part g = true ->
    has_shape_coords g = true ->
    meets_limits (fst (_get_clamped_geometry g)) = true ->
    _simplify_geometry g
    = Ok ((if has_z g then [HIGHER_DIMENSION_DROPPED] else [])
            ++ warn_reports (snd (_get_clamped_geometry g))
            ++ warn_reports
                 [snd (_counter_clockwise_reorientation (fst (_get_clamped_geometry g)))],
          transform round_coord (orient (fst (_get_clamped_geometry g)) 1)).
Proof.
  intros L g Hsingle Hsc Hlimits.
  destruct (clamped_is_single_part g Hsingle) as [Hm He].
  pose proof (clamped_has_shape_coords g) as Hsc'. rewrite Hsc in Hsc'.
  unfold _simplify_geometry, _simplify_geometry_stages.
  rewrite (flatten_of_single_part g Hsingle).
  destruct (_get_clamped_geometry g) as [cl cr]. simpl fst in *. simpl snd.
  rewrite (merge_single_part L cl Hm). cbn [unpack_pair bind].
  rewrite (convex_hull_single_part L cl Hm).
  unfold recursion_limit.
  rewrite (simplify_aoi_within_limits L _ cl _ _ Hsc' Hlimits). cbn [bind].
  rewrite <- (fst_reorientation cl).
  destruct (_counter_clockwise_reorientation cl) as [ro ror]. simpl fst. simpl snd.
  cbn [bind warnings validated]. rewrite !warn_reports_app. reflexivity.
Qed.

(** A valid point, line or polygon that meets the simplifier's limits
    once its coordinates are normalized only goes through the normalizer,
    the winding normalizer and the rounding: the result is the normalized
    geometry, oriented and rounded, whatever union, hull and
    simplification would do, and the warnings are the higher-dimension
    notice, [CLAMP], [WRAP] and [REVERSE], in this order, each when it
    applies. *)
Theorem validate_wkt_of_single_part :
  forall (L : Libs) (aoi : geometry),
    is_valid aoi = true ->
    is_single_part aoi = true ->
    has_shape_coords aoi = true ->
    meets_limits (fst (_get_clamped_geometry aoi)) = true ->
    validate_wkt aoi
    = Ok ((if has_z aoi then [HIGHER_DIMENSION_DROPPED] else [])
            ++ warn_reports (snd (_get_clamped_geometry aoi))
            ++ warn_reports
                 [snd (_counter_clockwise_reorientation
                         (fst (_get_clamped_geometry aoi)))],
          transform round_coord (orient (fst (_get_clamped_geometry aoi)) 1)).
Proof.
  intros L aoi Hv Hsingle Hsc Hlimits. unfold validate_wkt. rewrite Hv.
  simpl negb. cbv iota. now apply simplify_geometry_of_single_part.
Qed.

Section PointRun.

Local Open Scope Q_scope.

Lemma clamped_point :
  forall c,
    _get_clamped_geometry (Point (Some c))
    = (Point (Some (xy (cx (_wrap_lon c)) (_clamp (cy c)))),
       [report_of_count CLAMP ClampedValues (if lat_out_of_range c then 1 else 0);
        report_of_count WRAP WrappedValues (if lon_out_of_range c then 1 else 0)]).
Proof.
  intros c.
  rewrite (surjective_pairing (_get_clamped_geometry (Point (Some c)))).
  f_equal.
  - assert (Hspan : spans_more_than_180 (transform _wrap_lon (Point (Some c))) = false).
    { unfold spans_more_than_180, lon_span. simpl.
      unfold Qltb. apply negb_false_iff, Qle_bool_iff. lra. }
    unfold _get_clamped_geometry. cbv zeta. cbn [fst].
    rewrite Hspan. reflexivity.
  - rewrite get_clamped_geometry_counts_aux. simpl.
    destruct (lat_out_of_range c), (lon_out_of_range c); reflexivity.
Qed.

End PointRun.

(** ** The claims on concrete inputs *)

Section Examples.

Import Inputs.

Local Open Scope Q_scope.

Local Abbreviation R := Reference.libs.




(** C3 fails on the code: the pipeline run on its own result, the line
    in the frame of 0 to 360 degrees, wraps the longitude 190 again and
    warns of it. *)
Lemma second_run_warns_of_wrap :
  validate_wkt (L := R) antimeridian_line = Ok ([], unwrapped_line)
  /\ validate_wkt (L := R) unwrapped_line
     = Ok ([Repair (mkRepairEntry WRAP (WrappedValues 1))], unwrapped_line).
Proof. split; vm_compute; reflexivity. Qed.

(** The amended idempotence at the clockwise square: the first run turns
    it, the second leaves the result alone and is silent. *)
Lemma validate_wkt_idempotent_witness :
  validate_wkt (L := R) clockwise_square
  = Ok ([Repair (mkRepairEntry REVERSE ReversedWindingOrder)], counter_clockwise_square)
  /\ validate_wkt (L := R) counter_clockwise_square = Ok ([], counter_clockwise_square).
Proof.
  assert (H : validate_wkt (L := R) clockwise_square
              = Ok ([Repair (mkRepairEntry REVERSE ReversedWindingOrder)],
                    counter_clockwise_square))
    by (vm_compute; reflexivity).
  split; [exact H|].
  apply (validate_wkt_idempotent_on_settled_output R clockwise_square _
           counter_clockwise_square H);
    try (vm_compute; reflexivity).
  in_box.
Defined.

(** Why the amended statement asks for the winding to be kept: the thin
    triangle is counter-clockwise, its rounding is clockwise, and the second
    run reverses it. *)
Example rounding_can_turn_a_ring :
  is_ccw (exterior_coords thin_triangle) = true
  /\ exists out,
      validate_wkt (L := R) thin_triangle = Ok ([], out)
      /\ is_ccw (exterior_coords out) = false
      /\ exists out',
          validate_wkt (L := R) out
          = Ok ([Repair (mkRepairEntry REVERSE ReversedWindingOrder)], out')
          /\ out' <> out.
Proof.
  split; [vm_compute; reflexivity|].
  eexists. split; [vm_compute; reflexivity|].
  split; [vm_compute; reflexivity|].
  eexists. split; [vm_compute; reflexivity|]. discriminate.
Qed.

(** ... and why it asks for one part that is not empty: the empty
    collection comes back as it is, with the reports of merger and hull,
    at every run. *)
Example empty_collection_warns_at_every_run :
  validate_wkt (L := R) empty_collection
  = Ok ([Repair (mkRepairEntry OVERLAP_MERGE (NonOverlappingMergedByHulls 0));
         Repair (mkRepairEntry CONVEX_HULL_INDIVIDUAL UnconnectedShapesHulled)],
        empty_collection).
Proof. vm_compute; reflexivity. Qed.


(** ... and at the close pair alone, which simplification cannot part. *)
Example simplify_aoi_fails_on_close_pair :
  _simplify_aoi (L := R) recursion_limit close_pair default_threshold default_max_depth
  = Raise (ASFWKTError SimplificationBoundExceeded).
Proof. vm_compute; reflexivity. Qed.

(** C6 at the close pair: the run of eleven calls ends, and not for the
    stack. *)
Lemma simplify_aoi_terminates_witness :
  _simplify_aoi (L := R) recursion_limit close_pair default_threshold 10
  <> Raise RecursionError.
Proof.
  apply (proj1 (simplify_aoi_terminates R close_pair default_threshold 10
                  recursion_limit));
    [vm_compute; discriminate | vm_compute; lia].
Defined.

(** A counter that starts below zero never reaches it: the recursion
    then ends with the stack. *)
Example negative_depth_uses_up_the_stack :
  _simplify_aoi (L := R) 5 close_pair default_threshold (-1) = Raise RecursionError.
Proof. vm_compute; reflexivity. Qed.


(** C8 fails on the code: what the flattener returns for [POINT Z (10 20 5)]
    still has the third ordinate. *)
Lemma flattener_keeps_third_ordinate :
  has_z point_z = true
  /\ _flatten_multipart_geometry point_z = ([HIGHER_DIMENSION_DROPPED], point_z)
  /\ has_z (snd (_flatten_multipart_geometry point_z)) = true.
Proof. repeat split. Qed.

(** The amended statement at the same point: one warning, and a flat
    point from the normalizer on. *)
Lemma higher_dimension_witness :
  validate_wkt (L := R) point_z
  = Ok ([HIGHER_DIMENSION_DROPPED], Point (Some (xy 10 20)))
  /\ has_z (fst (_get_clamped_geometry (snd (_flatten_multipart_geometry point_z))))
     = false
  /\ has_z (Point (Some (xy 10 20))) = false.
Proof.
  assert (H : validate_wkt (L := R) point_z
              = Ok ([HIGHER_DIMENSION_DROPPED], Point (Some (xy 10 20))))
    by (vm_compute; reflexivity).
  destruct (higher_dimension_dropped_by_normalizer R point_z)
    as (_ & _ & Hclamped & Hout & _).
  split; [exact H|]. split; [exact Hclamped|].
  exact (proj1 (Hout _ _ H)).
Defined.

(** C9 at the two rings. *)
Example rings_are_not_rejected_as_unsupported :
  validate_wkt (L := R) triangle_ring = Raise AttributeError
  /\ validate_wkt (L := R) bow_tie_ring = Raise (ASFWKTError InvalidGeometry).
Proof. split; vm_compute; reflexivity. Qed.

(** The polygon beyond 180 degrees of the specification's scenario A:
    the closing coordinate is counted too. *)
Example wrap_counts_the_closing_coordinate :
  validate_wkt (L := R) polygon_beyond_180
  = Ok ([Repair (mkRepairEntry WRAP (WrappedValues 5))],
        Polygon [xy (-160) 10; xy (-160) 20; xy (-170) 20; xy (-170) 10; xy (-160) 10] []).
Proof. vm_compute; reflexivity. Qed.

End Examples.

(** ** A point through the pipeline *)

Section PointResult.

Local Open Scope Q_scope.

(** A valid point always comes through: its longitude wrapped into
    [-180, 180], its latitude clamped to [-90, 90], both rounded to 14
    decimals and a third ordinate dropped, with one warning for each of
    the three that changed something.  The result lies in the box of
    longitudes [-180, 180] and latitudes [-90, 90]. *)
Theorem validate_wkt_of_point :
  forall (L : Libs) (c : coord),
    is_valid (Point (Some c)) = true ->
    validate_wkt (Point (Some c))
    = Ok ((if coord_has_z c then [HIGHER_DIMENSION_DROPPED] else [])
            ++ (if lat_out_of_range c
                then [Repair (mkRepairEntry CLAMP (ClampedValues 1))] else [])
            ++ (if lon_out_of_range c
                then [Repair (mkRepairEntry WRAP (WrappedValues 1))] else []),
          Point (Some (xy (round14 (cx (_wrap_lon c))) (round14 (_clamp (cy c))))))
    /\ (-180 <= round14 (cx (_wrap_lon c)) /\ round14 (cx (_wrap_lon c)) <= 180)
    /\ (-90 <= round14 (_clamp (cy c)) /\ round14 (_clamp (cy c)) <= 90).
Proof.
  intros L c Hv. refine (conj _ (conj _ _)).
  - unfold validate_wkt. rewrite Hv. simpl negb. cbv iota.
    rewrite (simplify_geometry_of_single_part L (Point (Some c)));
      [ | reflexivity | reflexivity | rewrite clamped_point; apply point_meets_limits ].
    rewrite clamped_point. cbn [fst snd].
    unfold has_z. cbn [all_coords existsb]. rewrite orb_false_r.
    unfold _counter_clockwise_reorientation. cbn [is_Polygon andb snd orient].
    rewrite transform_eq. unfold is_empty. cbn [all_coords].
    unfold report_of_count, warn_reports.
    destruct (coord_has_z c), (lat_out_of_range c), (lon_out_of_range c); reflexivity.
  - destruct (wrap_lon_range c) as [Hlo Hhi].
    exact (round14_between (-180) 180 _ Hlo Hhi).
  - destruct (clamp_range (cy c)) as [Hlo Hhi].
    exact (round14_between (-90) 90 _ Hlo Hhi).
Qed.

End PointResult.

(** ** The rounding *)

Section Rounding.

Local Open Scope Q_scope.

Lemma round14_decimals : forall x, has_14_decimals (round14 x).
Proof.
  intros x. exists (round_half_even (x * inject_Z (Z.pos pow10_14))).
  unfold round14. apply Qred_correct.
Qed.

Lemma round_half_even_close :
  forall q, Qabs (inject_Z (round_half_even q) - q) <= 1 # 2.
Proof.
  intros q. unfold round_half_even.
  pose proof (Qfloor_le q) as Hlo.
  pose proof (Qlt_floor q) as Hhi.
  rewrite inject_Z_plus in Hhi. change (inject_Z 1) with 1 in Hhi.
  set (f := Qfloor q) in *. clearbody f.
  apply Qabs_Qle_condition.
  destruct (Qltb (q - inject_Z f) (1 # 2)) eqn:H1.
  - apply Qltb_true in H1. split; lra.
  - apply Qltb_false in H1.
    destruct (Qltb (1 # 2) (q - inject_Z f)) eqn:H2.
    + rewrite inject_Z_plus. change (inject_Z 1) with 1. split; lra.
    + apply Qltb_false in H2.
      destruct (Z.even f); [split; lra|].
      rewrite inject_Z_plus. change (inject_Z 1) with 1. split; lra.
Qed.

Lemma round14_close : forall x, Qabs (round14 x - x) <= half_unit_14.
Proof.
  intros x. unfold round14. rewrite Qred_correct.
  pose proof (round_half_even_close (x * inject_Z (Z.pos pow10_14))) as H.
  set (n := round_half_even (x * inject_Z (Z.pos pow10_14))) in *. clearbody n.
  apply Qabs_Qle_condition in H. apply Qabs_Qle_condition.
  assert (Hn : n # pow10_14 == inject_Z n / inject_Z (Z.pos pow10_14))
    by apply Qmake_Qdiv.
  rewrite Hn.
  assert (Hp : inject_Z (Z.pos pow10_14) == 100000000000000) by reflexivity.
  assert (Hh : half_unit_14 == 1 # 200000000000000) by reflexivity.
  rewrite Hh. rewrite Hp in *.
  set (m := inject_Z n) in *. clearbody m.
  destruct H as [Hlo Hhi].
  assert (E : m / 100000000000000 - x == (m - x * 100000000000000) / 100000000000000)
    by field.
  rewrite E. clear E Hn Hp Hh. split.
  - apply Qle_shift_div_l; lra.
  - apply Qle_shift_div_r; lra.
Qed.

Lemma round14_of_decimals :
  forall x, has_14_decimals x -> round14 x == x.
Proof.
  intros x (n & Hn). unfold round14. rewrite Qred_correct.
  assert (H : x * inject_Z (Z.pos pow10_14) == inject_Z n).
  { rewrite Hn. unfold Qeq, Qmult, inject_Z. cbn [Qnum Qden]. rewrite Pos.mul_1_r. ring. }
  rewrite (round_half_even_comp _ _ H), round_half_even_Z. now rewrite Hn.
Qed.

(** The function of line 93 moves an ordinate by at most half a unit of
    the fourteenth decimal, leaves one that has 14 decimals where it is,
    drops a third ordinate, and changes nothing when applied again. *)
Theorem round_coord_moves_half_a_unit :
  forall (c : coord),
    Qabs (cx (round_coord c) - cx c) <= half_unit_14
    /\ Qabs (cy (round_coord c) - cy c) <= half_unit_14
    /\ (has_14_decimals (cx c) -> cx (round_coord c) == cx c)
    /\ (has_14_decimals (cy c) -> cy (round_coord c) == cy c)
    /\ cz (round_coord c) = None
    /\ round_coord (round_coord c) = round_coord c.
Proof.
  intros c. unfold round_coord. cbn [cx cy cz xy].
  refine (conj _ (conj _ (conj _ (conj _ (conj _ _))))).
  - apply round14_close.
  - apply round14_close.
  - apply round14_of_decimals.
  - apply round14_of_decimals.
  - reflexivity.
  - now rewrite !round14_idempotent.
Qed.

(** Every coordinate of a geometry [validate_wkt] returns is a pair of
    numbers with at most 14 decimals; the geometry has no third ordinate
    and rounding it again changes nothing. *)
Theorem validate_wkt_output_is_rounded :
  forall (L : Libs) (aoi : geometry) (ws : list warning) (out : geometry),
    validate_wkt aoi = Ok (ws, out) ->
    Forall (fun c => has_14_decimals (cx c) /\ has_14_decimals (cy c) /\ cz c = None)
      (all_coords out)
    /\ has_z out = false
    /\ transform round_coord out = out.
Proof.
  intros L aoi ws out H.
  destruct (validate_wkt_inv L aoi ws out H) as (shape & s & _ & _ & Hs & _ & ->).
  destruct (simplify_geometry_stages_inv L shape s Hs)
    as (mr & sr & _ & _ & _ & _ & _ & _ & Hva & _).
  rewrite Hva.
  assert (Hall : forall c, In c (all_coords (transform round_coord (reoriented s))) ->
                           exists c', c = round_coord c').
  { intros c Hc. rewrite all_coords_transform in Hc. apply in_map_iff in Hc.
    destruct Hc as (c' & <- & _). now exists c'. }
  refine (conj _ (conj _ _)).
  - apply Forall_forall. intros c Hc. destruct (Hall c Hc) as (c' & ->).
    unfold round_coord. cbn [cx cy cz xy].
    repeat split; apply round14_decimals.
  - unfold has_z. apply not_true_is_false. intros Hz.
    apply existsb_exists in Hz. destruct Hz as (c & Hc & Hz).
    destruct (Hall c Hc) as (c' & ->). discriminate.
  - apply transform_fixes. apply Forall_forall. intros c Hc.
    apply round_coord_of_canonical, Hall, Hc.
Qed.

End Rounding.

(** ** The winding of interior rings *)

Section Winding.

Local Open Scope Q_scope.

Lemma ring_closed_rev : forall ring, ring_closed ring -> ring_closed (rev ring).
Proof.
  intros [|a t] Hc; [exact I|].
  destruct (exists_last (l := a :: t) ltac:(discriminate)) as (front & z & Hfz).
  assert (Hz : z = a).
  { unfold ring_closed in Hc. rewrite Hfz, last_last in Hc. exact Hc. }
  subst z. rewrite Hfz. rewrite rev_app_distr. simpl rev. simpl app.
  unfold ring_closed.
  destruct front as [|a' mid].
  - reflexivity.
  - injection Hfz as <- _. simpl rev.
    change (a :: (rev mid ++ [a])) with ([a] ++ rev mid ++ [a]).
    rewrite app_assoc. apply last_last.
Qed.

Lemma exterior_settles :
  forall e,
    ring_closed e ->
    0 <= signed_area (if Qle_bool 0 (signed_area e / 1) then e else rev e).
Proof.
  intros e Hc. rewrite Qle_bool_div_1.
  destruct (Qle_bool 0 (signed_area e)) eqn:H.
  - now apply Qle_bool_iff.
  - apply Qle_bool_false in H. rewrite (signed_area_rev e Hc). lra.
Qed.

Lemma interior_settles :
  forall h,
    ring_closed h ->
    signed_area (if Qle_bool (signed_area h / 1) 0 then h else rev h) <= 0.
Proof.
  intros h Hc. rewrite Qle_bool_div_1_l.
  destruct (Qle_bool (signed_area h) 0) eqn:H.
  - now apply Qle_bool_iff.
  - apply Qle_bool_false in H. rewrite (signed_area_rev h Hc). lra.
Qed.

Lemma orient_polygon_settled :
  forall e hs,
    0 <= signed_area e ->
    Forall (fun h => signed_area h <= 0) hs ->
    orient_polygon e hs 1 = Polygon e hs.
Proof.
  intros e hs He Hhs. unfold orient_polygon. rewrite Qle_bool_div_1.
  apply Qle_bool_iff in He. rewrite He. f_equal.
  induction Hhs as [|h hs Hh _ IH]; [reflexivity|].
  simpl. rewrite Qle_bool_div_1_l. apply Qle_bool_iff in Hh. now rewrite Hh, IH.
Qed.

Lemma orient_polygon_twice :
  forall e hs,
    ring_closed e -> Forall ring_closed hs ->
    orient (orient_polygon e hs 1) 1 = orient_polygon e hs 1.
Proof.
  intros e hs He Hhs. unfold orient_polygon.
  refine (orient_polygon_settled _ _ _ _).
  - now apply exterior_settles.
  - apply Forall_forall. intros h' Hh'. apply in_map_iff in Hh'.
    destruct Hh' as (h & <- & Hh). apply interior_settles.
    rewrite Forall_forall in Hhs. now apply Hhs.
Qed.

(** On a polygon whose rings are closed, the winding normalizer keeps
    each interior ring or reverses it, so that none is left with a
    positive signed area; the exterior ring is left with a signed area
    that is not negative.  Applied to its own result, it returns it
    unchanged and reports nothing. *)
Theorem winding_normalizer_settles :
  forall (exterior : list coord) (interiors : list (list coord)),
    ring_closed exterior ->
    Forall ring_closed interiors ->
    exists exterior' interiors',
      fst (_counter_clockwise_reorientation (Polygon exterior interiors))
      = Polygon exterior' interiors'
      /\ 0 <= signed_area exterior'
      /\ Forall2 (fun h h' => (h' = h \/ h' = rev h) /\ signed_area h' <= 0)
           interiors interiors'
      /\ _counter_clockwise_reorientation (Polygon exterior' interiors')
         = (Polygon exterior' interiors', None).
Proof.
  intros exterior interiors He Hhs.
  rewrite fst_reorientation. simpl orient. unfold orient_polygon.
  eexists _, _. refine (conj eq_refl (conj _ (conj _ _))).
  - now apply exterior_settles.
  - induction Hhs as [|h hs Hh _ IH]; simpl; constructor; [|exact IH].
    split; [|now apply interior_settles].
    destruct (Qle_bool (signed_area h / 1) 0); [now left | now right].
  - apply reorientation_of_oriented.
    exact (orient_polygon_twice exterior interiors He Hhs).
Qed.

End Winding.

(** ** The repair of an invalid geometry *)

Lemma length_all_coords_orient :
  forall g sign, length (all_coords (orient g sign)) = length (all_coords g).
Proof.
  intros g sign.
  induction g as [p|cs|cs|e hs|gs IH|gs IH|gs IH|gs IH] using geometry_ind;
    try reflexivity;
    try (simpl; apply (length_flat_map_members _ all_coords (fun g => orient g sign)), IH).
  simpl. rewrite !length_app. f_equal.
  - destruct (Qle_bool 0 (signed_area e / sign)); [reflexivity | apply length_rev].
  - induction hs as [|h hs IHh]; [reflexivity|]. simpl. rewrite !length_app, IHh.
    f_equal. destruct (Qle_bool (signed_area h / sign) 0); [reflexivity | apply length_rev].
Qed.

Lemma orient_polygon_member_twice :
  forall g,
    Forall ring_closed (polygon_rings g) ->
    (if is_Polygon (if is_Polygon g then orient g 1 else g)
     then orient (if is_Polygon g then orient g 1 else g) 1
     else (if is_Polygon g then orient g 1 else g))
    = (if is_Polygon g then orient g 1 else g).
Proof.
  intros g Hc. destruct g as [p|cs|cs|e hs|gs|gs|gs|gs]; try reflexivity.
  simpl in Hc. inversion Hc as [|? ? He Hhs]; subst.
  cbn [is_Polygon]. cbv iota.
  change (orient (Polygon e hs) 1) with (orient_polygon e hs 1).
  change (is_Polygon (orient_polygon e hs 1)) with true. cbv iota.
  exact (orient_polygon_twice e hs He Hhs).
Qed.

(** [_search_wkt_prep] returns for every geometry.  The result is of the
    class of the argument, with the same coordinates, as many of them,
    and a third ordinate exactly when the argument has one.  A point,
    line or ring is returned as it is, and so is a collection none of
    whose members is a polygon.  When the rings of the polygons it
    orients are closed, preparing the result again returns the result. *)
Theorem search_wkt_prep_result :
  forall (shape : geometry),
    exists prepared,
      _search_wkt_prep shape = Ok prepared
      /\ geom_type prepared = geom_type shape
      /\ (forall c, In c (all_coords prepared) <-> In c (all_coords shape))
      /\ length (all_coords prepared) = length (all_coords shape)
      /\ has_z prepared = has_z shape
      /\ (oriented_rings shape = [] -> prepared = shape)
      /\ (Forall ring_closed (oriented_rings shape) ->
          _search_wkt_prep prepared = Ok prepared).
Proof.
  intros shape.
  destruct (search_wkt_prep_returns shape) as (prepared & Hp).
  exists prepared. split; [exact Hp|].
  pose proof (fun c => search_wkt_prep_coords shape prepared c Hp) as Hcoords.
  refine (conj _ (conj Hcoords (conj _ (conj _ (conj _ _))))).
  - destruct shape; injection Hp as <-; reflexivity.
  - assert (Hmember : forall gs,
               length (flat_map all_coords
                         (map (fun geom => if is_Polygon geom then orient geom 1 else geom) gs))
               = length (flat_map all_coords gs)).
    { intros gs. induction gs as [|g gs IH]; [reflexivity|].
      simpl. rewrite !length_app, IH. f_equal.
      destruct (is_Polygon g); [apply length_all_coords_orient | reflexivity]. }
    destruct shape; injection Hp as <-; try reflexivity;
      try (simpl; apply Hmember).
    exact (length_all_coords_orient (Polygon exterior interiors) 1).
  - now apply existsb_same_elements.
  - assert (Hmember : forall gs,
               flat_map polygon_rings gs = [] ->
               map (fun geom => if is_Polygon geom then orient geom 1 else geom) gs = gs).
    { intros gs. induction gs as [|g gs IH]; [reflexivity|].
      simpl. intros H. apply app_eq_nil in H. destruct H as [Hg Hgs].
      rewrite (IH Hgs). destruct g; try reflexivity. discriminate. }
    destruct shape; injection Hp as <-; unfold oriented_rings; simpl;
      try reflexivity; try discriminate;
      intros H; now rewrite (Hmember _ H).
  - assert (Hmember : forall gs,
               Forall ring_closed (flat_map polygon_rings gs) ->
               map (fun geom => if is_Polygon geom then orient geom 1 else geom)
                 (map (fun geom => if is_Polygon geom then orient geom 1 else geom) gs)
               = map (fun geom => if is_Polygon geom then orient geom 1 else geom) gs).
    { intros gs. induction gs as [|g gs IH]; [reflexivity|].
      simpl. intros H. apply Forall_app in H. destruct H as [Hg Hgs].
      now rewrite (IH Hgs), (orient_polygon_member_twice g Hg). }
    destruct shape; injection Hp as <-; unfold oriented_rings; simpl geoms_of; cbv iota;
      try reflexivity;
      try (intros H; unfold _search_wkt_prep; simpl; now rewrite (Hmember _ H)).
    intros H. simpl in H. inversion H as [|? ? He Hhs]; subst.
    unfold _search_wkt_prep.
    change (orient (Polygon exterior interiors) 1) with (orient_polygon exterior interiors 1).
    change (is_Point_or_LineString (orient_polygon exterior interiors 1)) with false.
    change (is_multipart (orient_polygon exterior interiors 1)) with false.
    change (is_Polygon (orient_polygon exterior interiors 1)) with true.
    cbv iota. now rewrite (orient_polygon_twice exterior interiors He Hhs).
Qed.

(** ** What the simplifier returns, at any depth *)

Lemma simplify_aoi_result_steps :
  forall (L : Libs) stack shape threshold max_depth output repairs,
    _simplify_aoi stack shape threshold max_depth = Ok (output, repairs) ->
    output = simplified_after (length repairs) shape threshold
    /\ repairs = reports_of_steps (length repairs) shape threshold
    /\ (forall j, (j < length repairs)%nat ->
                  meets_limits (simplified_after j shape threshold) = false)
    /\ ((0 <= max_depth)%Z -> (Z.of_nat (length repairs) <= max_depth)%Z).
Proof.
  intros L stack. induction stack as [|stack IH];
    intros shape threshold max_depth output repairs; [discriminate|].
  rewrite simplify_aoi_S, nearest_neighbor_spec, get_shape_coords_len_spec.
  destruct (has_shape_coords shape) eqn:Hsc; [|discriminate].
  cbn [bind].
  assert (Hgen :
    (if within_limits (length (shape_coords shape))
          (closest_point_dist (shape_coords shape))
     then Ok (shape, [])
     else if (max_depth =? 0)%Z
          then Raise (ASFWKTError SimplificationBoundExceeded)
     else
       after <- _get_shape_coords_len (simplify shape threshold) ;;
       ' (output, repairs) <-
         _simplify_aoi stack (simplify shape threshold) (threshold * 5)
           (max_depth - 1) ;;
       Ok (output,
           mkRepairEntry GEOMETRY_SIMPLIFICATION
             (ShapeSimplified (length (shape_coords shape)) after threshold)
           :: repairs))
    = Ok (output, repairs) ->
    output = simplified_after (length repairs) shape threshold
    /\ repairs = reports_of_steps (length repairs) shape threshold
    /\ (forall j, (j < length repairs)%nat ->
                  meets_limits (simplified_after j shape threshold) = false)
    /\ ((0 <= max_depth)%Z -> (Z.of_nat (length repairs) <= max_depth)%Z)).
  { destruct (within_limits _ _) eqn:Hw.
    - intros [= <- <-]. simpl. repeat split; try lia; intros j Hj; simpl in Hj; lia.
    - destruct (max_depth =? 0)%Z eqn:Hd; [discriminate|].
      apply Z.eqb_neq in Hd.
      rewrite get_shape_coords_len_spec.
      destruct (has_shape_coords (simplify shape threshold)); [|discriminate].
      cbn [bind].
      destruct (_simplify_aoi stack (simplify shape threshold) (threshold * 5)
                  (max_depth - 1)) as [[o r]|e] eqn:Hrec; [|discriminate].
      cbn [bind]. intros [= <- <-].
      destruct (IH _ _ _ _ _ Hrec) as (Ho & Hr & Hj & Hlen).
      cbn [length simplified_after reports_of_steps].
      refine (conj Ho (conj _ (conj _ _))).
      + now rewrite <- Hr.
      + intros [|j] Hlt; [exact Hw|]. apply Hj. lia.
      + intros Hpos. assert (H : (0 <= max_depth - 1)%Z) by lia.
        specialize (Hlen H). lia. }
  destruct (geom_type shape) eqn:Ht; try exact Hgen.
  intros [= <- <-]. simpl. repeat split; try lia; intros j Hj; simpl in Hj; lia.
Qed.

Lemma reports_of_steps_nth :
  forall (L : Libs) n shape threshold k r,
    nth_error (reports_of_steps n shape threshold) k = Some r ->
    r = mkRepairEntry GEOMETRY_SIMPLIFICATION
          (ShapeSimplified
             (length (shape_coords (simplified_after k shape threshold)))
             (length (shape_coords (simplified_after (S k) shape threshold)))
             (threshold_at k threshold)).
Proof.
  intros L n. induction n as [|n IH]; intros shape threshold k r H.
  - destruct k; discriminate.
  - destruct k as [|k].
    + injection H as <-. reflexivity.
    + exact (IH _ _ _ _ H).
Qed.

(** Whatever [_simplify_aoi] returns, at any depth and tolerance, is the
    geometry after as many simplification steps as there are reports; it
    meets the limits and none of the geometries before it does; with a
    depth that is not negative there are at most [max_depth] reports; and
    report [k] names the vertex counts before and after step [k] and the
    tolerance of that step, five times that of the step before. *)
Theorem simplify_aoi_result :
  forall (L : Libs) (stack : nat) (shape : geometry) (threshold : Q) (max_depth : Z)
         (output : geometry) (repairs : list RepairEntry),
    _simplify_aoi stack shape threshold max_depth = Ok (output, repairs) ->
    output = simplified_after (length repairs) shape threshold
    /\ meets_limits output = true
    /\ (forall j, (j < length repairs)%nat ->
                  meets_limits (simplified_after j shape threshold) = false)
    /\ ((0 <= max_depth)%Z -> (Z.of_nat (length repairs) <= max_depth)%Z)
    /\ (forall k r,
           nth_error repairs k = Some r ->
           r = mkRepairEntry GEOMETRY_SIMPLIFICATION
                 (ShapeSimplified
                    (length (shape_coords (simplified_after k shape threshold)))
                    (length (shape_coords (simplified_after (S k) shape threshold)))
                    (threshold_at k threshold)))
    /\ (forall k, threshold_at (S k) threshold == threshold_at k threshold * 5)%Q.
Proof.
  intros L stack shape threshold max_depth output repairs H.
  destruct (simplify_aoi_result_steps L _ _ _ _ _ _ H) as (Ho & Hr & Hj & Hlen).
  destruct (simplify_aoi_returns_within L _ _ _ _ _ _ H) as (_ & _ & Hm).
  refine (conj Ho (conj Hm (conj Hj (conj Hlen (conj _ _))))).
  - intros k r Hk. rewrite Hr in Hk. exact (reports_of_steps_nth L _ _ _ _ _ Hk).
  - intros k. clear. revert threshold.
    induction k as [|k IH]; intros threshold; [reflexivity|].
    change (threshold_at (S (S k)) threshold) with (threshold_at (S k) (threshold * 5)).
    change (threshold_at (S k) threshold) with (threshold_at k (threshold * 5)).
    apply IH.
Qed.

(** ** The warnings of a run, in order *)

Lemma merge_report_kind :
  forall (L : Libs) geom merged merge_report,
    _merge_overlapping_geometry geom = Pair merged merge_report ->
    (merge_report = None /\ merged = geom /\ geoms_of geom = None)
    \/ (exists text, merge_report = Some (mkRepairEntry OVERLAP_MERGE text)).
Proof.
  intros L geom merged merge_report. unfold _merge_overlapping_geometry.
  destruct (geoms_of geom) as [geoms|] eqn:Hg.
  - destruct (length geoms =? 1)%nat; [discriminate|].
    destruct (geoms_of (unary_union geom)); intros [= <- <-]; right; eexists; reflexivity.
  - intros [= <- <-]. now left.
Qed.

(** The warnings of a successful run come in the order of line 88, not
    in the order of the stages: the higher-dimension notice, then
    [OVERLAP_MERGE], [CONVEX_HULL_INDIVIDUAL], [CLAMP], [WRAP], at most
    ten [GEOMETRY_SIMPLIFICATION] reports, and [REVERSE], each at most
    once apart from the simplification reports.  A hull warning comes only
    after a merge warning, the counts of [CLAMP] and [WRAP] are not zero,
    and simplification report [k] carries the tolerance of step [k]. *)
Theorem validate_wkt_warnings_in_order :
  forall (L : Libs) (aoi : geometry) (ws : list warning) (out : geometry),
    validate_wkt aoi = Ok (ws, out) ->
    exists higher merge hull clamp wrap steps reverse,
      ws = higher ++ merge ++ hull ++ clamp ++ wrap ++ steps ++ reverse
      /\ (higher = [] \/ higher = [HIGHER_DIMENSION_DROPPED])
      /\ (merge = []
          \/ exists text, merge = [Repair (mkRepairEntry OVERLAP_MERGE text)])
      /\ (hull = []
          \/ (hull = [Repair (mkRepairEntry CONVEX_HULL_INDIVIDUAL UnconnectedShapesHulled)]
              /\ merge <> []))
      /\ (clamp = []
          \/ exists n, (0 < n)%nat
                       /\ clamp = [Repair (mkRepairEntry CLAMP (ClampedValues n))])
      /\ (wrap = []
          \/ exists n, (0 < n)%nat
                       /\ wrap = [Repair (mkRepairEntry WRAP (WrappedValues n))])
      /\ (length steps <= 10)%nat
      /\ (forall k w,
             nth_error steps k = Some w ->
             exists before after,
               w = Repair (mkRepairEntry GEOMETRY_SIMPLIFICATION
                             (ShapeSimplified before after
                                (threshold_at k default_threshold))))
      /\ (reverse = []
          \/ reverse = [Repair (mkRepairEntry REVERSE ReversedWindingOrder)]).
Proof.
  intros L aoi ws out H.
  destruct (validate_wkt_inv L aoi ws out H) as (shape & s & _ & _ & Hs & -> & _).
  destruct (simplify_geometry_stages_inv L shape s Hs)
    as (mr & sr & Hfl & Hcl & Hmg & Hcv & Hsm & Hro & Hva & Hws).
  rewrite Hws. clear Hws.
  rewrite get_clamped_geometry_counts_aux.
  destruct (simplify_aoi_result_steps L _ _ _ _ _ _ Hsm) as (_ & Hr & _ & Hlen).
  exists (fst (_flatten_multipart_geometry shape)),
         (warn_reports [mr]),
         (warn_reports [snd (_get_convex_hull (merged s))]),
         (warn_reports [report_of_count CLAMP ClampedValues
                          (length (filter lat_out_of_range (all_coords (flattened s))))]),
         (warn_reports [report_of_count WRAP WrappedValues
                          (length (filter lon_out_of_range (all_coords (flattened s))))]),
         (map Repair sr),
         (warn_reports [snd (_counter_clockwise_reorientation (simplified s))]).
  assert (Hsteps : warn_reports (map Some sr) = map Repair sr).
  { unfold warn_reports. clear. induction sr as [|r sr IH]; [reflexivity|].
    simpl. now rewrite IH. }
  refine (conj _ (conj _ (conj _ (conj _ (conj _ (conj _ (conj _ (conj _ _)))))))).
  - rewrite <- Hsteps, <- !warn_reports_app. reflexivity.
  - unfold _flatten_multipart_geometry. cbn [fst].
    destruct (has_z shape); [right | left]; reflexivity.
  - destruct (merge_report_kind L _ _ _ Hmg) as [(-> & _)|(text & ->)];
      [left; reflexivity | right; exists text; reflexivity].
  - destruct (merge_report_kind L _ _ _ Hmg) as [(-> & Hsame & Hg)|(text & ->)].
    + left. rewrite Hsame. clear - Hg. unfold _get_convex_hull.
      destruct (clamped s); try reflexivity; discriminate Hg.
    + clear. unfold _get_convex_hull.
      destruct (geom_type (merged s));
        try (left; reflexivity); right; (split; [reflexivity | discriminate]).
  - unfold report_of_count.
    destruct (length (filter lat_out_of_range (all_coords (flattened s)))) as [|n];
      [left; reflexivity|]. right. exists (S n). split; [lia | reflexivity].
  - unfold report_of_count.
    destruct (length (filter lon_out_of_range (all_coords (flattened s)))) as [|n];
      [left; reflexivity|]. right. exists (S n). split; [lia | reflexivity].
  - rewrite length_map. clear - Hlen. unfold default_max_depth in Hlen. lia.
  - intros k w Hk. rewrite nth_error_map in Hk.
    destruct (nth_error sr k) as [r|] eqn:Hnth; [|discriminate Hk].
    injection Hk as <-. rewrite Hr in Hnth.
    rewrite (reports_of_steps_nth L _ _ _ _ _ Hnth). eexists _, _. reflexivity.
  - unfold _counter_clockwise_reorientation.
    destruct (is_Polygon (simplified s) && _); [right | left]; reflexivity.
Qed.

(** ** The pipeline sees the non-empty parts only *)


(** ** When the merger warns *)

Lemma in_warn_reports :
  forall e reports, In (Repair e) (warn_reports reports) <-> In (Some e) reports.
Proof.
  intros e reports. unfold warn_reports. rewrite in_flat_map. split.
  - intros ([r|] & Hin & Hr); simpl in Hr; [|destruct Hr].
    destruct Hr as [[= ->]|[]]. exact Hin.
  - intros H. exists (Some e). split; [exact H | now left].
Qed.

Lemma is_multipart_clamped :
  forall g, is_multipart (fst (_get_clamped_geometry g)) = is_multipart g.
Proof.
  intros g. unfold _get_clamped_geometry. cbn [fst].
  destruct (spans_more_than_180 (transform _wrap_lon g));
    now rewrite !is_multipart_transform.
Qed.

(** Among the reports of a run, only the merger's is of type
    [OVERLAP_MERGE]. *)
Lemma merge_warning_source :
  forall (L : Libs) geom s merge_report simplified_report text,
    flattened s = snd (_flatten_multipart_geometry geom) ->
    _simplify_aoi recursion_limit (convex s) default_threshold default_max_depth
    = Ok (simplified s, simplified_report) ->
    warnings s
    = fst (_flatten_multipart_geometry geom)
      ++ warn_reports
           ([merge_report; snd (_get_convex_hull (merged s))]
              ++ snd (_get_clamped_geometry (flattened s))
              ++ map Some simplified_report
              ++ [snd (_counter_clockwise_reorientation (simplified s))]) ->
    In (Repair (mkRepairEntry OVERLAP_MERGE text)) (warnings s) ->
    merge_report = Some (mkRepairEntry OVERLAP_MERGE text).
Proof.
  intros L geom s mr sr text Hfl Hsm Hws Hin. rewrite Hws in Hin. clear Hws.
  destruct (simplify_aoi_result_steps L _ _ _ _ _ _ Hsm) as (_ & Hr & _).
  clear Hsm.
  apply in_app_or in Hin. destruct Hin as [Hin|Hin].
  { unfold _flatten_multipart_geometry in Hin. cbn [fst] in Hin.
    destruct (has_z geom); [destruct Hin as [Hin|[]]; discriminate Hin | destruct Hin]. }
  apply in_warn_reports in Hin.
  rewrite get_clamped_geometry_counts_aux in Hin.
  cbn [app In] in Hin.
  destruct Hin as [Hin|[Hin|[Hin|[Hin|Hin]]]].
  - exact Hin.
  - exfalso. clear - Hin. unfold _get_convex_hull in Hin.
    destruct (geom_type (merged s)); discriminate Hin.
  - exfalso. clear - Hin. unfold report_of_count in Hin.
    destruct (0 <? _)%nat; discriminate Hin.
  - exfalso. clear - Hin. unfold report_of_count in Hin.
    destruct (0 <? _)%nat; discriminate Hin.
  - exfalso. apply in_app_or in Hin. destruct Hin as [Hin|Hin].
    + apply in_map_iff in Hin. destruct Hin as (r & [= ->] & Hin).
      destruct (In_nth_error _ _ Hin) as (k & Hk). rewrite Hr in Hk.
      pose proof (reports_of_steps_nth L _ _ _ _ _ Hk) as E. discriminate E.
    + clear - Hin. unfold _counter_clockwise_reorientation in Hin.
      destruct (is_Polygon (simplified s) && _); destruct Hin as [Hin|[]];
        discriminate Hin.
Qed.

(** A successful run of the stages warns of [OVERLAP_MERGE] exactly
    when the geometry has no non-empty part at all or more than one: with
    exactly one part, however nested, the merger is handed that part and
    reports nothing. *)
Theorem merge_warning_iff_not_one_part :
  forall (L : Libs) (geom : geometry) (ws : list warning) (out : geometry),
    _simplify_geometry geom = Ok (ws, out) ->
    ((exists text, In (Repair (mkRepairEntry OVERLAP_MERGE text)) ws)
     <-> length (_recurse_nested_geometry geom) <> 1%nat).
Proof.
  intros L geom ws out H. unfold _simplify_geometry in H.
  destruct (_simplify_geometry_stages geom) as [s|e] eqn:Hs; [|discriminate H].
  cbn [bind] in H. injection H as <- _.
  destruct (simplify_geometry_stages_inv L geom s Hs)
    as (mr & sr & Hfl & Hcl & Hmg & _ & Hsm & _ & _ & Hws).
  clear Hs.
  pose proof (is_multipart_clamped (flattened s)) as Hmulti. rewrite <- Hcl in Hmulti.
  pose proof (get_clamped_geometry_members (flattened s)) as Hmembers.
  rewrite <- Hcl in Hmembers.
  pose proof (recurse_nested_geometry_leaves geom) as Hleaves.
  assert (Hkind :
    (length (_recurse_nested_geometry geom) = 1%nat /\ is_multipart (flattened s) = false)
    \/ (length (_recurse_nested_geometry geom) <> 1%nat
        /\ exists parts, flattened s = GeometryCollection parts
                         /\ length parts <> 1%nat)).
  { rewrite Hfl. unfold _flatten_multipart_geometry. cbn [snd].
    destruct (_recurse_nested_geometry geom) as [|a [|b r]].
    - right. split; [discriminate|]. exists []. split; [reflexivity | discriminate].
    - left. split; [reflexivity|].
      inversion Hleaves as [|? ? [Hsingle _] _]; subst.
      unfold is_single_part in Hsingle. apply andb_true_iff in Hsingle.
      destruct Hsingle as [Hm _]. now apply negb_true_iff in Hm.
    - right. split; [discriminate|]. exists (a :: b :: r).
      split; [reflexivity | discriminate]. }
  destruct Hkind as [[Hone Hm]|[Hmany (parts & Hparts & Hlen)]].
  - split; [|intros Hne; now destruct Hne].
    intros (text & Hin). exfalso.
    pose proof (merge_warning_source L geom s mr sr text Hfl Hsm Hws Hin) as Hmr.
    clear - Hmr Hmg Hmulti Hm. rewrite Hm in Hmulti.
    unfold _merge_overlapping_geometry in Hmg.
    destruct (clamped s); try discriminate Hmulti; cbn [geoms_of] in Hmg;
      injection Hmg as _ Hnone; congruence.
  - split; [intros _; exact Hmany|]. intros _.
    assert (Hsome : exists text, mr = Some (mkRepairEntry OVERLAP_MERGE text)).
    { clear - Hmg Hmembers Hparts Hlen Hmulti.
      rewrite Hparts in Hmembers, Hmulti. cbn [geoms_of is_multipart] in Hmembers, Hmulti.
      specialize (Hmembers Hlen).
      unfold _merge_overlapping_geometry in Hmg.
      destruct (geoms_of (clamped s)) as [gs|] eqn:Hg.
      - apply Nat.eqb_neq in Hmembers. rewrite Hmembers in Hmg.
        destruct (geoms_of (unary_union (clamped s)));
          injection Hmg as _ <-; eexists; reflexivity.
      - destruct (clamped s); discriminate. }
    destruct Hsome as (text & ->). exists text. rewrite Hws.
    apply in_or_app. right. apply in_warn_reports. now left.
Qed.

(** ** The nearest-neighbour distance *)

Section NearestNeighbor.

Local Open Scope Q_scope.

Lemma insert_sorted_perm :
  forall d s, Permutation (d :: s) (insert_sorted d s).
Proof.
  intros d s. induction s as [|e r IH]; simpl; [apply Permutation_refl|].
  destruct (Qle_bool d e); [apply Permutation_refl|].
  eapply perm_trans; [apply perm_swap|]. now apply perm_skip.
Qed.

Lemma sort_distances_perm :
  forall ds, Permutation ds (sort_distances ds).
Proof.
  induction ds as [|d ds IH]; simpl; [constructor|].
  eapply perm_trans; [apply perm_skip, IH | apply insert_sorted_perm].
Qed.

Lemma insert_sorted_sorted :
  forall d s, StronglySorted Qle s -> StronglySorted Qle (insert_sorted d s).
Proof.
  intros d s. induction s as [|e r IH]; intros Hs; simpl.
  - constructor; constructor.
  - inversion Hs as [|? ? Hr He]; subst.
    destruct (Qle_bool d e) eqn:Hd.
    + apply Qle_bool_iff in Hd. constructor; [exact Hs|].
      constructor; [exact Hd|].
      eapply Forall_impl; [|exact He]. intros x Hx. now apply (Qle_trans _ e).
    + apply Qle_bool_false in Hd. constructor; [now apply IH|].
      apply Forall_forall. intros x Hx.
      apply (Permutation_in _ (Permutation_sym (insert_sorted_perm d r))) in Hx.
      destruct Hx as [<-|Hx]; [now apply Qlt_le_weak|].
      rewrite Forall_forall in He. now apply He.
Qed.

Lemma sort_distances_sorted :
  forall ds, StronglySorted Qle (sort_distances ds).
Proof.
  induction ds as [|d ds IH]; simpl; [constructor | now apply insert_sorted_sorted].
Qed.

Lemma filter_length_perm :
  forall (f : Q -> bool) l l',
    Permutation l l' -> length (filter f l) = length (filter f l').
Proof.
  intros f l l' H. induction H as [|x l l' _ IH|x y l|l l' l'' _ IH1 _ IH2]; simpl.
  - reflexivity.
  - destruct (f x); simpl; now rewrite IH.
  - destruct (f x), (f y); reflexivity.
  - now rewrite IH1.
Qed.

Lemma filter_length_two :
  forall (f : Q -> bool) l i j x y,
    i <> j -> nth_error l i = Some x -> nth_error l j = Some y ->
    f x = true -> f y = true ->
    (2 <= length (filter f l))%nat.
Proof.
  intros f l.
  assert (Hone : forall l y, In y l -> f y = true -> (1 <= length (filter f l))%nat).
  { intros l0 y Hy Hf.
    assert (Hin : In y (filter f l0)) by (apply filter_In; now split).
    destruct (filter f l0); [destruct Hin | simpl; lia]. }
  induction l as [|a r IH]; intros i j x y Hij Hi Hj Hx Hy.
  - destruct i; discriminate.
  - destruct i as [|i], j as [|j]; simpl in Hi, Hj.
    + congruence.
    + injection Hi as ->. simpl. rewrite Hx. simpl.
      pose proof (Hone r y (nth_error_In _ _ Hj) Hy). lia.
    + injection Hj as ->. simpl. rewrite Hy. simpl.
      pose proof (Hone r x (nth_error_In _ _ Hi) Hx). lia.
    + assert (Hij' : i <> j) by congruence.
      pose proof (IH i j x y Hij' Hi Hj Hx Hy). simpl.
      destruct (f a); simpl; lia.
Qed.

(** The second entry of a sorted row is at most the larger of any two
    entries of the row. *)
Lemma second_smallest_upper :
  forall ds s0 s1 rest i j x y,
    sort_distances ds = s0 :: s1 :: rest ->
    i <> j -> nth_error ds i = Some x -> nth_error ds j = Some y ->
    s1 <= x \/ s1 <= y.
Proof.
  intros ds s0 s1 rest i j x y Hs Hij Hi Hj.
  destruct (Qltb x s1) eqn:Hx; [|left; now apply Qltb_false].
  destruct (Qltb y s1) eqn:Hy; [|right; now apply Qltb_false].
  exfalso.
  pose proof (filter_length_two (fun d => Qltb d s1) ds i j x y Hij Hi Hj Hx Hy) as H2.
  rewrite (filter_length_perm _ _ _ (sort_distances_perm ds)), Hs in H2.
  pose proof (sort_distances_sorted ds) as Hsorted. rewrite Hs in Hsorted.
  inversion Hsorted as [|? ? Hs1 _]; subst.
  inversion Hs1 as [|? ? _ Hrest]; subst.
  assert (Hnone : filter (fun d => Qltb d s1) rest = []).
  { clear - Hrest. induction Hrest as [|z r Hz _ IH]; [reflexivity|].
    simpl. rewrite IH.
    assert (E : Qltb z s1 = false).
    { unfold Qltb. apply negb_false_iff. now apply Qle_bool_iff. }
    now rewrite E. }
  assert (E1 : Qltb s1 s1 = false).
  { unfold Qltb. apply negb_false_iff, Qle_bool_iff, Qle_refl. }
  simpl in H2. rewrite E1, Hnone in H2.
  destruct (Qltb s0 s1); simpl in H2; lia.
Qed.

Lemma nth_error_middle :
  forall (A : Type) (l1 l2 : list A) a, nth_error (l1 ++ a :: l2) (length l1) = Some a.
Proof. intros A l1 l2 a. induction l1 as [|x l1 IH]; [reflexivity | exact IH]. Qed.

(** The first two entries of a sorted row stand at two places of the
    row. *)
Lemma second_smallest_attained :
  forall ds s0 s1 rest,
    sort_distances ds = s0 :: s1 :: rest ->
    exists i j,
      i <> j /\ nth_error ds i = Some s0 /\ nth_error ds j = Some s1 /\ s0 <= s1.
Proof.
  intros ds s0 s1 rest Hs.
  pose proof (sort_distances_perm ds) as Hp. rewrite Hs in Hp.
  pose proof (sort_distances_sorted ds) as Hsorted. rewrite Hs in Hsorted.
  assert (Hle : s0 <= s1).
  { inversion Hsorted as [|? ? _ H0]; subst. now inversion H0. }
  assert (H0 : In s0 ds).
  { apply (Permutation_in _ (Permutation_sym Hp)). now left. }
  destruct (in_split _ _ H0) as (l1 & l2 & ->).
  apply Permutation_sym, Permutation_cons_app_inv in Hp.
  assert (H1 : In s1 (l1 ++ l2)) by (apply (Permutation_in _ Hp); now left).
  apply in_app_or in H1. destruct H1 as [H1|H1].
  - destruct (in_split _ _ H1) as (m1 & m2 & ->).
    exists (length (m1 ++ s1 :: m2)), (length m1).
    refine (conj _ (conj _ (conj _ Hle))).
    + rewrite length_app. simpl. lia.
    + apply nth_error_middle.
    + rewrite <- app_assoc. simpl. apply nth_error_middle.
  - destruct (in_split _ _ H1) as (m1 & m2 & ->).
    exists (length l1), (length (l1 ++ s0 :: m1)).
    refine (conj _ (conj _ (conj _ Hle))).
    + rewrite length_app. simpl. lia.
    + apply nth_error_middle.
    + replace (l1 ++ s0 :: m1 ++ s1 :: m2) with ((l1 ++ s0 :: m1) ++ s1 :: m2)
        by (rewrite <- app_assoc; reflexivity).
      apply nth_error_middle.
Qed.

Lemma fold_left_dist_min :
  forall xs a,
    exists d,
      fold_left dist_min (map Fin xs) (Fin a) = Fin d
      /\ (d = a \/ In d xs) /\ d <= a /\ Forall (Qle d) xs.
Proof.
  induction xs as [|x r IH]; intros a.
  - exists a. simpl. repeat split; [now left | apply Qle_refl | constructor].
  - simpl. destruct (Qle_bool a x) eqn:Hax.
    + apply Qle_bool_iff in Hax.
      destruct (IH a) as (d & Hd & Hin & Hle & Hall).
      exists d. refine (conj Hd (conj _ (conj Hle _))).
      * destruct Hin; [now left | right; now right].
      * constructor; [now apply (Qle_trans _ a) | exact Hall].
    + apply Qle_bool_false in Hax.
      destruct (IH x) as (d & Hd & Hin & Hle & Hall).
      exists d. refine (conj Hd (conj _ (conj _ _))).
      * right. destruct Hin as [->|Hin]; [now left | now right].
      * apply (Qle_trans _ x); [exact Hle | now apply Qlt_le_weak].
      * constructor; assumption.
Qed.

Lemma fold_left_dist_min_Inf :
  forall x r,
    exists d,
      fold_left dist_min (map Fin (x :: r)) Inf = Fin d
      /\ In d (x :: r) /\ Forall (Qle d) (x :: r).
Proof.
  intros x r. simpl. destruct (fold_left_dist_min r x) as (d & Hd & Hin & Hle & Hall).
  exists d. refine (conj Hd (conj _ _)).
  - destruct Hin as [->|Hin]; [now left | now right].
  - constructor; assumption.
Qed.

Context {L : Libs}.

(** A row of the neighbour table of at least two points. *)
Lemma kneighbors_second_row :
  forall points p,
    (2 <= length points)%nat ->
    exists s0 rest,
      sort_distances (map (distance p) points)
      = s0 :: kneighbors_second points p :: rest.
Proof.
  intros points p Hlen. unfold kneighbors_second.
  pose proof (Permutation_length (sort_distances_perm (map (distance p) points))) as Hl.
  rewrite length_map in Hl.
  destruct (sort_distances (map (distance p) points)) as [|s0 [|s1 rest]];
    simpl in Hl; try lia.
  now exists s0, rest.
Qed.

Lemma closest_point_dist_rows :
  forall points,
    (2 <= length points)%nat ->
    exists d,
      closest_point_dist points = Fin d
      /\ (exists p, In p points /\ d = kneighbors_second points p)
      /\ forall p, In p points -> d <= kneighbors_second points p.
Proof.
  intros points Hlen. unfold closest_point_dist.
  replace (length points <? 2)%nat with false by (symmetry; apply Nat.ltb_ge; lia).
  destruct points as [|p0 r]; [simpl in Hlen; lia|].
  destruct (fold_left_dist_min_Inf (kneighbors_second (p0 :: r) p0)
              (map (kneighbors_second (p0 :: r)) r)) as (d & Hd & Hin & Hall).
  exists d. refine (conj Hd (conj _ _)).
  - change (In d (map (kneighbors_second (p0 :: r)) (p0 :: r))) in Hin.
    apply in_map_iff in Hin. destruct Hin as (p & <- & Hp). now exists p.
  - intros p Hp.
    change (Forall (Qle d) (map (kneighbors_second (p0 :: r)) (p0 :: r))) in Hall.
    rewrite Forall_forall in Hall. apply Hall. now apply in_map.
Qed.

End NearestNeighbor.



(** ** The further properties on concrete inputs *)

Section MoreExamples.

Import Inputs.
Import Cases.

Local Open Scope Q_scope.

Local Abbreviation R := Reference.libs.

(** The line of one position twice is invalid, left alone by the repair
    and rejected. *)
Lemma invalid_point_or_line_is_rejected_witness :
  _search_wkt_prep doubled_point_line = Ok doubled_point_line
  /\ validate_wkt (L := R) doubled_point_line = Raise (ASFWKTError InvalidGeometry).
Proof.
  apply (invalid_point_or_line_is_rejected R doubled_point_line);
    vm_compute; reflexivity.
Defined.

(** The clockwise unit square meets the limits: it is turned and
    nothing else. *)
Lemma validate_wkt_of_single_part_witness :
  validate_wkt (L := R) clockwise_square
  = Ok ([Repair (mkRepairEntry REVERSE ReversedWindingOrder)], counter_clockwise_square).
Proof.
  rewrite (validate_wkt_of_single_part R clockwise_square);
    vm_compute; reflexivity.
Defined.

(** The point beyond both ranges comes back at (-170, 90) with three
    warnings. *)
Lemma validate_wkt_of_point_witness :
  validate_wkt (L := R) (Point (Some point_out_of_range))
  = Ok ([HIGHER_DIMENSION_DROPPED;
         Repair (mkRepairEntry CLAMP (ClampedValues 1));
         Repair (mkRepairEntry WRAP (WrappedValues 1))],
        Point (Some (xy (-170) 90))).
Proof.
  rewrite (proj1 (validate_wkt_of_point R point_out_of_range
                    ltac:(vm_compute; reflexivity))).
  vm_compute; reflexivity.
Defined.

(** The hull the two squares come back as is rounded already. *)
Lemma validate_wkt_output_is_rounded_witness :
  has_z hull_of_two_squares = false
  /\ transform round_coord hull_of_two_squares = hull_of_two_squares.
Proof.
  assert (H : validate_wkt (L := R) two_squares
              = Ok ([Repair (mkRepairEntry OVERLAP_MERGE (NonOverlappingMergedByHulls 2));
                     Repair (mkRepairEntry CONVEX_HULL_INDIVIDUAL UnconnectedShapesHulled);
                     Repair (mkRepairEntry REVERSE ReversedWindingOrder)],
                    hull_of_two_squares))
    by (vm_compute; reflexivity).
  exact (proj2 (validate_wkt_output_is_rounded R two_squares _ hull_of_two_squares H)).
Defined.

(** The clockwise square with a counter-clockwise hole: both rings are
    reversed, and the result is left alone. *)
Lemma winding_normalizer_settles_witness :
  exists exterior' interiors',
    fst (_counter_clockwise_reorientation (Polygon ring_of_side_10 [hole_of_side_2]))
    = Polygon exterior' interiors'
    /\ 0 <= signed_area exterior'
    /\ Forall2 (fun h h' => (h' = h \/ h' = rev h) /\ signed_area h' <= 0)
         [hole_of_side_2] interiors'
    /\ _counter_clockwise_reorientation (Polygon exterior' interiors')
       = (Polygon exterior' interiors', None).
Proof.
  apply (winding_normalizer_settles ring_of_side_10 [hole_of_side_2]).
  - reflexivity.
  - constructor; [reflexivity | constructor].
Defined.

(** The line with a close pair comes back after one step. *)
Lemma simplify_aoi_result_witness :
  LineString [xy 0 0; xy 1 0]
  = simplified_after (L := R) 1 line_with_close_pair default_threshold
  /\ meets_limits (L := R) (LineString [xy 0 0; xy 1 0]) = true
  /\ meets_limits (L := R) line_with_close_pair = false.
Proof.
  assert (H : _simplify_aoi (L := R) recursion_limit line_with_close_pair
                default_threshold default_max_depth
              = Ok (LineString [xy 0 0; xy 1 0],
                    [mkRepairEntry GEOMETRY_SIMPLIFICATION
                       (ShapeSimplified 3 2 default_threshold)]))
    by (vm_compute; reflexivity).
  destruct (simplify_aoi_result R _ _ _ _ _ _ H) as (Ho & Hm & Hj & _).
  refine (conj Ho (conj Hm _)).
  exact (Hj 0%nat (Nat.lt_0_succ 0)).
Defined.

(** The warnings of the two squares: merge, hull, reverse. *)
Lemma validate_wkt_warnings_in_order_witness :
  exists higher merge hull clamp wrap steps reverse,
    [Repair (mkRepairEntry OVERLAP_MERGE (NonOverlappingMergedByHulls 2));
     Repair (mkRepairEntry CONVEX_HULL_INDIVIDUAL UnconnectedShapesHulled);
     Repair (mkRepairEntry REVERSE ReversedWindingOrder)]
    = higher ++ merge ++ hull ++ clamp ++ wrap ++ steps ++ reverse
    /\ (higher = [] \/ higher = [HIGHER_DIMENSION_DROPPED])
    /\ (merge = []
        \/ exists text, merge = [Repair (mkRepairEntry OVERLAP_MERGE text)])
    /\ (hull = []
        \/ (hull = [Repair (mkRepairEntry CONVEX_HULL_INDIVIDUAL UnconnectedShapesHulled)]
            /\ merge <> []))
    /\ (clamp = []
        \/ exists n, (0 < n)%nat
                     /\ clamp = [Repair (mkRepairEntry CLAMP (ClampedValues n))])
    /\ (wrap = []
        \/ exists n, (0 < n)%nat
                     /\ wrap = [Repair (mkRepairEntry WRAP (WrappedValues n))])
    /\ (length steps <= 10)%nat
    /\ (forall k w,
           nth_error steps k = Some w ->
           exists before after,
             w = Repair (mkRepairEntry GEOMETRY_SIMPLIFICATION
                           (ShapeSimplified before after
                              (threshold_at k default_threshold))))
    /\ (reverse = []
        \/ reverse = [Repair (mkRepairEntry REVERSE ReversedWindingOrder)]).
Proof.
  apply (validate_wkt_warnings_in_order R two_squares _ hull_of_two_squares).
  vm_compute; reflexivity.
Defined.

(** The two squares are two parts: the merger warns. *)
Lemma merge_warning_iff_not_one_part_witness :
  (exists text,
      In (Repair (mkRepairEntry OVERLAP_MERGE text))
        [Repair (mkRepairEntry OVERLAP_MERGE (NonOverlappingMergedByHulls 2));
         Repair (mkRepairEntry CONVEX_HULL_INDIVIDUAL UnconnectedShapesHulled);
         Repair (mkRepairEntry REVERSE ReversedWindingOrder)])
  <-> length (_recurse_nested_geometry two_squares) <> 1%nat.
Proof.
  apply (merge_warning_iff_not_one_part R two_squares _ hull_of_two_squares).
  vm_compute; reflexivity.
Defined.




(** ... and the run on it, valid as it is, ends in the bound-exceeded
    failure. *)
Example closed_line_is_never_simplified :
  is_valid (Libs := R) closed_line = true
  /\ validate_wkt (L := R) closed_line
     = Raise (ASFWKTError SimplificationBoundExceeded).
Proof. split; vm_compute; reflexivity. Qed.

End MoreExamples.
